(** * shell-analyser: the analysis pipeline of [main.go]

    A shallow embedding of the history reader, the command classifier, the
    insight aggregator and the configuration parser of [main.go], followed
    by the properties of that code.

    Conventions of the embedding.
    - A Go [string] is a byte sequence: Rocq's [string].
    - A Go [int] is a [Z]; the only arithmetic the pipeline does on ints is
      [x++], written [incr] with its 64-bit wrap-around.
    - A Go [map] is a [gmap]; a missing key reads as the zero value
      ([getInt], [getStr]).  The order in which [range] visits a map is not
      specified by Go: it is supplied by the run-time ([mapRange]).
    - [float64(a) / float64(b)] is the exact rational [a / b] in [Qc]; the
      rounding of binary64 is not modelled.
    - The host (files, external tools, clock) is a record of functions. *)

From Stdlib Require Import QArith Qcanon Ascii.
From Stdlib Require Import Sorting.Sorted.
From stdpp Require Import gmap strings list fin_maps numbers sorting.

Local Open Scope Z_scope.

(** ** Bytes and the [strings] package *)

Module strings.

Definition byte (n : N) : ascii := ascii_of_N n.

Definition code (c : ascii) : N := N_of_ascii c.

Fixpoint bytes (l : list N) : string :=
  match l with
  | [] => EmptyString
  | b :: l' => String (byte b) (bytes l')
  end.

(** [len(s)] *)
Definition len (s : string) : Z := Z.of_nat (String.length s).

(** [strings.HasPrefix(s, prefix)] *)
Fixpoint HasPrefix (s prefix : string) {struct prefix} : bool :=
  match prefix, s with
  | EmptyString, _ => true
  | String p prefix', String c s' =>
      if Ascii.eqb c p then HasPrefix s' prefix' else false
  | String _ _, EmptyString => false
  end.

(** [s[n:]] for [n <= len(s)] *)
Fixpoint drop (n : nat) (s : string) : string :=
  match n, s with
  | O, _ => s
  | S n', String _ s' => drop n' s'
  | S _, EmptyString => EmptyString
  end.

(** [s[:n]] for [n <= len(s)] *)
Fixpoint take (n : nat) (s : string) : string :=
  match n, s with
  | O, _ => EmptyString
  | S n', String c s' => String c (take n' s')
  | S _, EmptyString => EmptyString
  end.

(** [strings.TrimPrefix(s, prefix)] *)
Definition TrimPrefix (s prefix : string) : string :=
  if HasPrefix s prefix then drop (String.length prefix) s else s.

(** [strings.HasSuffix(s, suffix)] *)
Definition HasSuffix (s suffix : string) : bool :=
  (String.length suffix <=? String.length s)%nat
  && String.eqb (drop (String.length s - String.length suffix) s) suffix.

(** [strings.TrimSuffix(s, suffix)] *)
Definition TrimSuffix (s suffix : string) : string :=
  if HasSuffix s suffix
  then take (String.length s - String.length suffix) s else s.

(** [strings.Index(s, substr)]: the offset of the first occurrence. *)
Fixpoint Index (s substr : string) : option nat :=
  if HasPrefix s substr then Some O
  else match s with
       | EmptyString => None
       | String _ s' => S <$> Index s' substr
       end.

(** [strings.Contains(s, substr)] is [Index(s, substr) >= 0]. *)
Definition Contains (s substr : string) : bool :=
  bool_decide (is_Some (Index s substr)).

(** [strings.SplitN(s, sep, n)] for a non-empty [sep] and [n >= 0]: at most
    [n] pieces, the last one the unsplit rest. *)
Fixpoint SplitN (s sep : string) (n : nat) : list string :=
  match n with
  | O => []
  | S O => [s]
  | S n' =>
      match Index s sep with
      | None => [s]
      | Some m => take m s :: SplitN (drop (m + String.length sep) s) sep n'
      end
  end.

(** *** Unicode white space

    [strings.Fields] and [strings.TrimSpace] split and trim around the
    runes for which [unicode.IsSpace] holds.  These are the UTF-8
    encodings of those runes: U+0009..U+000D, U+0020, U+0085, U+00A0,
    U+1680, U+2000..U+200A, U+2028, U+2029, U+202F, U+205F and U+3000.
    Go decodes the string rune by rune; a rune is white space exactly
    when its bytes are one of these encodings (the decoder accepts no
    other encoding of a code point). *)
Definition spaceEncodings : list string :=
  map bytes
    [ [0x09]; [0x0A]; [0x0B]; [0x0C]; [0x0D]; [0x20];
      [0xC2; 0x85]; [0xC2; 0xA0];
      [0xE1; 0x9A; 0x80];
      [0xE2; 0x80; 0x80]; [0xE2; 0x80; 0x81]; [0xE2; 0x80; 0x82];
      [0xE2; 0x80; 0x83]; [0xE2; 0x80; 0x84]; [0xE2; 0x80; 0x85];
      [0xE2; 0x80; 0x86]; [0xE2; 0x80; 0x87]; [0xE2; 0x80; 0x88];
      [0xE2; 0x80; 0x89]; [0xE2; 0x80; 0x8A];
      [0xE2; 0x80; 0xA8]; [0xE2; 0x80; 0xA9]; [0xE2; 0x80; 0xAF];
      [0xE2; 0x81; 0x9F];
      [0xE3; 0x80; 0x80] ]%N.

(** The width in bytes of the white-space rune that starts [s], [0] when
    [s] does not start with one. *)
Definition spaceWidth (s : string) : nat :=
  match List.find (HasPrefix s) spaceEncodings with
  | Some e => String.length e
  | None => O
  end.

(** The result of [FieldsFunc]'s loop at its end: the field in progress,
    if any.  A field in progress is never empty, so the empty string
    stands for "no field in progress" ([start < 0] in Go). *)
Definition flush (cur : string) : list string :=
  match cur with
  | EmptyString => []
  | _ => [cur]
  end.

(** The loop of [strings.FieldsFunc(s, unicode.IsSpace)].  [skip] counts
    the bytes still to pass of the white-space rune being read; a byte
    that starts no white-space rune extends the field in progress.  (Go
    passes a whole rune at a time; the bytes after the first of a
    multi-byte rune are continuation bytes, and none of them starts a
    white-space encoding, so the fields are the same.) *)
Fixpoint fieldsLoop (s : string) (skip : nat) (cur : string) : list string :=
  match s with
  | EmptyString => flush cur
  | String c s' =>
      match skip with
      | S k => fieldsLoop s' k cur
      | O =>
          match spaceWidth s with
          | O => fieldsLoop s' O (cur +:+ String c EmptyString)
          | S k => flush cur ++ fieldsLoop s' k EmptyString
          end
      end
  end.

(** [strings.Fields(s)] *)
Definition Fields (s : string) : list string := fieldsLoop s O EmptyString.

(** [strings.TrimLeftFunc(s, unicode.IsSpace)]; [fuel] bounds the number
    of runes removed. *)
Fixpoint trimLeftSpace (fuel : nat) (s : string) : string :=
  match fuel with
  | O => s
  | S fuel' =>
      match spaceWidth s with
      | O => s
      | w => trimLeftSpace fuel' (drop w s)
      end
  end.

(** The white-space encoding that ends [s], if there is one. *)
Definition spaceSuffix (s : string) : option string :=
  List.find (HasSuffix s) spaceEncodings.

(** [strings.TrimRightFunc(s, unicode.IsSpace)] *)
Fixpoint trimRightSpace (fuel : nat) (s : string) : string :=
  match fuel with
  | O => s
  | S fuel' =>
      match spaceSuffix s with
      | None => s
      | Some e =>
          trimRightSpace fuel' (take (String.length s - String.length e) s)
      end
  end.

(** [strings.TrimSpace(s)]: leading white space first, then trailing. *)
Definition TrimSpace (s : string) : string :=
  let l := trimLeftSpace (String.length s) s in
  trimRightSpace (String.length l) l.

(** Membership of a byte in an ASCII cutset. *)
Fixpoint inCutset (cutset : string) (c : ascii) : bool :=
  match cutset with
  | EmptyString => false
  | String d cutset' => Ascii.eqb c d || inCutset cutset' c
  end.

Fixpoint trimLeftASCII (s cutset : string) : string :=
  match s with
  | EmptyString => EmptyString
  | String c s' => if inCutset cutset c then trimLeftASCII s' cutset else s
  end.

(** Scans from the right: [None] when every byte of [s] is in the set. *)
Fixpoint trimRightAux (s cutset : string) : option string :=
  match s with
  | EmptyString => None
  | String c s' =>
      match trimRightAux s' cutset with
      | Some r => Some (String c r)
      | None => if inCutset cutset c then None else Some (String c EmptyString)
      end
  end.

Definition trimRightASCII (s cutset : string) : string :=
  default EmptyString (trimRightAux s cutset).

(** [strings.Trim(s, cutset)] for a cutset of ASCII bytes. *)
Definition Trim (s cutset : string) : string :=
  trimLeftASCII (trimRightASCII s cutset) cutset.

Definition isLower (c : ascii) : bool :=
  (code "a" <=? code c)%N && (code c <=? code "z")%N.

Definition isAlnum (c : ascii) : bool :=
  isLower c
  || (code "A" <=? code c)%N && (code c <=? code "Z")%N
  || (code "0" <=? code c)%N && (code c <=? code "9")%N
  || Ascii.eqb c "_".

Definition toUpper (c : ascii) : ascii :=
  if isLower c then byte (code c - 32) else c.

(** The loop of [strings.Title] on ASCII text: a letter that follows a
    separator (anything but a letter, a digit or an underscore) is put in
    upper case; [prevSep] says whether the previous byte was one. *)
Fixpoint titleLoop (prevSep : bool) (s : string) : string :=
  match s with
  | EmptyString => EmptyString
  | String c s' =>
      String (if prevSep then toUpper c else c) (titleLoop (negb (isAlnum c)) s')
  end.

(** [strings.Title(s)] for ASCII [s] (the catalog's names are ASCII). *)
Definition Title (s : string) : string := titleLoop true s.

End strings.

(** ** The [regexp] package, for the patterns [main.go] compiles

    The four workflow patterns use literals, alternation and
    concatenation only.  The literals are ASCII, so matching bytes is
    matching runes. *)

Module regexp.

Inductive Regexp : Type :=
  | Lit (s : string)
  | Alt (a b : Regexp)
  | Cat (a b : Regexp).

(** The rests of [s] after each way [re] matches at the start of [s]. *)
Fixpoint matchAt (re : Regexp) (s : string) : list string :=
  match re with
  | Lit l =>
      if strings.HasPrefix s l then [strings.drop (String.length l) s] else []
  | Alt a b => matchAt a s ++ matchAt b s
  | Cat a b => r ← matchAt a s; matchAt b r
  end.

(** [re.MatchString(s)]: [re] matches somewhere in [s]. *)
Fixpoint MatchString (re : Regexp) (s : string) : bool :=
  match matchAt re s with
  | _ :: _ => true
  | [] => match s with
          | EmptyString => false
          | String _ s' => MatchString re s'
          end
  end.

End regexp.

(** ** [bufio.Scanner] with the default split function [ScanLines] *)

Module bufio.

(** [bufio.MaxScanTokenSize]: the scanner's buffer holds at most this many
    bytes of a line that is not yet complete. *)
Definition MaxScanTokenSize : N := 65536.

Definition newline : ascii := strings.byte 10.

Definition carriageReturn : ascii := strings.byte 13.

(** The pieces of [data] between newlines; the last piece is what follows
    the last newline. *)
Fixpoint splitLines (data : string) : list string :=
  match data with
  | EmptyString => [EmptyString]
  | String c rest =>
      if Ascii.eqb c newline then EmptyString :: splitLines rest
      else match splitLines rest with
           | l :: ls => String c l :: ls
           | [] => [String c EmptyString]
           end
  end.

(** The lines [ScanLines] finds when the buffer is large enough: every
    piece that a newline ends, and the last piece unless it is empty. *)
Fixpoint rawLines (pieces : list string) : list string :=
  match pieces with
  | [] => []
  | [l] => strings.flush l
  | l :: ls => l :: rawLines ls
  end.

(** [dropCR]: a line's trailing carriage return is not part of it. *)
Definition dropCR (line : string) : string :=
  if strings.HasSuffix line (String carriageReturn EmptyString)
  then strings.take (String.length line - 1) line else line.

Definition tooLong (line : string) : bool :=
  (MaxScanTokenSize <=? N.of_nat (String.length line))%N.

(** The tokens [scanner.Scan()] yields, in order: the scan stops at the
    first line of [MaxScanTokenSize] bytes or more. *)
Fixpoint tokens (lines : list string) : list string :=
  match lines with
  | [] => []
  | l :: ls => if tooLong l then [] else dropCR l :: tokens ls
  end.

Definition Scan (data : string) : list string := tokens (rawLines (splitLines data)).

(** [scanner.Err()] after the loop: [true] for [ErrTooLong]. *)
Definition Err (data : string) : bool :=
  existsb tooLong (rawLines (splitLines data)).

End bufio.

(** ** [time.Time], as far as the pipeline reads it *)

Module time.

(** An instant and the offset of its time zone, both in seconds. *)
Record Time : Type := { unixSec : Z; zoneOffset : Z }.

(** [t.Hour()]: the hour of the day, in [0, 23]. *)
Definition Hour (t : Time) : Z := ((unixSec t + zoneOffset t) `div` 3600) `mod` 24.

End time.

(** ** What Go leaves to the run-time

    [range] over a map visits every entry once, in an order that Go does
    not specify and that changes from one loop to the next.  [sort.Slice]
    sorts by the given [less], and "is not guaranteed to be stable".  The
    pipeline is written against any run-time that keeps these contracts. *)

Record StrictWeakOrder {A : Type} (less : A → A → bool) : Prop := {
  less_asym : ∀ x y, less x y = true → less y x = false;
  less_negtrans : ∀ x y z, less x y = false → less y z = false → less x z = false;
}.

Class GoRuntime : Type := {
  mapRange : ∀ {K : Type} `{Countable K} {V : Type}, gmap K V → list (K * V);
  mapRange_perm : ∀ {K : Type} `{Countable K} {V : Type} (m : gmap K V),
      mapRange m ≡ₚ map_to_list m;
  sortSlice : ∀ {A : Type}, (A → A → bool) → list A → list A;
  sortSlice_perm : ∀ {A : Type} (less : A → A → bool) (l : list A),
      sortSlice less l ≡ₚ l;
  sortSlice_sorted : ∀ {A : Type} (less : A → A → bool) (l : list A),
      StrictWeakOrder less →
      StronglySorted (λ x y, less y x = false) (sortSlice less l);
}.

(** [insertionSortLessFunc] of package [sort], which [sort.Slice] runs on
    slices of at most 12 elements: each element in turn moves left while
    it is less than its left neighbour.  [sortedRev] is the sorted part,
    last element first. *)
Fixpoint insertLeft {A : Type} (less : A → A → bool) (x : A) (sortedRev : list A)
  : list A :=
  match sortedRev with
  | [] => [x]
  | y :: rest => if less x y then y :: insertLeft less x rest else x :: sortedRev
  end.

Definition insertionSortLessFunc {A : Type} (less : A → A → bool) (l : list A)
  : list A :=
  reverse (foldl (λ sortedRev x, insertLeft less x sortedRev) [] l).

(** ** Go's [int] and the zero value of a missing map key *)

Definition maxInt : Z := 2 ^ 63 - 1.

Definition wrapInt (z : Z) : Z := (z + 2 ^ 63) `mod` 2 ^ 64 - 2 ^ 63.

(** [x++] *)
Definition incr (x : Z) : Z := wrapInt (x + 1).

(** [m[k]] for a [map[K]int] *)
Definition getInt `{Countable K} (m : gmap K Z) (k : K) : Z := default 0 (m !! k).

(** [m[k]] for a [map[K]string] *)
Definition getStr `{Countable K} (m : gmap K string) (k : K) : string :=
  default EmptyString (m !! k).

(** [float64(a) / float64(b)] *)
Definition ratio (a b : Z) : Qc := (Q2Qc (inject_Z a) / Q2Qc (inject_Z b))%Qc.

(** ** The host: files, external programs and the clock *)

Record FileInfo : Type := { IsDir : bool; ModTime : time.Time }.

Record DirEntry : Type := { entryName : string; entryInfo : FileInfo }.

(** Every call [main.go] makes to the operating system, as a function of
    its argument.  [Open] gives the bytes of the file a successful
    [os.Open] reads; [Now path i] is the reading of [time.Now()] taken
    while line [i] of the file at [path] is turned into an entry;
    [Output cmd] is the output of [sh -c cmd] when it exits successfully.
    [Join] and [Base] are [filepath.Join] and [filepath.Base], which
    depend on the host's path syntax. *)
Record Host : Type := {
  UserHomeDir : option string;
  Join : string → string → string;
  Base : string → string;
  Open : string → option string;
  Now : string → nat → time.Time;
  Stat : string → option FileInfo;
  ReadFile : string → option string;
  ReadDir : string → option (list DirEntry);
  Output : string → option string;
  LookPath : string → bool;
}.

(** ** Basic data structures *)

Record CommandEntry : Type := {
  Command : string;
  Timestamp : time.Time;
  Count : Z;
  Categories : list string;
}.

Record TechProfile : Type := {
  PrimaryRole : string;
  SecondarySkills : list string;
  TechStack : list string;
  Proficiency : gmap string Qc;
}.

Record WorkPatterns : Type := {
  PeakHours : list Z;
  CommonWorkflows : list string;
  Productivity : gmap string Qc;
}.

Record ToolUsage : Type := {
  Editors : gmap string Z;
  Languages : gmap string Z;
  BuildTools : gmap string Z;
}.

(** The fields [WorkPatterns] and [ToolUsage] of the Go struct are named
    [Patterns] and [Tools] here: a field cannot share its type's name. *)
Record DetailedInsights : Type := {
  TechnicalProfile : TechProfile;
  Patterns : WorkPatterns;
  Tools : ToolUsage;
}.

Record ConfigInfo : Type := {
  Path : string;
  Modified : time.Time;
  Content : string;
}.

Record PluginInfo : Type := {
  Name : string;
  Source : string;
  LastUpdated : time.Time;
}.

Record ShellConfig : Type := {
  ConfigFiles : gmap string ConfigInfo;
  Plugins : list PluginInfo;
  Aliases : gmap string string;
  Environment : gmap string string;
}.

Record ShellData : Type := {
  Histories : gmap string (list CommandEntry);
  CommonCmds : gmap string Z;
  TimePatterns : gmap string Z;
  Insights : DetailedInsights;
  ShellConfigs : gmap string ShellConfig;
}.

Definition initShellData : ShellData :=
  {| Histories := ∅;
     CommonCmds := ∅;
     TimePatterns := ∅;
     Insights :=
       {| TechnicalProfile :=
            {| PrimaryRole := EmptyString; SecondarySkills := [];
               TechStack := []; Proficiency := ∅ |};
          Patterns :=
            {| PeakHours := []; CommonWorkflows := []; Productivity := ∅ |};
          Tools := {| Editors := ∅; Languages := ∅; BuildTools := ∅ |} |};
     ShellConfigs := ∅ |}.

(** Assignments to single fields, as Go writes them through a pointer. *)

Definition setPrimaryRole (role : string) (p : TechProfile) : TechProfile :=
  {| PrimaryRole := role; SecondarySkills := SecondarySkills p;
     TechStack := TechStack p; Proficiency := Proficiency p |}.

Definition setTechStack (stack : list string) (p : TechProfile) : TechProfile :=
  {| PrimaryRole := PrimaryRole p; SecondarySkills := SecondarySkills p;
     TechStack := stack; Proficiency := Proficiency p |}.

Definition setProficiency (prof : gmap string Qc) (p : TechProfile) : TechProfile :=
  {| PrimaryRole := PrimaryRole p; SecondarySkills := SecondarySkills p;
     TechStack := TechStack p; Proficiency := prof |}.

Definition setPeakHours (hours : list Z) (w : WorkPatterns) : WorkPatterns :=
  {| PeakHours := hours; CommonWorkflows := CommonWorkflows w;
     Productivity := Productivity w |}.

Definition setProductivity (metrics : gmap string Qc) (w : WorkPatterns) : WorkPatterns :=
  {| PeakHours := PeakHours w; CommonWorkflows := CommonWorkflows w;
     Productivity := metrics |}.

Definition setInsights (i : DetailedInsights) (data : ShellData) : ShellData :=
  {| Histories := Histories data; CommonCmds := CommonCmds data;
     TimePatterns := TimePatterns data; Insights := i;
     ShellConfigs := ShellConfigs data |}.

Definition setHistory (shell : string) (history : list CommandEntry)
    (data : ShellData) : ShellData :=
  {| Histories := <[shell := history]> (Histories data);
     CommonCmds := CommonCmds data; TimePatterns := TimePatterns data;
     Insights := Insights data; ShellConfigs := ShellConfigs data |}.

Definition setShellConfig (shell : string) (config : ShellConfig)
    (data : ShellData) : ShellData :=
  {| Histories := Histories data; CommonCmds := CommonCmds data;
     TimePatterns := TimePatterns data; Insights := Insights data;
     ShellConfigs := <[shell := config]> (ShellConfigs data) |}.

Definition setAlias (name value : string) (config : ShellConfig) : ShellConfig :=
  {| ConfigFiles := ConfigFiles config; Plugins := Plugins config;
     Aliases := <[name := value]> (Aliases config);
     Environment := Environment config |}.

Definition setEnvironment (name value : string) (config : ShellConfig) : ShellConfig :=
  {| ConfigFiles := ConfigFiles config; Plugins := Plugins config;
     Aliases := Aliases config;
     Environment := <[name := value]> (Environment config) |}.

Definition setConfigFile (path : string) (info : ConfigInfo) (config : ShellConfig)
  : ShellConfig :=
  {| ConfigFiles := <[path := info]> (ConfigFiles config);
     Plugins := Plugins config; Aliases := Aliases config;
     Environment := Environment config |}.

Definition addPlugin (plugin : PluginInfo) (config : ShellConfig) : ShellConfig :=
  {| ConfigFiles := ConfigFiles config; Plugins := Plugins config ++ [plugin];
     Aliases := Aliases config; Environment := Environment config |}.

(** ** The history reader and the command classifier *)

Section Pipeline.

Context `{rt : GoRuntime}.

Definition cleanHistoryLine (line : string) : string :=
  let parts := strings.Fields line in
  if bool_decide (0 < length parts)%nat
  then default EmptyString (parts !! (length parts - 1)%nat)
  else EmptyString.

Definition categoryPatterns : gmap string (list string) :=
  list_to_map
    [ ("development", ["git"; "docker"; "npm"; "go"; "python"]);
      ("system", ["sudo"; "systemctl"; "ps"; "top"]);
      ("file", ["ls"; "cd"; "cp"; "mv"; "rm"]) ].

(** The inner loop appends the category at the first pattern that is a
    prefix of [cmd], and breaks. *)
Definition categorizeCommand (cmd : string) : list string :=
  foldl
    (λ categories '(category, patterns),
       if existsb (strings.HasPrefix cmd) patterns
       then categories ++ [category] else categories)
    [] (mapRange categoryPatterns).

Inductive error : Type := ErrOpen | ErrTooLong.

(** The body of [readHistory]'s scan loop, on the lines scanned from line
    [i] on. *)
Fixpoint readLines (h : Host) (path : string) (i : nat) (lines : list string)
  : list CommandEntry :=
  match lines with
  | [] => []
  | line :: rest =>
      let cmd := cleanHistoryLine line in
      if String.eqb cmd EmptyString then readLines h path (S i) rest
      else {| Command := cmd; Timestamp := Now h path i; Count := 0;
              Categories := categorizeCommand cmd |}
           :: readLines h path (S i) rest
  end.

Definition readHistory (h : Host) (path : string)
  : list CommandEntry * option error :=
  match Open h path with
  | None => ([], Some ErrOpen)
  | Some data =>
      (readLines h path O (bufio.Scan data),
       if bufio.Err data then Some ErrTooLong else None)
  end.

(** ** The insight aggregator *)

Definition packageManagers : gmap string string :=
  list_to_map
    [ ("python", "pip"); ("node", "npm"); ("go", "go get");
      ("rust", "cargo"); ("ruby", "gem"); ("php", "composer") ].

Definition getPackageManager (lang : string) : string :=
  getStr packageManagers lang.

Definition patternMap : gmap string regexp.Regexp :=
  let lit := regexp.Lit in
  let alt := regexp.Alt in
  list_to_map
    [ ("git_workflow",
       regexp.Cat (lit "git ")
         (alt (lit "commit") (alt (lit "push") (alt (lit "pull") (lit "merge")))));
      ("build", alt (lit "make") (alt (lit "build") (lit "compile")));
      ("deploy", alt (lit "deploy") (alt (lit "kubectl") (lit "docker")));
      ("test", alt (lit "test") (alt (lit "spec") (lit "pytest"))) ].

Definition analyzeCommandPattern (cmd : string) (patterns : gmap string Z)
  : gmap string Z :=
  foldl
    (λ patterns '(pattern, regex),
       if regexp.MatchString regex cmd
       then <[pattern := incr (getInt patterns pattern)]> patterns
       else patterns)
    patterns (mapRange patternMap).

Definition getMostUsed (usage : gmap string Z) : string * bool :=
  let '(maxKey, maxVal) :=
    foldl
      (λ '(maxKey, maxVal) '(k, v),
         if (maxVal <? v)%Z then (k, v) else (maxKey, maxVal))
      (EmptyString, 0) (mapRange usage) in
  (maxKey, (0 <? maxVal)%Z).

Record hourCount : Type := { hour : Z; count : Z }.

Definition getPeakHours (timeOfDay : gmap Z Z) : list Z :=
  let hours := (λ '(h, c), {| hour := h; count := c |}) <$> mapRange timeOfDay in
  let hours := sortSlice (λ a b, (count b <? count a)%Z) hours in
  hour <$> take 3 hours.

Definition calculateProductivityMetrics (entries : list CommandEntry)
    (patterns : gmap string Z) : gmap string Qc :=
  let metrics : gmap string Qc := ∅ in
  let totalCommands := Z.of_nat (length entries) in
  if (totalCommands =? 0)%Z then metrics
  else
    let uniqueCommands : gmap string bool :=
      foldl (λ unique entry, <[Command entry := true]> unique) ∅ entries in
    let metrics :=
      <["Command Variety" := ratio (Z.of_nat (size uniqueCommands)) totalCommands]>
        metrics in
    let workflowScore :=
      ratio
        (wrapInt (getInt patterns "git_workflow" + getInt patterns "build"
                  + getInt patterns "deploy" + getInt patterns "test"))
        totalCommands in
    <["Workflow Complexity" := workflowScore]> metrics.

Definition checkToolInstalled (h : Host) (tool : string) : bool := LookPath h tool.

(** The catalog of [getInstalledLanguages]: tool name and probe command. *)
Definition languages : gmap string string :=
  list_to_map
    [ ("python", "python --version"); ("python3", "python3 --version");
      ("node", "node --version"); ("go", "go version");
      ("java", "java -version"); ("ruby", "ruby --version");
      ("php", "php --version"); ("rust", "rustc --version");
      ("perl", "perl --version"); ("scala", "scala -version");
      ("kotlin", "kotlin -version"); ("swift", "swift --version");
      ("r", "R --version"); ("julia", "julia --version");
      ("haskell", "ghc --version"); ("elixir", "elixir --version");
      ("erlang", "erl -version"); ("clang", "clang --version");
      ("gcc", "gcc --version"); ("dotnet", "dotnet --version");
      ("lua", "lua -v"); ("ocaml", "ocaml -version");
      ("dart", "dart --version"); ("zig", "zig version");
      ("nim", "nim --version");
      ("maven", "mvn --version"); ("gradle", "gradle --version");
      ("npm", "npm --version"); ("yarn", "yarn --version");
      ("pnpm", "pnpm --version"); ("pip", "pip --version");
      ("cargo", "cargo --version"); ("composer", "composer --version");
      ("bundler", "bundle --version");
      ("docker", "docker --version"); ("kubectl", "kubectl version --client");
      ("terraform", "terraform version"); ("ansible", "ansible --version");
      ("vagrant", "vagrant --version"); ("helm", "helm version");
      ("aws", "aws --version"); ("gcloud", "gcloud --version");
      ("azure", "az --version");
      ("git", "git --version"); ("svn", "svn --version");
      ("mercurial", "hg --version");
      ("mysql", "mysql --version"); ("psql", "psql --version");
      ("mongodb", "mongod --version"); ("redis", "redis-cli --version");
      ("nginx", "nginx -v"); ("apache2", "apache2 -v");
      ("curl", "curl --version"); ("wget", "wget --version");
      ("vim", "vim --version"); ("nvim", "nvim --version");
      ("emacs", "emacs --version"); ("code", "code --version");
      ("zsh", "zsh --version"); ("bash", "bash --version");
      ("fish", "fish --version"); ("tmux", "tmux -V") ].

Record usageEntry : Type := { name : string; usageCount : Z }.

(** The tools whose probe succeeds. *)
Definition probeInstalled (h : Host) : gmap string string :=
  foldl
    (λ installed '(lang, cmd),
       match Output h cmd with
       | Some out => <[lang := out]> installed
       | None => installed
       end)
    ∅ (mapRange languages).

Definition getInstalledLanguages (h : Host) : gmap string string :=
  let installed := probeInstalled h in
  let usageList :=
    (λ '(name, _), {| name := name; usageCount := 0 |}) <$> mapRange installed in
  let usageList := sortSlice (λ a b, (usageCount b <? usageCount a)%Z) usageList in
  foldl
    (λ result e, <[name e := getStr installed (name e)]> result)
    ∅ (take 10 usageList).

(** The four maps [analyzeCommands] fills while it walks the entries. *)
Record usageCounters : Type := {
  langUsage : gmap string Z;
  toolUsage : gmap string Z;
  timeOfDay : gmap Z Z;
  commandPatterns : gmap string Z;
}.

Definition tools : list string :=
  ["git"; "docker"; "kubectl"; "terraform"; "ansible"; "make"].

(** Language usage analysis, for one command. *)
Definition countLanguages (installedLangs : gmap string string) (cmd : string)
    (usage : gmap string Z) : gmap string Z :=
  foldl
    (λ usage '(lang, _),
       if strings.Contains cmd lang
          || strings.Contains cmd (getPackageManager lang)
       then <[lang := incr (getInt usage lang)]> usage else usage)
    usage (mapRange installedLangs).

(** Development tool analysis, for one command. *)
Definition countTools (h : Host) (cmd : string) (usage : gmap string Z)
  : gmap string Z :=
  foldl
    (λ usage tool,
       if strings.HasPrefix cmd tool && checkToolInstalled h tool
       then <[tool := incr (getInt usage tool)]> usage else usage)
    usage tools.

(** The body of the loop over the entries. *)
Definition analyzeEntry (h : Host) (installedLangs : gmap string string)
    (c : usageCounters) (entry : CommandEntry) : usageCounters :=
  let cmd := Command entry in
  let hour := time.Hour (Timestamp entry) in
  {| timeOfDay := <[hour := incr (getInt (timeOfDay c) hour)]> (timeOfDay c);
     langUsage := countLanguages installedLangs cmd (langUsage c);
     toolUsage := countTools h cmd (toolUsage c);
     commandPatterns := analyzeCommandPattern cmd (commandPatterns c) |}.

Definition countUsage (h : Host) (installedLangs : gmap string string)
    (entries : list CommandEntry) : usageCounters :=
  foldl (analyzeEntry h installedLangs)
    {| langUsage := ∅; toolUsage := ∅; timeOfDay := ∅; commandPatterns := ∅ |}
    entries.

(** [for k, count := range usage { proficiency[k] = count / total }] *)
Definition recordProficiency (totalCommands : Z) (usage : gmap string Z)
    (proficiency : gmap string Qc) : gmap string Qc :=
  foldl
    (λ proficiency '(k, count), <[k := ratio count totalCommands]> proficiency)
    proficiency (mapRange usage).

Definition analyzeCommands (h : Host) (entries : list CommandEntry)
    (data : ShellData) : ShellData :=
  let installedLangs := getInstalledLanguages h in
  let c := countUsage h installedLangs entries in
  let techProfile := TechnicalProfile (Insights data) in
  let techProfile :=
    match getMostUsed (langUsage c) with
    | (primaryLang, true) =>
        setPrimaryRole (strings.Title primaryLang +:+ " Developer") techProfile
    | (_, false) => techProfile
    end in
  let techProfile :=
    setTechStack
      (foldl
         (λ stack '(lang, _),
            if (0 <? getInt (langUsage c) lang)%Z then stack ++ [lang] else stack)
         [] (mapRange installedLangs))
      techProfile in
  let totalCommands := Z.of_nat (length entries) in
  let techProfile :=
    if (0 <? totalCommands)%Z
    then setProficiency
           (recordProficiency totalCommands (toolUsage c)
              (recordProficiency totalCommands (langUsage c)
                 (Proficiency techProfile)))
           techProfile
    else techProfile in
  let patterns := Patterns (Insights data) in
  let patterns := setPeakHours (getPeakHours (timeOfDay c)) patterns in
  let patterns :=
    setProductivity (calculateProductivityMetrics entries (commandPatterns c))
      patterns in
  setInsights
    {| TechnicalProfile := techProfile; Patterns := patterns;
       Tools := Tools (Insights data) |}
    data.

(** ** The configuration parser and the plugin detector *)

Definition expandPath (h : Host) (path : string) : string :=
  if strings.HasPrefix path "~/"
  then match UserHomeDir h with
       | None => path
       | Some home => Join h home (strings.drop 2 path)
       end
  else path.

(** The cutset given to [strings.Trim]: the single and the double quote. *)
Definition quotes : string := strings.bytes [39; 34]%N.

(** The body of [parseShellConfig]'s scan loop. *)
Definition parseConfigLine (config : ShellConfig) (line : string) : ShellConfig :=
  let config :=
    if strings.HasPrefix line "alias "
    then match strings.SplitN (strings.TrimPrefix line "alias ") "=" 2 with
         | [part0; part1] =>
             let name := strings.TrimSpace part0 in
             let value := strings.Trim (strings.TrimSpace part1) quotes in
             setAlias name value config
         | _ => config
         end
    else config in
  if strings.HasPrefix line "export "
  then match strings.SplitN (strings.TrimPrefix line "export ") "=" 2 with
       | [part0; part1] =>
           let name := strings.TrimSpace part0 in
           let value := strings.Trim (strings.TrimSpace part1) quotes in
           setEnvironment name value config
       | _ => config
       end
  else config.

Definition parseShellConfig (content : string) (config : ShellConfig) : ShellConfig :=
  foldl parseConfigLine config (bufio.Scan content).

(** The loop shared by [detectZshPlugins] and [detectBashPlugins]: one
    plugin per listed path that is a directory. *)
Definition detectDirectories (h : Host) (paths : list string) (config : ShellConfig)
  : ShellConfig :=
  foldl
    (λ config manager,
       let path := expandPath h manager in
       match Stat h path with
       | Some info =>
           if IsDir info
           then addPlugin {| Name := Base h manager; Source := path;
                             LastUpdated := ModTime info |} config
           else config
       | None => config
       end)
    config paths.

Definition detectZshPlugins (h : Host) (config : ShellConfig) : ShellConfig :=
  detectDirectories h ["~/.oh-my-zsh"; "~/.antigen"; "~/.zinit"; "~/.zplug"] config.

Definition detectFishPlugins (h : Host) (config : ShellConfig) : ShellConfig :=
  let fishPluginPath := expandPath h "~/.config/fish/conf.d" in
  match ReadDir h fishPluginPath with
  | Some files =>
      foldl
        (λ config file,
           if strings.HasSuffix (entryName file) ".fish"
           then addPlugin
                  {| Name := strings.TrimSuffix (entryName file) ".fish";
                     Source := Join h fishPluginPath (entryName file);
                     LastUpdated := ModTime (entryInfo file) |} config
           else config)
        config files
  | None => config
  end.

Definition detectBashPlugins (h : Host) (config : ShellConfig) : ShellConfig :=
  detectDirectories h ["~/.bash_it"; "~/.local/share/bash-completion"] config.

Definition detectPlugins (h : Host) (shell : string) (config : ShellConfig)
  : ShellConfig :=
  if String.eqb shell "zsh" then detectZshPlugins h config
  else if String.eqb shell "fish" then detectFishPlugins h config
  else if String.eqb shell "bash" then detectBashPlugins h config
  else config.

Definition configPaths : gmap string (list string) :=
  list_to_map
    [ ("bash", ["~/.bashrc"; "~/.bash_profile"; "~/.bash_aliases"]);
      ("zsh", ["~/.zshrc"; "~/.zsh_plugins"; "~/.zprofile"]);
      ("fish", ["~/.config/fish/config.fish"; "~/.config/fish/functions";
                "~/.config/fish/conf.d"]) ].

Definition analyzeShellConfigs (h : Host) (shell : string) : ShellConfig :=
  let config :=
    {| ConfigFiles := ∅; Aliases := ∅; Environment := ∅; Plugins := [] |} in
  let config :=
    foldl
      (λ config paths,
         let expandedPath := expandPath h paths in
         match Stat h expandedPath with
         | Some info =>
             let content := default EmptyString (ReadFile h expandedPath) in
             parseShellConfig content
               (setConfigFile paths
                  {| Path := expandedPath; Modified := ModTime info;
                     Content := content |}
                  config)
         | None => config
         end)
      config (default [] (configPaths !! shell)) in
  detectPlugins h shell config.

(** ** Shell analysis *)

Definition shellPaths : gmap string string :=
  list_to_map
    [ ("bash", "~/.bash_history"); ("zsh", "~/.zsh_history");
      ("fish", "~/.local/share/fish/fish_history") ].

(** The body of [analyzeShells]'s loop over the shells. *)
Definition analyzeShell (h : Host) (data : ShellData) (entry : string * string)
  : ShellData :=
  let '(shell, path) := entry in
  let expandedPath := expandPath h path in
  match readHistory h expandedPath with
  | (history, None) =>
      let data := setHistory shell history data in
      let data := analyzeCommands h history data in
      setShellConfig shell (analyzeShellConfigs h shell) data
  | (_, Some _) => data
  end.

Definition analyzeShells (h : Host) : ShellData :=
  foldl (analyzeShell h) initShellData (mapRange shellPaths).

End Pipeline.

(** * Properties *)

(** ** Run-times that keep the contracts *)

Section InsertionSort.

Context {A : Type} (less : A → A → bool).

Lemma insertLeft_perm (x : A) (l : list A) : insertLeft less x l ≡ₚ x :: l.
Proof.
  induction l as [|y l IH]; simpl; [done|].
  destruct (less x y); [|done].
  rewrite IH. apply Permutation_swap.
Qed.

Lemma insertionSortLessFunc_perm (l : list A) : insertionSortLessFunc less l ≡ₚ l.
Proof.
  unfold insertionSortLessFunc. rewrite reverse_Permutation.
  assert (∀ acc, foldl (λ s x, insertLeft less x s) acc l ≡ₚ l ++ acc) as Hacc.
  { induction l as [|x l IH]; intros acc; simpl; [done|].
    rewrite IH, insertLeft_perm. by rewrite Permutation_middle. }
  rewrite Hacc. by rewrite app_nil_r.
Qed.

Context (Hless : StrictWeakOrder less).

Lemma insertLeft_sorted (x : A) (l : list A) :
  StronglySorted (λ a b, less a b = false) l →
  StronglySorted (λ a b, less a b = false) (insertLeft less x l).
Proof.
  induction 1 as [|y l Hsorted IH Hy]; simpl.
  - repeat constructor.
  - destruct (less x y) eqn:Hxy.
    + constructor; [done|].
      rewrite insertLeft_perm. constructor; [|done].
      by apply (less_asym less Hless).
    + constructor; [by constructor|].
      constructor; [done|].
      eapply Forall_impl; [exact Hy|]. simpl. intros z Hz.
      by apply (less_negtrans less Hless x y z).
Qed.

Lemma StronglySorted_reverse_flip (R : A → A → Prop) (l : list A) :
  StronglySorted (λ a b, R b a) l → StronglySorted R (reverse l).
Proof.
  induction 1 as [|x l Hsorted IH Hx]; [constructor|].
  rewrite reverse_cons. apply StronglySorted_app. split_and!.
  - intros a b Ha Hb. apply list_elem_of_singleton in Hb as ->.
    rewrite elem_of_reverse in Ha.
    rewrite Forall_forall in Hx. by apply Hx.
  - done.
  - repeat constructor.
Qed.

Lemma insertionSortLessFunc_sorted (l : list A) :
  StronglySorted (λ x y, less y x = false) (insertionSortLessFunc less l).
Proof.
  unfold insertionSortLessFunc. apply StronglySorted_reverse_flip.
  assert (∀ acc, StronglySorted (λ a b, less a b = false) acc →
     StronglySorted (λ a b, less a b = false)
       (foldl (λ s x, insertLeft less x s) acc l)) as Hacc.
  { induction l as [|x l IH]; intros acc Hs; simpl; [done|].
    by apply IH, insertLeft_sorted. }
  apply Hacc. constructor.
Qed.

End InsertionSort.

(** A run-time that visits a map in the order of [map_to_list] and sorts
    by insertion, as [sort.Slice] does for a slice of at most 12 elements. *)
Definition insertionRuntime : GoRuntime :=
  {| mapRange K _ _ V m := map_to_list m;
     mapRange_perm K _ _ V m := reflexivity (map_to_list m);
     sortSlice A less l := insertionSortLessFunc less l;
     sortSlice_perm A less l := insertionSortLessFunc_perm less l;
     sortSlice_sorted A less l H := insertionSortLessFunc_sorted less H l |}.

(** The same, with every map visited in the opposite order. *)
Definition reverseRuntime : GoRuntime :=
  {| mapRange K _ _ V m := reverse (map_to_list m);
     mapRange_perm K _ _ V m := reverse_Permutation (map_to_list m);
     sortSlice A less l := insertionSortLessFunc less l;
     sortSlice_perm A less l := insertionSortLessFunc_perm less l;
     sortSlice_sorted A less l H := insertionSortLessFunc_sorted less H l |}.

(** ** Loops over a map, whatever the order of the visit *)

Section MapLoops.

Context `{rt : GoRuntime}.

Lemma mapRange_NoDup_fst `{Countable K} {V : Type} (m : gmap K V) :
  NoDup (mapRange m).*1.
Proof. rewrite (mapRange_perm m). apply NoDup_fst_map_to_list. Qed.

Lemma elem_of_mapRange `{Countable K} {V : Type} (m : gmap K V) (k : K) (v : V) :
  (k, v) ∈ mapRange m ↔ m !! k = Some v.
Proof. rewrite (mapRange_perm m). apply elem_of_map_to_list. Qed.

Lemma list_to_map_mapRange `{Countable K} {V : Type} (m : gmap K V) :
  list_to_map (mapRange m) = m.
Proof.
  rewrite <- (list_to_map_to_list m) at 2.
  apply list_to_map_proper; [apply mapRange_NoDup_fst|apply mapRange_perm].
Qed.

End MapLoops.

(** A loop that increments the counter of every entry that passes a test:
    the counter of [k] after the loop. *)
Lemma foldl_incr_list `{Countable K} {V : Type} (cond : K → V → bool)
    (l : list (K * V)) (m : gmap K Z) (k : K) :
  NoDup l.*1 →
  foldl (λ m '(k, v), if cond k v then <[k := incr (getInt m k)]> m else m) m l !! k
  = match (list_to_map l : gmap K V) !! k with
    | Some v => if cond k v then Some (incr (getInt m k)) else m !! k
    | None => m !! k
    end.
Proof.
  revert m. induction l as [|[k0 v0] l IH]; intros m Hnd; [done|].
  rewrite fmap_cons, NoDup_cons in Hnd. destruct Hnd as [Hk0 Hnd].
  cbn [foldl]. rewrite IH by done.
  cbn [list_to_map foldr uncurry fst snd] in *.
  destruct (decide (k = k0)) as [->|Hne].
  - rewrite (not_elem_of_list_to_map_1 _ _ Hk0), lookup_insert_eq.
    destruct (cond k0 v0); [by rewrite lookup_insert_eq|done].
  - rewrite lookup_insert_ne by done.
    assert (getInt (if cond k0 v0 then <[k0:=incr (getInt m k0)]> m else m) k
            = getInt m k) as ->.
    { unfold getInt. destruct (cond k0 v0); [by rewrite lookup_insert_ne|done]. }
    assert ((if cond k0 v0 then <[k0:=incr (getInt m k0)]> m else m) !! k
            = m !! k) as ->.
    { destruct (cond k0 v0); [by rewrite lookup_insert_ne|done]. }
    done.
Qed.

Lemma foldl_incr_mapRange `{rt : GoRuntime} `{Countable K} {V : Type}
    (cond : K → V → bool) (M : gmap K V) (m : gmap K Z) (k : K) :
  foldl (λ m '(k, v), if cond k v then <[k := incr (getInt m k)]> m else m)
    m (mapRange M) !! k
  = match M !! k with
    | Some v => if cond k v then Some (incr (getInt m k)) else m !! k
    | None => m !! k
    end.
Proof.
  rewrite foldl_incr_list by apply mapRange_NoDup_fst.
  by rewrite list_to_map_mapRange.
Qed.

(** A loop that appends the key of every entry that passes a test. *)
Lemma elem_of_foldl_append {K V : Type} (cond : K → V → bool)
    (l : list (K * V)) (acc : list K) (x : K) :
  x ∈ foldl (λ acc '(k, v), if cond k v then acc ++ [k] else acc) acc l
  ↔ x ∈ acc ∨ ∃ v, (x, v) ∈ l ∧ cond x v = true.
Proof.
  revert acc. induction l as [|[k0 v0] l IH]; intros acc; cbn [foldl].
  - split; [by left|]. intros [?|(v & Hv & _)]; [done|]. by apply elem_of_nil in Hv.
  - rewrite IH. destruct (cond k0 v0) eqn:Hc.
    + rewrite elem_of_app, list_elem_of_singleton. split.
      * intros [[?| ->]|(v & Hv & ?)]; [by left|right..].
        -- exists v0. split; [left|done].
        -- exists v. split; [by right|done].
      * intros [?|(v & Hv & ?)]; [by left; left|].
        apply elem_of_cons in Hv as [[= -> ->]|Hv]; [by left; right|].
        right. by exists v.
    + split.
      * intros [?|(v & Hv & ?)]; [by left|right]. exists v. split; [by right|done].
      * intros [?|(v & Hv & ?)]; [by left|].
        apply elem_of_cons in Hv as [[= -> ->]|Hv]; [congruence|].
        right. by exists v.
Qed.

(** ** The command classifier *)

Section Classifier.

Context `{rt : GoRuntime}.

(** A command gets the categories one of whose patterns it starts with. *)
Lemma elem_of_categorizeCommand (cmd category : string) :
  category ∈ categorizeCommand cmd
  ↔ ∃ patterns, categoryPatterns !! category = Some patterns
                ∧ existsb (strings.HasPrefix cmd) patterns = true.
Proof.
  unfold categorizeCommand.
  rewrite (elem_of_foldl_append (λ _ patterns, existsb (strings.HasPrefix cmd) patterns)).
  setoid_rewrite elem_of_mapRange. split.
  - intros [Hnil|?]; [by apply elem_of_nil in Hnil|done].
  - by right.
Qed.

Lemma categoryPatterns_keys (category : string) (patterns : list string) :
  categoryPatterns !! category = Some patterns →
  (category, patterns) ∈ map_to_list categoryPatterns.
Proof. apply elem_of_map_to_list. Qed.

Lemma analyzeCommandPattern_lookup (cmd : string) (patterns : gmap string Z)
    (pattern : string) :
  analyzeCommandPattern cmd patterns !! pattern
  = match patternMap !! pattern with
    | Some regex =>
        if regexp.MatchString regex cmd
        then Some (incr (getInt patterns pattern)) else patterns !! pattern
    | None => patterns !! pattern
    end.
Proof.
  unfold analyzeCommandPattern.
  apply (foldl_incr_mapRange (λ _ regex, regexp.MatchString regex cmd)).
Qed.

End Classifier.

(** A command whose patterns all belong to one category has exactly that
    category. *)
Lemma categorizeCommand_only `{rt : GoRuntime} (cmd expected : string) :
  forallb (λ '(c, ps), bool_decide
     (existsb (strings.HasPrefix cmd) ps = bool_decide (c = expected)))
    (map_to_list categoryPatterns) = true →
  is_Some (categoryPatterns !! expected) →
  ∀ category, category ∈ categorizeCommand cmd ↔ category = expected.
Proof.
  intros Hall [ps0 Hps0] category. rewrite forallb_forall in Hall.
  rewrite elem_of_categorizeCommand. split.
  - intros (ps & Hps & Hex).
    apply elem_of_map_to_list, list_elem_of_In, Hall in Hps.
    apply bool_decide_eq_true in Hps. rewrite Hps in Hex.
    by apply bool_decide_eq_true in Hex.
  - intros ->. exists ps0. split; [done|].
    apply elem_of_map_to_list, list_elem_of_In, Hall in Hps0.
    apply bool_decide_eq_true in Hps0. rewrite Hps0.
    by apply bool_decide_eq_true.
Qed.

(** C4. Classifying [git commit -m x] yields the category [development]
    (and no other) and counts a match of the workflow pattern
    [git_workflow]; classifying [rm -rf tmp] yields the category [file]
    (and no other).  This holds in whatever order the run-time visits the
    rule tables. *)
Theorem C4_classify_git_commit_and_rm `{rt : GoRuntime} :
  (∀ category,
     category ∈ categorizeCommand "git commit -m x" ↔ category = "development")
  ∧ (∀ patterns,
       analyzeCommandPattern "git commit -m x" patterns !! "git_workflow"
       = Some (incr (getInt patterns "git_workflow")))
  ∧ analyzeCommandPattern "git commit -m x" ∅ !! "git_workflow" = Some 1
  ∧ (∀ category, category ∈ categorizeCommand "rm -rf tmp" ↔ category = "file").
Proof.
  split_and!.
  - apply (categorizeCommand_only "git commit -m x" "development");
      [vm_compute; reflexivity|by eexists].
  - intros patterns. rewrite analyzeCommandPattern_lookup.
    change (patternMap !! "git_workflow") with
      (Some (regexp.Cat (regexp.Lit "git ")
         (regexp.Alt (regexp.Lit "commit") (regexp.Alt (regexp.Lit "push")
            (regexp.Alt (regexp.Lit "pull") (regexp.Lit "merge")))))).
    reflexivity.
  - rewrite analyzeCommandPattern_lookup. reflexivity.
  - apply (categorizeCommand_only "rm -rf tmp" "file");
      [vm_compute; reflexivity|by eexists].
Qed.

(** ** The configuration parser *)

(** What a line defines under [keyword] ([alias ] or [export ]): the name
    and the value [parseShellConfig] stores for it, if the rest of the
    line splits at an equals sign. *)
Definition definitionOf (keyword line : string) : option (string * string) :=
  if strings.HasPrefix line keyword
  then match strings.SplitN (strings.TrimPrefix line keyword) "=" 2 with
       | [part0; part1] =>
           Some (strings.TrimSpace part0,
                 strings.Trim (strings.TrimSpace part1) quotes)
       | _ => None
       end
  else None.

Definition emptyConfig : ShellConfig :=
  {| ConfigFiles := ∅; Aliases := ∅; Environment := ∅; Plugins := [] |}.

Lemma Aliases_parseConfigLine (config : ShellConfig) (line : string) :
  Aliases (parseConfigLine config line)
  = match definitionOf "alias " line with
    | Some (name, value) => <[name := value]> (Aliases config)
    | None => Aliases config
    end.
Proof.
  unfold parseConfigLine, definitionOf.
  destruct (strings.HasPrefix line "export ");
    [destruct (strings.SplitN (strings.TrimPrefix line "export ") "=" 2)
       as [|? [|? [|? ?]]]|];
    cbn [Aliases setEnvironment];
    (destruct (strings.HasPrefix line "alias ");
      [destruct (strings.SplitN (strings.TrimPrefix line "alias ") "=" 2)
         as [|? [|? [|? ?]]]|]); done.
Qed.

Lemma Environment_parseConfigLine (config : ShellConfig) (line : string) :
  Environment (parseConfigLine config line)
  = match definitionOf "export " line with
    | Some (name, value) => <[name := value]> (Environment config)
    | None => Environment config
    end.
Proof.
  unfold parseConfigLine, definitionOf.
  destruct (strings.HasPrefix line "export ");
    [destruct (strings.SplitN (strings.TrimPrefix line "export ") "=" 2)
       as [|? [|? [|? ?]]]|];
    cbn [Environment setEnvironment];
    (destruct (strings.HasPrefix line "alias ");
      [destruct (strings.SplitN (strings.TrimPrefix line "alias ") "=" 2)
         as [|? [|? [|? ?]]]|]); done.
Qed.




Section LastOccurrence.

Context (keyword name value : string).
Context (field : ShellConfig → gmap string string).
Context (Hfield : ∀ config line,
  field (parseConfigLine config line)
  = match definitionOf keyword line with
    | Some (name, value) => <[name := value]> (field config)
    | None => field config
    end).



End LastOccurrence.



(** ** The history reader *)

(** *** Vocabulary: white space and tokens of a line *)

(** A UTF-8 continuation byte. *)
Definition isCont (c : ascii) : bool :=
  (0x80 <=? strings.code c)%N && (strings.code c <? 0xC0)%N.

Fixpoint allCont (s : string) : bool :=
  match s with
  | EmptyString => true
  | String c s' => isCont c && allCont s'
  end.

(** A string made of white-space runes only. *)
Inductive AllSpace : string → Prop :=
  | AllSpace_nil : AllSpace EmptyString
  | AllSpace_cons (e s : string) :
      e ∈ strings.spaceEncodings → AllSpace s → AllSpace (e +:+ s).

(** A string in which no white-space rune occurs. *)
Definition SpaceFree (tok : string) : Prop :=
  ∀ a e b, e ∈ strings.spaceEncodings → tok ≠ a +:+ e +:+ b.

(** [tok] is the last white-space-separated token of [line]: it is not
    empty, holds no white space, only white space follows it, and it
    starts the line or follows a white-space rune. *)
Definition LastToken (line tok : string) : Prop :=
  ∃ before after,
    line = before +:+ tok +:+ after
    ∧ tok ≠ EmptyString ∧ SpaceFree tok ∧ AllSpace after
    ∧ (before = EmptyString
       ∨ ∃ b e, e ∈ strings.spaceEncodings ∧ before = b +:+ e).

(** *** Strings *)

Lemma append_cons (c : ascii) (a b : string) :
  String c a +:+ b = String c (a +:+ b).
Proof. reflexivity. Qed.

Lemma append_nil_l (s : string) : EmptyString +:+ s = s.
Proof. reflexivity. Qed.

Lemma append_assoc (a b c : string) : (a +:+ b) +:+ c = a +:+ (b +:+ c).
Proof.
  induction a as [|x a IH]; [done|]. by rewrite !append_cons, IH.
Qed.

Lemma append_nil_r (s : string) : s +:+ EmptyString = s.
Proof. induction s as [|x s IH]; [done|]. by rewrite append_cons, IH. Qed.

Lemma length_append (a b : string) :
  String.length (a +:+ b) = (String.length a + String.length b)%nat.
Proof.
  induction a as [|x a IH]; [done|]. rewrite append_cons. simpl. by rewrite IH.
Qed.

Lemma HasPrefix_append (e b : string) : strings.HasPrefix (e +:+ b) e = true.
Proof.
  induction e as [|x e IH]; [done|]. rewrite append_cons. simpl.
  by rewrite Ascii.eqb_refl.
Qed.

Lemma HasPrefix_inv (s e : string) :
  strings.HasPrefix s e = true → ∃ b, s = e +:+ b.
Proof.
  revert s. induction e as [|x e IH]; intros s Hs; [by exists s|].
  destruct s as [|c s]; [done|]. simpl in Hs.
  destruct (Ascii.eqb c x) eqn:Hc; [|done]. apply Ascii.eqb_eq in Hc as ->.
  destruct (IH _ Hs) as [b ->]. by exists b.
Qed.

(** *** White-space encodings *)

Lemma spaceEncodings_shape (e : string) :
  e ∈ strings.spaceEncodings →
  ∃ c t, e = String c t ∧ isCont c = false ∧ allCont t = true.
Proof.
  intros He.
  assert (forallb (λ e, match e with
                        | EmptyString => false
                        | String c t => negb (isCont c) && allCont t
                        end) strings.spaceEncodings = true) as Hall
    by (by vm_compute).
  rewrite forallb_forall in Hall. apply list_elem_of_In, Hall in He.
  destruct e as [|c t]; [done|]. exists c, t.
  apply andb_true_iff in He as [Hc Ht]. by apply negb_true_iff in Hc.
Qed.

(** What may follow a piece of a line without changing how the piece is
    read: nothing, or a byte that starts a rune. *)
Definition startsRune (p : string) : Prop :=
  match p with
  | EmptyString => True
  | String c _ => isCont c = false
  end.

Lemma startsRune_space (e rest : string) :
  e ∈ strings.spaceEncodings → startsRune (e +:+ rest).
Proof. intros (c & t & -> & Hc & _)%spaceEncodings_shape. exact Hc. Qed.

Lemma AllSpace_startsRune (s : string) : AllSpace s → startsRune s.
Proof. destruct 1; [done|by apply startsRune_space]. Qed.

Lemma HasPrefix_allCont (e s p : string) :
  allCont e = true → startsRune p →
  strings.HasPrefix (s +:+ p) e = strings.HasPrefix s e.
Proof.
  intros He Hp. revert s. induction e as [|d e IH]; intros s; [done|].
  simpl in He. apply andb_true_iff in He as [Hd He].
  destruct s as [|c s]; rewrite ?append_cons, ?append_nil_l; simpl.
  - destruct p as [|c p]; [done|]. simpl in Hp.
    destruct (Ascii.eqb c d) eqn:Hcd; [|done].
    apply Ascii.eqb_eq in Hcd as ->. congruence.
  - destruct (Ascii.eqb c d); [by apply IH|done].
Qed.

Lemma HasPrefix_space_append (e s p : string) :
  e ∈ strings.spaceEncodings → s ≠ EmptyString → startsRune p →
  strings.HasPrefix (s +:+ p) e = strings.HasPrefix s e.
Proof.
  intros (d & t & -> & _ & Ht)%spaceEncodings_shape Hs Hp.
  destruct s as [|c s]; [done|]. rewrite append_cons. simpl.
  destruct (Ascii.eqb c d); [by apply HasPrefix_allCont|done].
Qed.

Lemma find_ext_in {A : Type} (f g : A → bool) (l : list A) :
  (∀ x, x ∈ l → f x = g x) → List.find f l = List.find g l.
Proof.
  induction l as [|x l IH]; intros Hfg; [done|]. simpl.
  rewrite (Hfg x) by left. destruct (g x); [done|].
  apply IH. intros y Hy. apply Hfg. by right.
Qed.

(** The rune that starts a piece of a line does not depend on what
    follows the piece. *)
Lemma spaceWidth_append (s p : string) :
  s ≠ EmptyString → startsRune p →
  strings.spaceWidth (s +:+ p) = strings.spaceWidth s.
Proof.
  intros Hs Hp. unfold strings.spaceWidth.
  rewrite (find_ext_in (strings.HasPrefix (s +:+ p)) (strings.HasPrefix s)); [done|].
  intros e He. by apply HasPrefix_space_append.
Qed.

Lemma spaceWidth_pos (s : string) (k : nat) :
  strings.spaceWidth s = S k →
  ∃ e b, e ∈ strings.spaceEncodings ∧ s = e +:+ b ∧ String.length e = S k.
Proof.
  unfold strings.spaceWidth.
  destruct (List.find _ _) as [e|] eqn:Hfind; [|done]. intros Hlen.
  apply find_some in Hfind as [He Hpre]. apply HasPrefix_inv in Hpre as [b ->].
  exists e, b. by rewrite <- list_elem_of_In in He.
Qed.

Lemma spaceWidth_zero (s e b : string) :
  strings.spaceWidth s = O → e ∈ strings.spaceEncodings → s ≠ e +:+ b.
Proof.
  unfold strings.spaceWidth. intros Hw He ->.
  destruct (List.find _ _) as [e'|] eqn:Hfind.
  - apply find_some in Hfind as [He' _]. rewrite <- list_elem_of_In in He'.
    apply spaceEncodings_shape in He' as (? & ? & -> & _). done.
  - apply list_elem_of_In in He.
    apply (find_none _ _ Hfind) in He. by rewrite HasPrefix_append in He.
Qed.

Lemma spaceWidth_space (e rest : string) :
  e ∈ strings.spaceEncodings →
  strings.spaceWidth (e +:+ rest) = String.length e.
Proof.
  intros He. apply list_elem_of_In in He. vm_compute in He.
  repeat (destruct He as [<-|He]; [reflexivity|]). done.
Qed.

(** *** The loop of [strings.Fields] *)

Lemma fieldsLoop_skip (t rest cur : string) :
  strings.fieldsLoop (t +:+ rest) (String.length t) cur
  = strings.fieldsLoop rest O cur.
Proof.
  induction t as [|c t IH]; [done|]. rewrite append_cons. exact IH.
Qed.

(** A white-space rune ends the field in progress. *)
Lemma fieldsLoop_space (e rest cur : string) :
  e ∈ strings.spaceEncodings →
  strings.fieldsLoop (e +:+ rest) O cur
  = strings.flush cur ++ strings.fieldsLoop rest O EmptyString.
Proof.
  intros He. pose proof (spaceWidth_space e rest He) as Hw.
  destruct (spaceEncodings_shape e He) as (c & t & -> & _).
  rewrite append_cons in *. cbn [strings.fieldsLoop]. rewrite Hw.
  cbn [String.length]. by rewrite fieldsLoop_skip.
Qed.

Lemma fieldsLoop_AllSpace (s cur : string) :
  AllSpace s → strings.fieldsLoop s O cur = strings.flush cur.
Proof.
  intros Hs. revert cur. induction Hs as [|e s He Hs IH]; intros cur; [done|].
  rewrite fieldsLoop_space, IH by done. apply app_nil_r.
Qed.

Lemma SpaceFree_tail (c : ascii) (tok : string) :
  SpaceFree (String c tok) → SpaceFree tok.
Proof. intros Htok a e b He ->. by apply (Htok (String c a) e b He). Qed.

Lemma SpaceFree_spaceWidth (tok : string) :
  SpaceFree tok → strings.spaceWidth tok = O.
Proof.
  intros Htok. destruct (strings.spaceWidth tok) as [|k] eqn:Hw; [done|].
  apply spaceWidth_pos in Hw as (e & b & He & -> & _).
  by destruct (Htok EmptyString e b He).
Qed.

(** The bytes of a token extend the field in progress. *)
Lemma fieldsLoop_SpaceFree (tok after cur : string) :
  SpaceFree tok → startsRune after →
  strings.fieldsLoop (tok +:+ after) O cur
  = strings.fieldsLoop after O (cur +:+ tok).
Proof.
  intros Htok Hafter. revert cur.
  induction tok as [|c tok IH]; intros cur; [by rewrite append_nil_r|].
  change (String c tok +:+ after) with (String c (tok +:+ after)).
  cbn [strings.fieldsLoop].
  change (String c (tok +:+ after)) with (String c tok +:+ after).
  rewrite spaceWidth_append, SpaceFree_spaceWidth by done.
  rewrite IH by by eapply SpaceFree_tail.
  by rewrite append_assoc.
Qed.

(** Reading a piece of a line that is followed by the start of a rune
    leaves fields and a field in progress that depend on the piece only. *)
Lemma fieldsLoop_piece (b : string) (skip : nat) (cur : string) :
  (skip ≤ String.length b)%nat →
  ∃ fs cur', ∀ p, startsRune p →
    strings.fieldsLoop (b +:+ p) skip cur = fs ++ strings.fieldsLoop p O cur'.
Proof.
  revert skip cur. induction b as [|c b IH]; intros skip cur Hskip.
  - exists [], cur. intros p _. by replace skip with O by (simpl in Hskip; lia).
  - destruct skip as [|k].
    + destruct (strings.spaceWidth (String c b)) as [|k] eqn:Hw.
      * destruct (IH O (cur +:+ String c EmptyString)) as (fs & cur' & Hfs);
          [lia|].
        exists fs, cur'. intros p Hp.
        change (String c b +:+ p) with (String c (b +:+ p)).
        cbn [strings.fieldsLoop].
        change (String c (b +:+ p)) with (String c b +:+ p).
        rewrite spaceWidth_append, Hw by done. by apply Hfs.
      * destruct (spaceWidth_pos _ _ Hw) as (e & b' & He & Heq & Hlen).
        assert (k ≤ String.length b)%nat as Hk.
        { apply (f_equal String.length) in Heq.
          rewrite length_append in Heq. simpl in Heq. lia. }
        destruct (IH k EmptyString Hk) as (fs & cur' & Hfs).
        exists (strings.flush cur ++ fs), cur'. intros p Hp.
        change (String c b +:+ p) with (String c (b +:+ p)).
        cbn [strings.fieldsLoop].
        change (String c (b +:+ p)) with (String c b +:+ p).
        rewrite spaceWidth_append, Hw by done.
        rewrite Hfs by done. by rewrite app_assoc.
    + destruct (IH k cur) as (fs & cur' & Hfs); [simpl in Hskip; lia|].
      exists fs, cur'. intros p Hp. by apply Hfs.
Qed.

(** The fields of a line end with its last token. *)
Lemma Fields_LastToken (line tok : string) :
  LastToken line tok → ∃ fs, strings.Fields line = fs ++ [tok].
Proof.
  intros (before & after & -> & Htok & Hfree & Hafter & Hbefore).
  assert (∀ cur, cur = EmptyString →
    strings.fieldsLoop (tok +:+ after) O cur = [tok]) as Htail.
  { intros cur ->.
    rewrite fieldsLoop_SpaceFree by (by try apply AllSpace_startsRune).
    rewrite fieldsLoop_AllSpace by done. by destruct tok. }
  unfold strings.Fields. destruct Hbefore as [->|(b & e & He & ->)].
  - exists []. by apply Htail.
  - destruct (fieldsLoop_piece b O EmptyString) as (fs & cur' & Hfs); [lia|].
    exists (fs ++ strings.flush cur').
    rewrite !append_assoc, Hfs by by apply startsRune_space.
    rewrite fieldsLoop_space by done. rewrite Htail by done.
    by rewrite app_assoc.
Qed.

Lemma Fields_AllSpace (line : string) : AllSpace line → strings.Fields line = [].
Proof. intros Hline. unfold strings.Fields. by rewrite fieldsLoop_AllSpace. Qed.

(** A byte that starts no white-space rune is a token by itself. *)
Lemma SpaceFree_byte (c : ascii) (rest : string) :
  strings.spaceWidth (String c rest) = O → SpaceFree (String c EmptyString).
Proof.
  intros Hw a e b He Heq.
  destruct (spaceEncodings_shape _ He) as (d & t & -> & _).
  destruct a as [|x a].
  - rewrite append_nil_l, append_cons in Heq. injection Heq as -> Ht.
    destruct t; [|done].
    apply (spaceWidth_zero _ (String d EmptyString) rest Hw He).
    by rewrite append_cons, append_nil_l.
  - rewrite !append_cons in Heq. injection Heq as _ Heq. by destruct a.
Qed.

(** Such a byte put before a token gives a token. *)
Lemma SpaceFree_cons (c : ascii) (tok after : string) :
  strings.spaceWidth (String c (tok +:+ after)) = O → SpaceFree tok →
  SpaceFree (String c tok).
Proof.
  intros Hw Hfree a e b He Heq. destruct a as [|x a].
  - rewrite append_nil_l in Heq.
    apply (spaceWidth_zero _ e (b +:+ after) Hw He).
    by rewrite <- append_cons, Heq, append_assoc.
  - rewrite append_cons in Heq. injection Heq as _ Heq.
    by apply (Hfree a e b He).
Qed.

(** Every line is white space only or has a last token. *)
Lemma AllSpace_or_LastToken (line : string) :
  AllSpace line ∨ ∃ tok, LastToken line tok.
Proof.
  remember (String.length line) as n eqn:Hn. revert line Hn.
  induction n as [n IH] using lt_wf_ind. intros line ->.
  destruct line as [|c line]; [left; constructor|].
  destruct (strings.spaceWidth (String c line)) as [|k] eqn:Hw.
  - destruct (IH (String.length line) (Nat.lt_succ_diag_r _) line eq_refl)
      as [Hline|(tok & before & after & Heq & Htok & Hfree & Hafter & Hbefore)].
    + right. exists (String c EmptyString), EmptyString, line.
      split_and!; [done|done|by eapply SpaceFree_byte|done|by left].
    + right. subst line. destruct Hbefore as [->|(b & e & He & ->)].
      * exists (String c tok), EmptyString, after.
        rewrite append_nil_l in Hw.
        split_and!; [done|done|by eapply SpaceFree_cons|done|by left].
      * exists tok, (String c b +:+ e), after.
        split_and!; [done|done|done|done|]. right. by exists (String c b), e.
  - destruct (spaceWidth_pos _ _ Hw) as (e & rest & He & Heq & Hlen).
    assert (String.length rest < String.length (String c line))%nat as Hlt.
    { rewrite Heq, length_append. lia. }
    rewrite Heq.
    destruct (IH _ Hlt rest eq_refl)
      as [Hrest|(tok & before & after & -> & Htok & Hfree & Hafter & Hbefore)].
    + left. by constructor.
    + right. exists tok, (e +:+ before), after.
      split_and!; [by rewrite !append_assoc|done|done|done|]. right.
      destruct Hbefore as [->|(b & e' & He' & ->)].
      * exists EmptyString, e. by rewrite append_nil_r.
      * exists (e +:+ b), e'. by rewrite append_assoc.
Qed.

Lemma cleanHistoryLine_last (line tok : string) (fs : list string) :
  strings.Fields line = fs ++ [tok] → cleanHistoryLine line = tok.
Proof.
  intros Hfs. unfold cleanHistoryLine. rewrite Hfs, length_app. simpl.
  rewrite bool_decide_eq_true_2 by lia.
  replace (length fs + 1 - 1)%nat with (length fs + 0)%nat by lia.
  by rewrite lookup_app_r, Nat.add_0_r, Nat.sub_diag by lia.
Qed.

(** C3. Cleaning a line returns its last white-space-separated token,
    and the reader makes one entry of it; a line of white space only
    cleans to the empty string, and the reader makes no entry of it.
    Every line is of one of the two kinds. *)
Theorem C3_cleanHistoryLine_last_token `{rt : GoRuntime}
    (h : Host) (path : string) (i : nat) (line : string) :
  (∀ tok, LastToken line tok →
     cleanHistoryLine line = tok
     ∧ readLines h path i [line]
       = [ {| Command := tok; Timestamp := Now h path i; Count := 0;
              Categories := categorizeCommand tok |} ])
  ∧ (AllSpace line →
       strings.Fields line = []
       ∧ cleanHistoryLine line = EmptyString
       ∧ readLines h path i [line] = [])
  ∧ (∀ fs tok, strings.Fields line = fs ++ [tok] → cleanHistoryLine line = tok)
  ∧ (AllSpace line ∨ ∃ tok, LastToken line tok).
Proof.
  split_and!.
  - intros tok Htok. pose proof Htok as (_ & _ & _ & Hne & _).
    destruct (Fields_LastToken _ _ Htok) as [fs Hfs].
    apply cleanHistoryLine_last in Hfs. split; [done|].
    cbn [readLines]. rewrite Hfs.
    by rewrite (proj2 (String.eqb_neq tok EmptyString) Hne).
  - intros Hline. apply Fields_AllSpace in Hline.
    assert (cleanHistoryLine line = EmptyString) as Hclean
      by (unfold cleanHistoryLine; by rewrite Hline).
    split_and!; [done|done|]. cbn [readLines]. by rewrite Hclean.
  - intros fs tok. apply cleanHistoryLine_last.
  - apply AllSpace_or_LastToken.
Qed.

(** A test for [SpaceFree]: no white-space rune starts at any byte. *)
Fixpoint spaceFreeb (tok : string) : bool :=
  match tok with
  | EmptyString => true
  | String _ tok' => Nat.eqb (strings.spaceWidth tok) O && spaceFreeb tok'
  end.

Lemma spaceFreeb_SpaceFree (tok : string) : spaceFreeb tok = true → SpaceFree tok.
Proof.
  induction tok as [|c tok IH]; intros Hb a e b He Heq.
  - destruct (spaceEncodings_shape _ He) as (d & t & -> & _). by destruct a.
  - cbn [spaceFreeb] in Hb. apply andb_true_iff in Hb as [Hw Hb].
    apply Nat.eqb_eq in Hw. destruct a as [|x a].
    + rewrite append_nil_l in Heq. by apply (spaceWidth_zero _ e b Hw He).
    + rewrite append_cons in Heq. injection Heq as _ Heq.
      by apply (IH Hb a e b He).
Qed.

(** A zsh history line with its time stamp, and a line of blanks. *)
Example C3_clean_examples :
  LastToken ": 1700000000:0;git  status " "status"
  ∧ cleanHistoryLine ": 1700000000:0;git  status " = "status"
  ∧ AllSpace "   "
  ∧ cleanHistoryLine "   " = EmptyString
  ∧ readLines (rt := insertionRuntime)
      {| UserHomeDir := None; Join a b := b; Base p := p; Open p := None;
         Now p i := {| time.unixSec := 0; time.zoneOffset := 0 |};
         Stat p := None; ReadFile p := None; ReadDir p := None;
         Output c := None; LookPath t := false |}
      "history" O ["   "; "ls -la"; ""]
    = [ {| Command := "-la";
           Timestamp := {| time.unixSec := 0; time.zoneOffset := 0 |};
           Count := 0; Categories := [] |} ].
Proof.
  assert (" " ∈ strings.spaceEncodings) as Hsp by (vm_compute; set_solver).
  assert (LastToken ": 1700000000:0;git  status " "status") as Htok.
  { exists ": 1700000000:0;git  ", " ". split_and!; [done|done| | |].
    - by apply spaceFreeb_SpaceFree.
    - apply (AllSpace_cons " " EmptyString Hsp). constructor.
    - right. by exists ": 1700000000:0;git ", " ". }
  assert (AllSpace "   ") as Hblank.
  { apply (AllSpace_cons " " "  " Hsp), (AllSpace_cons " " " " Hsp),
      (AllSpace_cons " " EmptyString Hsp). constructor. }
  pose (h := {| UserHomeDir := None; Join a b := b; Base p := p; Open p := None;
         Now p i := {| time.unixSec := 0; time.zoneOffset := 0 |};
         Stat p := None; ReadFile p := None; ReadDir p := None;
         Output c := None; LookPath t := false |}).
  split_and!; [done| |done| |done].
  - exact (proj1 (proj1 (C3_cleanHistoryLine_last_token (rt := insertionRuntime)
                           h "history" O _) _ Htok)).
  - exact (proj1 (proj2 (proj1 (proj2
             (C3_cleanHistoryLine_last_token (rt := insertionRuntime)
                h "history" O _)) Hblank))).
Defined.

(** ** Primary-role inference *)

(** The loop of [getMostUsed] from a running maximum [(k0, v0)]: the
    result is the running maximum if no entry exceeds it, and otherwise
    the first entry that carries the largest value. *)
Lemma getMostUsed_loop (l : list (string * Z)) (k0 : string) (v0 : Z) :
  ∃ k v,
    foldl (λ '(maxKey, maxVal) '(k, v),
             if (maxVal <? v)%Z then (k, v) else (maxKey, maxVal)) (k0, v0) l
    = (k, v)
    ∧ Forall (λ e, e.2 ≤ v) l
    ∧ ((k = k0 ∧ v = v0)
       ∨ (v0 < v ∧ ∃ l1 l2, l = l1 ++ (k, v) :: l2 ∧ Forall (λ e, e.2 < v) l1)).
Proof.
  revert k0 v0. induction l as [|[k1 v1] l IH]; intros k0 v0; cbn [foldl].
  - exists k0, v0. split_and!; [done|constructor|by left].
  - destruct (Z.ltb_spec v0 v1) as [Hlt|Hge].
    + destruct (IH k1 v1) as (k & v & Hfold & Hall & Hcase).
      exists k, v. split; [done|].
      destruct Hcase as [[-> ->]|(Hv & l1 & l2 & -> & Hl1)].
      * split; [constructor; [simpl; lia|done]|]. right. split; [done|].
        exists [], l. split; [done|constructor].
      * split; [constructor; [simpl; lia|done]|]. right. split; [lia|].
        exists ((k1, v1) :: l1), l2. split; [done|]. by constructor.
    + destruct (IH k0 v0) as (k & v & Hfold & Hall & Hcase).
      exists k, v. split; [done|].
      destruct Hcase as [[-> ->]|(Hv & l1 & l2 & -> & Hl1)].
      * split; [constructor; [simpl; lia|done]|]. by left.
      * split; [constructor; [simpl; lia|done]|]. right. split; [done|].
        exists ((k1, v1) :: l1), l2. split; [done|]. constructor; [simpl; lia|done].
Qed.

Section PrimaryRole.

Context `{rt : GoRuntime}.

(** With a positive count in the map, [getMostUsed] returns a key of
    largest count: the one the visit of the map meets first. *)
Lemma getMostUsed_positive (usage : gmap string Z) (k0 : string) (v0 : Z) :
  usage !! k0 = Some v0 → 0 < v0 →
  ∃ k v l1 l2,
    getMostUsed usage = (k, true)
    ∧ usage !! k = Some v ∧ 0 < v
    ∧ (∀ k' v', usage !! k' = Some v' → v' ≤ v)
    ∧ mapRange usage = l1 ++ (k, v) :: l2
    ∧ Forall (λ e, e.2 < v) l1.
Proof.
  intros Hk0 Hv0. unfold getMostUsed.
  destruct (getMostUsed_loop (mapRange usage) EmptyString 0)
    as (k & v & -> & Hall & Hcase).
  rewrite Forall_forall in Hall.
  assert (∀ k' v', usage !! k' = Some v' → v' ≤ v) as Hmax.
  { intros k' v' Hk'. by apply elem_of_mapRange, Hall in Hk'. }
  destruct Hcase as [[-> ->]|(Hv & l1 & l2 & Heq & Hl1)].
  - apply Hmax in Hk0. lia.
  - exists k, v, l1, l2. split_and!; [|by apply elem_of_mapRange; rewrite Heq; set_solver|done..].
    by rewrite (proj2 (Z.ltb_lt 0 v) Hv).
Qed.

(** With no positive count, it returns no key. *)
Lemma getMostUsed_none (usage : gmap string Z) :
  (∀ k v, usage !! k = Some v → v ≤ 0) → getMostUsed usage = (EmptyString, false).
Proof.
  intros Hnone. unfold getMostUsed.
  destruct (getMostUsed_loop (mapRange usage) EmptyString 0)
    as (k & v & -> & Hall & Hcase).
  destruct Hcase as [[-> ->]|(Hv & l1 & l2 & Heq & Hl1)]; [done|].
  assert (usage !! k = Some v) as Hk
    by (apply elem_of_mapRange; rewrite Heq; set_solver).
  apply Hnone in Hk. lia.
Qed.

(** What [analyzeCommands] does to the primary role. *)
Lemma PrimaryRole_analyzeCommands (h : Host) (entries : list CommandEntry)
    (data : ShellData) :
  PrimaryRole (TechnicalProfile (Insights (analyzeCommands h entries data)))
  = match getMostUsed (langUsage (countUsage h (getInstalledLanguages h) entries)) with
    | (primaryLang, true) => strings.Title primaryLang +:+ " Developer"
    | (_, false) => PrimaryRole (TechnicalProfile (Insights data))
    end.
Proof.
  unfold analyzeCommands.
  destruct (getMostUsed _) as [primaryLang []];
    by destruct (0 <? Z.of_nat (length entries))%Z.
Qed.

End PrimaryRole.

(** A host with [go] and [python] installed, whose bash history holds
    the two commands [go] and [python]. *)
Definition tieHost : Host :=
  {| UserHomeDir := None; Join a b := b; Base p := p;
     Open p := if String.eqb p "~/.bash_history"
               then Some ("go" +:+ String bufio.newline "python") else None;
     Now p i := {| time.unixSec := 0; time.zoneOffset := 0 |};
     Stat p := None; ReadFile p := None; ReadDir p := None;
     Output c := if String.eqb c "go version" then Some "go1.22"
                 else if String.eqb c "python --version" then Some "Python 3"
                 else None;
     LookPath t := false |}.

(** ** Peak hours *)

Lemma byCount_StrictWeakOrder :
  StrictWeakOrder (λ a b : hourCount, (count b <? count a)%Z).
Proof. split; intros; lia. Qed.

Lemma StronglySorted_fmap_in {A B : Type} (R : A → A → Prop) (S : B → B → Prop)
    (f : A → B) (l : list A) :
  (∀ x y, x ∈ l → y ∈ l → R x y → S (f x) (f y)) →
  StronglySorted R l → StronglySorted S (f <$> l).
Proof.
  intros HRS Hl. induction Hl as [|x l Hl IH Hx]; [constructor|].
  rewrite fmap_cons. constructor.
  - apply IH. intros y z Hy Hz. apply HRS; by right.
  - rewrite Forall_fmap. rewrite Forall_forall in Hx |- *.
    intros y Hy. apply HRS; [by left|by right|by apply Hx].
Qed.

Lemma StronglySorted_weaken {A : Type} (R S : A → A → Prop) (l : list A) :
  (∀ x y, R x y → S x y) → StronglySorted R l → StronglySorted S l.
Proof.
  intros HRS Hl. induction Hl as [|x l Hl IH Hx]; constructor; [done|].
  eapply Forall_impl; [exact Hx|]. intros y. apply HRS.
Qed.

Lemma mapRange_empty `{rt : GoRuntime} `{Countable K} {V : Type} :
  mapRange (∅ : gmap K V) = [].
Proof.
  apply Permutation_nil_r. rewrite (mapRange_perm ∅). by rewrite map_to_list_empty.
Qed.

Lemma mapRange_singleton `{rt : GoRuntime} `{Countable K} {V : Type} (k : K) (v : V) :
  mapRange ({[ k := v ]} : gmap K V) = [(k, v)].
Proof.
  apply Permutation_singleton_r.
  rewrite (mapRange_perm {[ k := v ]}). by rewrite map_to_list_singleton.
Qed.

Section PeakHours.

Context `{rt : GoRuntime}.

Context (tod : gmap Z Z).

(** The slice [getPeakHours] sorts, and the sorted slice. *)
Definition buckets : list hourCount :=
  (λ '(h, c), {| hour := h; count := c |}) <$> mapRange tod.

Definition sortedBuckets : list hourCount :=
  sortSlice (λ a b, (count b <? count a)%Z) buckets.

Lemma getPeakHours_sortedBuckets :
  getPeakHours tod = hour <$> take 3 sortedBuckets.
Proof. reflexivity. Qed.

Lemma sortedBuckets_perm : sortedBuckets ≡ₚ buckets.
Proof. apply sortSlice_perm. Qed.

Lemma hour_buckets : hour <$> buckets = (mapRange tod).*1.
Proof.
  unfold buckets. rewrite <- list_fmap_compose. apply list_fmap_ext.
  by intros _ [h c] _.
Qed.

Lemma NoDup_hour_sortedBuckets : NoDup (hour <$> sortedBuckets).
Proof.
  rewrite sortedBuckets_perm, hour_buckets. apply mapRange_NoDup_fst.
Qed.

Lemma elem_of_sortedBuckets (x : hourCount) :
  x ∈ sortedBuckets ↔ tod !! hour x = Some (count x).
Proof.
  rewrite sortedBuckets_perm. unfold buckets. rewrite list_elem_of_fmap. split.
  - intros ([h c] & -> & Hin). by apply elem_of_mapRange in Hin.
  - intros Hx. exists (hour x, count x). split; [by destruct x|].
    by apply elem_of_mapRange.
Qed.

Lemma elem_of_take_sortedBuckets (x : hourCount) (n : nat) :
  x ∈ take n sortedBuckets → x ∈ sortedBuckets.
Proof. intros Hx. eapply elem_of_sublist; [exact Hx|apply sublist_take]. Qed.

Lemma sortedBuckets_count (x : hourCount) :
  x ∈ sortedBuckets → getInt tod (hour x) = count x.
Proof. intros Hx%elem_of_sortedBuckets. unfold getInt. by rewrite Hx. Qed.

Lemma sortedBuckets_sorted :
  StronglySorted (λ x y, count y ≤ count x) sortedBuckets.
Proof.
  eapply StronglySorted_weaken;
    [|apply (sortSlice_sorted _ _ byCount_StrictWeakOrder)].
  intros x y Hxy. simpl in Hxy. lia.
Qed.

Lemma length_sortedBuckets : length sortedBuckets = size tod.
Proof.
  rewrite sortedBuckets_perm. unfold buckets.
  rewrite length_fmap, (mapRange_perm tod). apply length_map_to_list.
Qed.

Lemma getPeakHours_length : length (getPeakHours tod) = (3 `min` size tod)%nat.
Proof.
  rewrite getPeakHours_sortedBuckets, length_fmap, length_take.
  by rewrite length_sortedBuckets.
Qed.

Lemma getPeakHours_NoDup : NoDup (getPeakHours tod).
Proof.
  rewrite getPeakHours_sortedBuckets, fmap_take.
  eapply sublist_NoDup; [apply NoDup_hour_sortedBuckets|apply sublist_take].
Qed.

Lemma elem_of_getPeakHours (h : Z) :
  h ∈ getPeakHours tod → ∃ x, x ∈ take 3 sortedBuckets ∧ hour x = h.
Proof.
  rewrite getPeakHours_sortedBuckets, list_elem_of_fmap.
  intros (x & -> & Hx). by exists x.
Qed.

Lemma getPeakHours_counted (h : Z) :
  h ∈ getPeakHours tod → is_Some (tod !! h).
Proof.
  intros (x & Hx & <-)%elem_of_getPeakHours.
  exists (count x). apply elem_of_sortedBuckets.
  by eapply elem_of_take_sortedBuckets.
Qed.

Lemma getPeakHours_descending :
  StronglySorted (λ h1 h2, getInt tod h2 ≤ getInt tod h1) (getPeakHours tod).
Proof.
  rewrite getPeakHours_sortedBuckets.
  pose proof sortedBuckets_sorted as Hs.
  rewrite <- (take_drop 3 sortedBuckets) in Hs.
  apply StronglySorted_app_1_l in Hs.
  eapply StronglySorted_fmap_in; [|exact Hs].
  intros x y Hx Hy Hxy.
  rewrite !sortedBuckets_count; [done|..]; by eapply elem_of_take_sortedBuckets.
Qed.

Lemma getPeakHours_largest (h h' : Z) :
  h ∈ getPeakHours tod → h' ∉ getPeakHours tod → is_Some (tod !! h') →
  getInt tod h' ≤ getInt tod h.
Proof.
  intros (x & Hx & <-)%elem_of_getPeakHours Hh' [c' Hc'].
  assert ({| hour := h'; count := c' |} ∈ sortedBuckets) as Hx'
    by by apply elem_of_sortedBuckets.
  rewrite <- (take_drop 3 sortedBuckets), elem_of_app in Hx'.
  destruct Hx' as [Hx'|Hx'].
  - destruct Hh'. rewrite getPeakHours_sortedBuckets, list_elem_of_fmap.
    by exists {| hour := h'; count := c' |}.
  - pose proof sortedBuckets_sorted as Hs.
    rewrite <- (take_drop 3 sortedBuckets) in Hs.
    pose proof (StronglySorted_app_1_elem_of _ _ _ _ _ Hs Hx Hx') as Hle.
    simpl in Hle. unfold getInt at 1. rewrite Hc'. simpl.
    rewrite sortedBuckets_count; [done|]. by eapply elem_of_take_sortedBuckets.
Qed.

End PeakHours.

Section SingleHour.

Context `{rt : GoRuntime}.

Lemma getPeakHours_singleton (h v : Z) : getPeakHours {[ h := v ]} = [h].
Proof.
  unfold getPeakHours. rewrite mapRange_singleton. cbn [fmap list_fmap].
  assert (∀ x : hourCount,
    sortSlice (λ a b, (count b <? count a)%Z) [x] = [x]) as Hone.
  { intros x. apply Permutation_singleton_r. by rewrite sortSlice_perm. }
  by rewrite Hone.
Qed.

Lemma timeOfDay_foldl (host : Host) (langs : gmap string string)
    (entries : list CommandEntry) (c : usageCounters) :
  timeOfDay (foldl (analyzeEntry host langs) c entries)
  = foldl (λ m e, <[time.Hour (Timestamp e)
                    := incr (getInt m (time.Hour (Timestamp e)))]> m)
      (timeOfDay c) entries.
Proof.
  revert c. induction entries as [|e entries IH]; intros c; [done|].
  cbn [foldl]. by rewrite IH.
Qed.

Lemma timeOfDay_single_hour (host : Host) (langs : gmap string string)
    (entries : list CommandEntry) (h : Z) :
  entries ≠ [] → Forall (λ e, time.Hour (Timestamp e) = h) entries →
  ∃ v, timeOfDay (countUsage host langs entries) = {[ h := v ]}.
Proof.
  intros Hne Hall. unfold countUsage. rewrite timeOfDay_foldl. cbn [timeOfDay].
  assert (∀ l (m : gmap Z Z) v,
    Forall (λ e, time.Hour (Timestamp e) = h) l → m = {[ h := v ]} →
    ∃ v', foldl (λ m e, <[time.Hour (Timestamp e)
                    := incr (getInt m (time.Hour (Timestamp e)))]> m) m l
          = {[ h := v' ]}) as Hsingle.
  { induction l as [|e l IH]; intros m v Hl ->; [by exists v|].
    apply Forall_cons in Hl as [He Hl]. cbn [foldl]. rewrite He.
    eapply IH; [done|]. apply insert_singleton_eq. }
  destruct entries as [|e entries]; [done|].
  apply Forall_cons in Hall as [He Hall]. cbn [foldl]. rewrite He.
  eapply Hsingle; [done|]. apply insert_empty.
Qed.

Lemma PeakHours_analyzeCommands (host : Host) (entries : list CommandEntry)
    (data : ShellData) :
  PeakHours (Patterns (Insights (analyzeCommands host entries data)))
  = getPeakHours (timeOfDay (countUsage host (getInstalledLanguages host) entries)).
Proof. reflexivity. Qed.

End SingleHour.

(** ** The aggregation pass *)

(** The fields of the snapshot that the claims speak of. *)
Definition primaryRoleOf (data : ShellData) : string :=
  PrimaryRole (TechnicalProfile (Insights data)).

Definition techStackOf (data : ShellData) : list string :=
  TechStack (TechnicalProfile (Insights data)).

Definition proficiencyOf (data : ShellData) : gmap string Qc :=
  Proficiency (TechnicalProfile (Insights data)).

Definition peakHoursOf (data : ShellData) : list Z :=
  PeakHours (Patterns (Insights data)).

Definition productivityOf (data : ShellData) : gmap string Qc :=
  Productivity (Patterns (Insights data)).

(** A loop that stores a value for every entry of a map. *)
Lemma foldl_insert_list `{Countable K} {V W : Type} (f : V → W)
    (l : list (K * V)) (m : gmap K W) (k : K) :
  NoDup l.*1 →
  foldl (λ m '(k, v), <[k := f v]> m) m l !! k
  = match (list_to_map l : gmap K V) !! k with
    | Some v => Some (f v)
    | None => m !! k
    end.
Proof.
  revert m. induction l as [|[k0 v0] l IH]; intros m Hnd; [done|].
  rewrite fmap_cons, NoDup_cons in Hnd. destruct Hnd as [Hk0 Hnd].
  cbn [foldl]. rewrite IH by done.
  cbn [list_to_map foldr uncurry fst snd] in *.
  destruct (decide (k = k0)) as [->|Hne].
  - by rewrite (not_elem_of_list_to_map_1 _ _ Hk0), !lookup_insert_eq.
  - by rewrite !lookup_insert_ne.
Qed.

Section Pass.

Context `{rt : GoRuntime}.

Lemma recordProficiency_lookup (total : Z) (usage : gmap string Z)
    (proficiency : gmap string Qc) (k : string) :
  recordProficiency total usage proficiency !! k
  = match usage !! k with
    | Some c => Some (ratio c total)
    | None => proficiency !! k
    end.
Proof.
  unfold recordProficiency.
  rewrite (foldl_insert_list (λ c, ratio c total)) by apply mapRange_NoDup_fst.
  by rewrite list_to_map_mapRange.
Qed.

Context (h : Host) (entries : list CommandEntry) (data : ShellData).

Lemma techStackOf_analyzeCommands :
  techStackOf (analyzeCommands h entries data)
  = foldl
      (λ stack '(lang, _),
         if (0 <? getInt (langUsage (countUsage h (getInstalledLanguages h) entries))
                    lang)%Z
         then stack ++ [lang] else stack)
      [] (mapRange (getInstalledLanguages h)).
Proof.
  unfold techStackOf, analyzeCommands.
  destruct (getMostUsed _) as [primaryLang []];
    by destruct (0 <? Z.of_nat (length entries))%Z.
Qed.

Lemma proficiencyOf_analyzeCommands :
  proficiencyOf (analyzeCommands h entries data)
  = if (0 <? Z.of_nat (length entries))%Z
    then recordProficiency (Z.of_nat (length entries))
           (toolUsage (countUsage h (getInstalledLanguages h) entries))
           (recordProficiency (Z.of_nat (length entries))
              (langUsage (countUsage h (getInstalledLanguages h) entries))
              (proficiencyOf data))
    else proficiencyOf data.
Proof.
  unfold proficiencyOf, analyzeCommands.
  destruct (getMostUsed _) as [primaryLang []];
    by destruct (0 <? Z.of_nat (length entries))%Z.
Qed.

Lemma peakHoursOf_analyzeCommands :
  peakHoursOf (analyzeCommands h entries data)
  = getPeakHours (timeOfDay (countUsage h (getInstalledLanguages h) entries)).
Proof. reflexivity. Qed.

Lemma productivityOf_analyzeCommands :
  productivityOf (analyzeCommands h entries data)
  = calculateProductivityMetrics entries
      (commandPatterns (countUsage h (getInstalledLanguages h) entries)).
Proof. reflexivity. Qed.

Lemma primaryRoleOf_analyzeCommands :
  primaryRoleOf (analyzeCommands h entries data)
  = match getMostUsed (langUsage (countUsage h (getInstalledLanguages h) entries)) with
    | (primaryLang, true) => strings.Title primaryLang +:+ " Developer"
    | (_, false) => primaryRoleOf data
    end.
Proof. apply PrimaryRole_analyzeCommands. Qed.

Lemma Histories_analyzeCommands :
  Histories (analyzeCommands h entries data) = Histories data.
Proof. reflexivity. Qed.

Lemma ShellConfigs_analyzeCommands :
  ShellConfigs (analyzeCommands h entries data) = ShellConfigs data.
Proof. reflexivity. Qed.

End Pass.

(** ** A pass over no command *)

Section NoCommand.

Context `{rt : GoRuntime}.

Lemma getMostUsed_empty : getMostUsed ∅ = (EmptyString, false).
Proof. apply getMostUsed_none. intros k v Hk. by rewrite lookup_empty in Hk. Qed.

Lemma analyzeCommands_nil (h : Host) (data : ShellData) :
  productivityOf (analyzeCommands h [] data) = ∅
  ∧ proficiencyOf (analyzeCommands h [] data) = proficiencyOf data
  ∧ primaryRoleOf (analyzeCommands h [] data) = primaryRoleOf data.
Proof.
  split_and!.
  - by rewrite productivityOf_analyzeCommands.
  - by rewrite proficiencyOf_analyzeCommands.
  - rewrite primaryRoleOf_analyzeCommands. cbn [countUsage foldl langUsage].
    by rewrite getMostUsed_empty.
Qed.

(** Nothing is scored in a run in which every history that can be read
    holds no command. *)
Lemma analyzeShells_no_command (h : Host) :
  (∀ shell path, shellPaths !! shell = Some path →
     (readHistory h (expandPath h path)).1 = []) →
  productivityOf (analyzeShells h) = ∅
  ∧ proficiencyOf (analyzeShells h) = ∅
  ∧ primaryRoleOf (analyzeShells h) = EmptyString.
Proof.
  intros Hempty. unfold analyzeShells.
  assert (∀ l data,
    (∀ shell path, (shell, path) ∈ l → shellPaths !! shell = Some path) →
    productivityOf data = ∅ ∧ proficiencyOf data = ∅
      ∧ primaryRoleOf data = EmptyString →
    productivityOf (foldl (analyzeShell h) data l) = ∅
    ∧ proficiencyOf (foldl (analyzeShell h) data l) = ∅
    ∧ primaryRoleOf (foldl (analyzeShell h) data l) = EmptyString) as Hloop.
  { induction l as [|[shell path] l IH]; intros data Hl Hdata; [done|].
    cbn [foldl]. apply IH; [intros s p Hin; apply Hl; by right|].
    unfold analyzeShell.
    specialize (Hempty shell path (Hl shell path ltac:(left))).
    destruct (readHistory h (expandPath h path)) as [history [err|]]; [done|].
    simpl in Hempty. subst history.
    destruct (analyzeCommands_nil h (setHistory shell [] data))
      as (Hprod & Hprof & Hrole).
    destruct Hdata as (Hdprod & Hdprof & Hdrole). split_and!.
    - exact Hprod.
    - etrans; [exact Hprof|exact Hdprof].
    - etrans; [exact Hrole|exact Hdrole]. }
  apply Hloop; [|done]. intros shell path. apply elem_of_mapRange.
Qed.

End NoCommand.

(** C2. A pass over no command leaves the productivity map empty, adds
    nothing to the proficiency map and leaves the primary role as it was;
    from a fresh snapshot, and in a whole run in which no history holds a
    command, both maps end empty and the primary role is the empty
    string.  No entry is computed with a zero denominator. *)
Theorem C2_no_commands_no_scores `{rt : GoRuntime} (h : Host) :
  (∀ data,
     productivityOf (analyzeCommands h [] data) = ∅
     ∧ proficiencyOf (analyzeCommands h [] data) = proficiencyOf data
     ∧ primaryRoleOf (analyzeCommands h [] data) = primaryRoleOf data)
  ∧ (productivityOf (analyzeCommands h [] initShellData) = ∅
     ∧ proficiencyOf (analyzeCommands h [] initShellData) = ∅
     ∧ primaryRoleOf (analyzeCommands h [] initShellData) = EmptyString)
  ∧ (∀ patterns, calculateProductivityMetrics [] patterns = ∅)
  ∧ ((∀ shell path, shellPaths !! shell = Some path →
        (readHistory h (expandPath h path)).1 = []) →
     productivityOf (analyzeShells h) = ∅
     ∧ proficiencyOf (analyzeShells h) = ∅
     ∧ primaryRoleOf (analyzeShells h) = EmptyString).
Proof.
  split_and!.
  - apply analyzeCommands_nil.
  - apply (analyzeCommands_nil h initShellData).
  - apply (analyzeCommands_nil h initShellData).
  - apply (analyzeCommands_nil h initShellData).
  - done.
  - apply analyzeShells_no_command.
Qed.

(** A host whose bash history exists and is empty, and which has no other
    history: the run ends with nothing scored. *)
Definition emptyHistoryHost : Host :=
  {| UserHomeDir := None; Join a b := b; Base p := p;
     Open p := if String.eqb p "~/.bash_history" then Some EmptyString else None;
     Now p i := {| time.unixSec := 0; time.zoneOffset := 0 |};
     Stat p := None; ReadFile p := None; ReadDir p := None;
     Output c := if String.eqb c "python --version" then Some "Python 3" else None;
     LookPath t := false |}.

Lemma map_to_list_shellPaths :
  map_to_list shellPaths
  = [ ("fish", "~/.local/share/fish/fish_history"); ("zsh", "~/.zsh_history");
      ("bash", "~/.bash_history") ].
Proof. vm_compute. reflexivity. Qed.

Lemma shellPaths_cases (shell path : string) :
  shellPaths !! shell = Some path →
  (shell, path) = ("fish", "~/.local/share/fish/fish_history")
  ∨ (shell, path) = ("zsh", "~/.zsh_history")
  ∨ (shell, path) = ("bash", "~/.bash_history").
Proof.
  intros Hpath. apply elem_of_map_to_list in Hpath.
  rewrite map_to_list_shellPaths in Hpath. set_solver.
Qed.

Example C2_empty_history_run :
  Histories (analyzeShells (rt := insertionRuntime) emptyHistoryHost)
  = {[ "bash" := [] ]}
  ∧ productivityOf (analyzeShells (rt := insertionRuntime) emptyHistoryHost) = ∅
  ∧ proficiencyOf (analyzeShells (rt := insertionRuntime) emptyHistoryHost) = ∅
  ∧ primaryRoleOf (analyzeShells (rt := insertionRuntime) emptyHistoryHost)
    = EmptyString.
Proof.
  split; [vm_compute; reflexivity|].
  apply (proj2 (proj2 (proj2
    (C2_no_commands_no_scores (rt := insertionRuntime) emptyHistoryHost)))).
  intros shell path Hpath.
  destruct (shellPaths_cases _ _ Hpath) as [?|[?|?]]; simplify_eq;
    vm_compute; reflexivity.
Defined.

(** ** Usage counts and proficiency *)

(** Whether [analyzeCommands] counts a command as a use of a language of
    its catalog, and as a use of one of the development tools. *)
Definition usesLanguage (lang cmd : string) : bool :=
  strings.Contains cmd lang || strings.Contains cmd (getPackageManager lang).

Definition usesTool (h : Host) (tool cmd : string) : bool :=
  strings.HasPrefix cmd tool && checkToolInstalled h tool.

(** The number of entries whose command passes a test. *)
Fixpoint occurrences (test : string → bool) (entries : list CommandEntry) : Z :=
  match entries with
  | [] => 0
  | e :: entries' =>
      (if test (Command e) then 1 else 0) + occurrences test entries'
  end.

Lemma occurrences_app (test : string → bool) (l1 l2 : list CommandEntry) :
  occurrences test (l1 ++ l2) = occurrences test l1 + occurrences test l2.
Proof.
  induction l1 as [|e l1 IH]; [done|]. cbn [app occurrences]. rewrite IH. lia.
Qed.

Lemma occurrences_bounds (test : string → bool) (entries : list CommandEntry) :
  0 ≤ occurrences test entries ≤ Z.of_nat (length entries).
Proof.
  induction entries as [|e entries IH]; [done|].
  cbn [occurrences length]. destruct (test (Command e)); lia.
Qed.

Lemma incr_below_maxInt (c : Z) : 0 ≤ c < maxInt → incr c = c + 1.
Proof.
  intros Hc. unfold incr, wrapInt, maxInt in *.
  rewrite Z.mod_small; lia.
Qed.

(** A loop that increments the counter of every listed key that passes
    a test. *)
Lemma foldl_incr_keys `{Countable K} (cond : K → bool) (l : list K)
    (m : gmap K Z) (k : K) :
  NoDup l →
  foldl (λ m k, if cond k then <[k := incr (getInt m k)]> m else m) m l !! k
  = if bool_decide (k ∈ l) && cond k then Some (incr (getInt m k)) else m !! k.
Proof.
  revert m. induction l as [|k0 l IH]; intros m Hnd; [done|].
  apply NoDup_cons in Hnd as [Hk0 Hnd]. cbn [foldl]. rewrite IH by done.
  destruct (decide (k = k0)) as [Heq|Hne]; [subst k|].
  - rewrite (bool_decide_eq_false_2 (k0 ∈ l)) by done.
    rewrite (bool_decide_eq_true_2 (k0 ∈ k0 :: l)) by left. cbn [andb].
    destruct (cond k0); [by rewrite lookup_insert_eq|done].
  - assert (bool_decide (k ∈ k0 :: l) = bool_decide (k ∈ l)) as ->.
    { apply bool_decide_ext. rewrite elem_of_cons.
      split; [by intros [?|?]|by right]. }
    assert (getInt (if cond k0 then <[k0:=incr (getInt m k0)]> m else m) k
            = getInt m k) as ->.
    { unfold getInt. destruct (cond k0); [by rewrite lookup_insert_ne|done]. }
    assert ((if cond k0 then <[k0:=incr (getInt m k0)]> m else m) !! k
            = m !! k) as ->; [|done].
    destruct (cond k0); [by rewrite lookup_insert_ne|done].
Qed.

(** A counter map filled one command at a time: after the loop, the
    counter of an active key is the number of commands that pass its
    test, and a key that is not active, or that no command uses, has no
    counter. *)
Lemma counter_loop (step : gmap string Z → string → gmap string Z)
    (active : string → bool) (test : string → string → bool) :
  (∀ m cmd k,
     step m cmd !! k
     = if active k && test k cmd then Some (incr (getInt m k)) else m !! k) →
  ∀ entries k,
    Z.of_nat (length entries) ≤ maxInt →
    foldl (λ m e, step m (Command e)) ∅ entries !! k
    = if active k && (0 <? occurrences (test k) entries)%Z
      then Some (occurrences (test k) entries) else None.
Proof.
  intros Hstep entries k.
  induction entries as [|e entries IH] using rev_ind; intros Hlen.
  - by rewrite andb_false_r.
  - rewrite length_app in Hlen. cbn [length] in Hlen.
    rewrite foldl_app. cbn [foldl]. rewrite Hstep, occurrences_app.
    cbn [occurrences]. unfold getInt. rewrite IH by lia.
    pose proof (occurrences_bounds (test k) entries) as Hocc.
    destruct (active k); cbn [andb]; [|done].
    destruct (test k (Command e)).
    + destruct (Z.ltb_spec 0 (occurrences (test k) entries)) as [Hpos|Hzero];
        cbn [default from_option id].
      * rewrite incr_below_maxInt by (unfold maxInt in *; lia).
        rewrite (proj2 (Z.ltb_lt 0 _)) by lia. f_equal; lia.
      * replace (occurrences (test k) entries) with 0 by lia. done.
    + by rewrite !Z.add_0_r.
Qed.

Section Usage.

Context `{rt : GoRuntime}.

Context (h : Host) (langs : gmap string string).

Lemma countLanguages_lookup (cmd : string) (usage : gmap string Z) (lang : string) :
  countLanguages langs cmd usage !! lang
  = if bool_decide (is_Some (langs !! lang)) && usesLanguage lang cmd
    then Some (incr (getInt usage lang)) else usage !! lang.
Proof.
  unfold countLanguages.
  rewrite (foldl_incr_mapRange (λ lang _,
    strings.Contains cmd lang || strings.Contains cmd (getPackageManager lang))).
  by destruct (langs !! lang).
Qed.

Lemma NoDup_tools : NoDup tools.
Proof. apply NoDup_ListNoDup. repeat constructor; cbn; intuition discriminate. Qed.

Lemma countTools_lookup (cmd : string) (usage : gmap string Z) (tool : string) :
  countTools h cmd usage !! tool
  = if bool_decide (tool ∈ tools) && usesTool h tool cmd
    then Some (incr (getInt usage tool)) else usage !! tool.
Proof.
  unfold countTools.
  apply (foldl_incr_keys (λ tool,
    strings.HasPrefix cmd tool && checkToolInstalled h tool)), NoDup_tools.
Qed.

Lemma langUsage_foldl (entries : list CommandEntry) (c : usageCounters) :
  langUsage (foldl (analyzeEntry h langs) c entries)
  = foldl (λ m e, countLanguages langs (Command e) m) (langUsage c) entries.
Proof.
  revert c. induction entries as [|e entries IH]; intros c; [done|].
  cbn [foldl]. by rewrite IH.
Qed.

Lemma toolUsage_foldl (entries : list CommandEntry) (c : usageCounters) :
  toolUsage (foldl (analyzeEntry h langs) c entries)
  = foldl (λ m e, countTools h (Command e) m) (toolUsage c) entries.
Proof.
  revert c. induction entries as [|e entries IH]; intros c; [done|].
  cbn [foldl]. by rewrite IH.
Qed.

(** The language counters after the loop over the entries. *)
Lemma langUsage_countUsage (entries : list CommandEntry) (lang : string) :
  Z.of_nat (length entries) ≤ maxInt →
  langUsage (countUsage h langs entries) !! lang
  = if bool_decide (is_Some (langs !! lang))
       && (0 <? occurrences (usesLanguage lang) entries)%Z
    then Some (occurrences (usesLanguage lang) entries) else None.
Proof.
  intros Hlen. unfold countUsage. rewrite langUsage_foldl. cbn [langUsage].
  exact (counter_loop (λ m cmd, countLanguages langs cmd m)
           (λ lang, bool_decide (is_Some (langs !! lang))) usesLanguage
           (λ m cmd k, countLanguages_lookup cmd m k) entries lang Hlen).
Qed.

(** The tool counters after the loop over the entries. *)
Lemma toolUsage_countUsage (entries : list CommandEntry) (tool : string) :
  Z.of_nat (length entries) ≤ maxInt →
  toolUsage (countUsage h langs entries) !! tool
  = if bool_decide (tool ∈ tools)
       && (0 <? occurrences (usesTool h tool) entries)%Z
    then Some (occurrences (usesTool h tool) entries) else None.
Proof.
  intros Hlen. unfold countUsage. rewrite toolUsage_foldl. cbn [toolUsage].
  exact (counter_loop (λ m cmd, countTools h cmd m)
           (λ tool, bool_decide (tool ∈ tools)) (usesTool h)
           (λ m cmd k, countTools_lookup cmd m k) entries tool Hlen).
Qed.

End Usage.

(** The quotient of a count by a total that is at least the count. *)
Lemma this_ratio (a b : Z) : (this (ratio a b) == inject_Z a / inject_Z b)%Q.
Proof.
  unfold ratio, Qcdiv, Qcmult, Qcinv. cbn [this Q2Qc].
  by rewrite !Qred_correct.
Qed.

Lemma ratio_bounds (c total : Z) :
  0 ≤ c ≤ total → 0 < total → (0 ≤ ratio c total)%Qc ∧ (ratio c total ≤ 1)%Qc.
Proof.
  intros Hc Htotal. unfold Qcle. rewrite !this_ratio.
  assert (0 < inject_Z total)%Q as Hpos.
  { unfold Qlt, inject_Z. simpl. lia. }
  split.
  - apply Qle_shift_div_l; [done|]. unfold Qle, inject_Z. simpl. lia.
  - apply Qle_shift_div_r; [done|]. unfold Qle, inject_Z. simpl. lia.
Qed.

Lemma ratio_4_10 : ratio 4 10 = Q2Qc 0.4.
Proof. apply Qc_is_canon. reflexivity. Qed.

Section Proficiency.

Context `{rt : GoRuntime}.

Context (h : Host) (entries : list CommandEntry) (data : ShellData).

(** The proficiency map after a pass over at least one command: a tool's
    count over the total, else a language's count over the total, else
    the value the map held before the pass. *)
Lemma proficiencyOf_lookup (k : string) :
  (0 < length entries)%nat →
  proficiencyOf (analyzeCommands h entries data) !! k
  = match toolUsage (countUsage h (getInstalledLanguages h) entries) !! k with
    | Some c => Some (ratio c (Z.of_nat (length entries)))
    | None =>
        match langUsage (countUsage h (getInstalledLanguages h) entries) !! k with
        | Some c => Some (ratio c (Z.of_nat (length entries)))
        | None => proficiencyOf data !! k
        end
    end.
Proof.
  intros Hlen. rewrite proficiencyOf_analyzeCommands.
  rewrite (proj2 (Z.ltb_lt 0 (Z.of_nat (length entries)))) by lia.
  by rewrite !recordProficiency_lookup.
Qed.

End Proficiency.

(** C1. After a pass over a history of [total > 0] commands, the
    proficiency recorded for a tool or language is its usage count [c]
    divided by [total]; [c] is the number of commands counted as uses of
    it, so [c <= total] and the score lies between 0 and 1.  With 10
    commands of which exactly 4 count as uses of [python], the
    proficiency recorded for [python] is 0.4. *)
Theorem C1_proficiency_is_count_over_total `{rt : GoRuntime}
    (h : Host) (entries : list CommandEntry) (data : ShellData) :
  (0 < length entries)%nat → Z.of_nat (length entries) ≤ maxInt →
  let total := Z.of_nat (length entries) in
  let counters := countUsage h (getInstalledLanguages h) entries in
  let after := proficiencyOf (analyzeCommands h entries data) in
  (∀ k c, toolUsage counters !! k = Some c →
     c = occurrences (usesTool h k) entries
     ∧ 0 ≤ c ≤ total
     ∧ after !! k = Some (ratio c total)
     ∧ (0 ≤ ratio c total)%Qc ∧ (ratio c total ≤ 1)%Qc)
  ∧ (∀ k c, toolUsage counters !! k = None → langUsage counters !! k = Some c →
       c = occurrences (usesLanguage k) entries
       ∧ 0 ≤ c ≤ total
       ∧ after !! k = Some (ratio c total)
       ∧ (0 ≤ ratio c total)%Qc ∧ (ratio c total ≤ 1)%Qc)
  ∧ (∀ k, toolUsage counters !! k = None → langUsage counters !! k = None →
       after !! k = proficiencyOf data !! k)
  ∧ (total = 10 → is_Some (getInstalledLanguages h !! "python") →
     occurrences (usesLanguage "python") entries = 4 →
     after !! "python" = Some (Q2Qc 0.4)).
Proof.
  intros Hpos Hmax total counters after. subst total counters after.
  split_and!.
  - intros k c Hk. pose proof Hk as Hk'.
    rewrite toolUsage_countUsage in Hk' by done.
    destruct (_ && _); [|done]. injection Hk' as <-.
    pose proof (occurrences_bounds (usesTool h k) entries) as Hocc.
    split_and!; [done|lia|lia| |apply ratio_bounds; lia..].
    by rewrite proficiencyOf_lookup, Hk.
  - intros k c Htool Hk. pose proof Hk as Hk'.
    rewrite langUsage_countUsage in Hk' by done.
    destruct (_ && _); [|done]. injection Hk' as <-.
    pose proof (occurrences_bounds (usesLanguage k) entries) as Hocc.
    split_and!; [done|lia|lia| |apply ratio_bounds; lia..].
    by rewrite proficiencyOf_lookup, Htool, Hk.
  - intros k Htool Hlang. by rewrite proficiencyOf_lookup, Htool, Hlang.
  - intros Htotal Hinstalled Hfour.
    rewrite proficiencyOf_lookup, toolUsage_countUsage, langUsage_countUsage by done.
    rewrite (bool_decide_eq_false_2 ("python" ∈ tools))
      by (rewrite list_elem_of_In; cbn; intuition discriminate).
    rewrite (bool_decide_eq_true_2 _ Hinstalled), Hfour, Htotal. cbn [andb].
    change (0 <? 4) with true. cbn match. by rewrite ratio_4_10.
Qed.

(** A host that has [python] and [git], and ten commands of which four
    count as uses of [python] (one of them through [pip]). *)
Definition pythonHost : Host :=
  {| UserHomeDir := None; Join a b := b; Base p := p; Open p := None;
     Now p i := {| time.unixSec := 0; time.zoneOffset := 0 |};
     Stat p := None; ReadFile p := None; ReadDir p := None;
     Output c := if String.eqb c "python --version" then Some "Python 3"
                 else if String.eqb c "git --version" then Some "git 2"
                 else None;
     LookPath t := String.eqb t "git" |}.

Definition pythonEntries : list CommandEntry :=
  (λ cmd, {| Command := cmd;
             Timestamp := {| time.unixSec := 0; time.zoneOffset := 0 |};
             Count := 0; Categories := [] |})
  <$> [ "python"; "ls"; "pip"; "status"; "ipython"; "-la"; "make";
        "python3"; "tmp"; "x" ].

Example C1_four_of_ten_python :
  proficiencyOf (analyzeCommands (rt := insertionRuntime) pythonHost
                   pythonEntries initShellData) !! "python"
  = Some (Q2Qc 0.4).
Proof.
  assert (0 < length pythonEntries)%nat as Hpos by (cbn; lia).
  assert (Z.of_nat (length pythonEntries) ≤ maxInt) as Hmax by (by vm_compute).
  apply (proj2 (proj2 (proj2
    (C1_proficiency_is_count_over_total (rt := insertionRuntime) pythonHost
       pythonEntries initShellData Hpos Hmax)))).
  - reflexivity.
  - eexists. vm_compute. reflexivity.
  - vm_compute. reflexivity.
Defined.

(** ** The hour buckets of a pass and its peak hours *)

(** The number of commands stamped in an hour of the day. *)
Fixpoint commandsAt (hour : Z) (entries : list CommandEntry) : Z :=
  match entries with
  | [] => 0
  | e :: entries' =>
      (if (time.Hour (Timestamp e) =? hour)%Z then 1 else 0)
      + commandsAt hour entries'
  end.

Lemma commandsAt_app (hour : Z) (l1 l2 : list CommandEntry) :
  commandsAt hour (l1 ++ l2) = commandsAt hour l1 + commandsAt hour l2.
Proof.
  induction l1 as [|e l1 IH]; [done|]. cbn [app commandsAt]. rewrite IH. lia.
Qed.

Lemma commandsAt_bounds (hour : Z) (entries : list CommandEntry) :
  0 ≤ commandsAt hour entries ≤ Z.of_nat (length entries).
Proof.
  induction entries as [|e entries IH]; [done|].
  cbn [commandsAt length]. destruct (_ =? _)%Z; lia.
Qed.

Lemma commandsAt_all (hour : Z) (entries : list CommandEntry) :
  Forall (λ e, time.Hour (Timestamp e) = hour) entries →
  commandsAt hour entries = Z.of_nat (length entries).
Proof.
  induction 1 as [|e entries He _ IH]; [done|].
  cbn [commandsAt length]. rewrite IH, He, Z.eqb_refl. lia.
Qed.

Section HourBuckets.

Context `{rt : GoRuntime}.

Context (h : Host) (langs : gmap string string).

(** The buckets after the loop over the entries: every hour that has
    commands holds their number, and no other hour has a bucket. *)
Lemma timeOfDay_countUsage (entries : list CommandEntry) (hour : Z) :
  Z.of_nat (length entries) ≤ maxInt →
  timeOfDay (countUsage h langs entries) !! hour
  = if (0 <? commandsAt hour entries)%Z
    then Some (commandsAt hour entries) else None.
Proof.
  unfold countUsage. rewrite timeOfDay_foldl. cbn [timeOfDay].
  induction entries as [|e entries IH] using rev_ind; intros Hlen; [done|].
  rewrite length_app in Hlen. cbn [length] in Hlen.
  rewrite foldl_app, commandsAt_app. cbn [foldl commandsAt].
  pose proof (commandsAt_bounds hour entries) as Hocc.
  destruct (Z.eqb_spec (time.Hour (Timestamp e)) hour) as [->|Hne].
  - rewrite lookup_insert_eq. unfold getInt at 1. rewrite IH by lia.
    destruct (Z.ltb_spec 0 (commandsAt hour entries)) as [Hpos|Hzero];
      cbn [default from_option id].
    + rewrite incr_below_maxInt by (unfold maxInt in *; lia).
      rewrite (proj2 (Z.ltb_lt 0 _)) by lia. f_equal; lia.
    + replace (commandsAt hour entries) with 0 by lia. done.
  - rewrite lookup_insert_ne by done. rewrite IH by lia. by rewrite !Z.add_0_r.
Qed.

Lemma getInt_timeOfDay (entries : list CommandEntry) (hour : Z) :
  Z.of_nat (length entries) ≤ maxInt →
  getInt (timeOfDay (countUsage h langs entries)) hour = commandsAt hour entries.
Proof.
  intros Hlen. unfold getInt. rewrite timeOfDay_countUsage by done.
  pose proof (commandsAt_bounds hour entries).
  destruct (Z.ltb_spec 0 (commandsAt hour entries)); cbn; lia.
Qed.

End HourBuckets.

(** C7, as the code has it.  The pass buckets the commands by the hour of
    the day of their timestamps: after the loop the bucket of an hour
    holds the number of commands stamped in that hour, and an hour
    without commands has no bucket.  The peak hours are the hours of
    [min 3 n] of the [n] buckets, without repetition and in descending
    order of the number of commands; no hour left out has more commands
    than a returned one.  For commands that all fall in hour 14 the
    result is exactly [14].  The order among hours with the same number
    of commands is the run-time's choice. *)
Theorem C7_getPeakHours_top_three `{rt : GoRuntime}
    (h : Host) (entries : list CommandEntry) (data : ShellData) :
  Z.of_nat (length entries) ≤ maxInt →
  let buckets := timeOfDay (countUsage h (getInstalledLanguages h) entries) in
  let peak := PeakHours (Patterns (Insights (analyzeCommands h entries data))) in
  (∀ hour,
     buckets !! hour
     = if (0 <? commandsAt hour entries)%Z
       then Some (commandsAt hour entries) else None)
  ∧ peak = getPeakHours buckets
  ∧ (length peak ≤ 3)%nat
  ∧ length peak = (3 `min` size buckets)%nat
  ∧ NoDup peak
  ∧ (∀ hour, hour ∈ peak → 0 < commandsAt hour entries)
  ∧ StronglySorted
      (λ hour1 hour2, commandsAt hour2 entries ≤ commandsAt hour1 entries) peak
  ∧ (∀ hour hour', hour ∈ peak → hour' ∉ peak →
       commandsAt hour' entries ≤ commandsAt hour entries)
  ∧ (entries ≠ [] → Forall (λ e, time.Hour (Timestamp e) = 14) entries →
     commandsAt 14 entries = Z.of_nat (length entries) ∧ peak = [14]).
Proof.
  intros Hlen buckets peak.
  assert (peak = getPeakHours buckets) as Hpeak by done.
  assert (∀ hour, getInt buckets hour = commandsAt hour entries) as Hcount
    by (intros hour; by apply getInt_timeOfDay).
  assert (∀ hour,
     buckets !! hour
     = if (0 <? commandsAt hour entries)%Z
       then Some (commandsAt hour entries) else None) as Hbuckets
    by (intros hour; by apply timeOfDay_countUsage).
  clearbody buckets peak. subst peak.
  split_and!; [done|done|..].
  - rewrite getPeakHours_length. lia.
  - apply getPeakHours_length.
  - apply getPeakHours_NoDup.
  - intros hour [c Hc]%getPeakHours_counted. rewrite Hbuckets in Hc.
    by destruct (Z.ltb_spec 0 (commandsAt hour entries)).
  - eapply StronglySorted_weaken; [|apply getPeakHours_descending].
    intros hour1 hour2 Hle. cbn beta in Hle. by rewrite <- !Hcount.
  - intros hour hour' Hin Hout.
    destruct (buckets !! hour') as [c'|] eqn:Hc'.
    + rewrite <- !Hcount. by apply getPeakHours_largest.
    + rewrite Hbuckets in Hc'.
      destruct (Z.ltb_spec 0 (commandsAt hour' entries)); [done|].
      pose proof (commandsAt_bounds hour entries). lia.
  - intros Hne Hall. split; [by apply commandsAt_all|].
    assert (buckets = {[ 14 := commandsAt 14 entries ]}) as ->.
    { apply map_eq. intros hour. rewrite Hbuckets.
      destruct (decide (hour = 14)) as [->|Hhour].
      - rewrite lookup_singleton_eq, commandsAt_all by done.
        destruct entries; [done|]. by cbn.
      - rewrite lookup_singleton_ne by done.
        destruct (Z.ltb_spec 0 (commandsAt hour entries)) as [Hpos|]; [|done].
        exfalso. clear -Hpos Hall Hhour.
        induction Hall as [|e entries He _ IH]; [cbn in Hpos; lia|].
        cbn [commandsAt] in Hpos. rewrite He in Hpos.
        destruct (Z.eqb_spec 14 hour); [done|]. apply IH. lia. }
    apply getPeakHours_singleton.
Qed.

(** Commands stamped at given hours of the day. *)
Definition stampedAt (hours : list Z) : list CommandEntry :=
  (λ hour, {| Command := "ls";
              Timestamp := {| time.unixSec := hour * 3600 + 30;
                              time.zoneOffset := 0 |};
              Count := 0; Categories := ["file"] |}) <$> hours.

(** One command in hour 3 and one in hour 5: the visit of the buckets
    meets hour 5 first, the sort keeps the two in that order (a slice of
    two elements is sorted by insertion), and hour 5 is returned before
    the lower hour 3. *)
Example C7_tie_not_broken_by_lower_hour :
  let tod : gmap Z Z := {[ 3 := 1; 5 := 1 ]} in
  timeOfDay (countUsage (rt := insertionRuntime) tieHost ∅ (stampedAt [3; 5])) = tod
  ∧ mapRange (GoRuntime := insertionRuntime) tod = [(5, 1); (3, 1)]
  ∧ getPeakHours (rt := insertionRuntime) tod = [5; 3]
  ∧ PeakHours (Patterns (Insights
      (analyzeCommands (rt := insertionRuntime) tieHost (stampedAt [3; 5])
         initShellData))) = [5; 3].
Proof. vm_compute. done. Qed.

(** Three commands in hour 14 give [14].  Of eight commands, four in
    hour 9 and one in each of the hours 1 to 4, the bucket of hour 9
    holds 4 and hour 9 is the first peak hour. *)
Example C7_three_commands_at_14 :
  PeakHours (Patterns (Insights
    (analyzeCommands (rt := insertionRuntime) tieHost (stampedAt [14; 14; 14])
       initShellData))) = [14]
  ∧ timeOfDay (countUsage (rt := insertionRuntime) tieHost
                 (getInstalledLanguages (rt := insertionRuntime) tieHost)
                 (stampedAt [9; 1; 9; 2; 9; 3; 9; 4])) !! 9 = Some 4
  ∧ head (PeakHours (Patterns (Insights
      (analyzeCommands (rt := insertionRuntime) tieHost
         (stampedAt [9; 1; 9; 2; 9; 3; 9; 4]) initShellData)))) = Some 9.
Proof.
  split_and!.
  - apply (C7_getPeakHours_top_three (rt := insertionRuntime) tieHost
             (stampedAt [14; 14; 14]) initShellData).
    + vm_compute. discriminate.
    + done.
    + repeat constructor.
  - etrans.
    + apply (C7_getPeakHours_top_three (rt := insertionRuntime) tieHost
               (stampedAt [9; 1; 9; 2; 9; 3; 9; 4]) initShellData).
      vm_compute. discriminate.
    + reflexivity.
  - vm_compute. reflexivity.
Defined.

(** ** The installed-tool catalog *)

(** A loop that stores a value for the entries that have one. *)
Lemma foldl_insert_opt_list `{Countable K} {V W : Type} (f : V → option W)
    (l : list (K * V)) (m : gmap K W) (k : K) :
  NoDup l.*1 →
  foldl (λ m '(k, v), match f v with Some w => <[k := w]> m | None => m end) m l
    !! k
  = match (list_to_map l : gmap K V) !! k with
    | Some v => match f v with Some w => Some w | None => m !! k end
    | None => m !! k
    end.
Proof.
  revert m. induction l as [|[k0 v0] l IH]; intros m Hnd; [done|].
  rewrite fmap_cons, NoDup_cons in Hnd. destruct Hnd as [Hk0 Hnd].
  cbn [foldl]. rewrite IH by done.
  cbn [list_to_map foldr uncurry fst snd] in *.
  destruct (decide (k = k0)) as [Heq|Hne]; [subst k|].
  - rewrite (not_elem_of_list_to_map_1 _ _ Hk0), lookup_insert_eq.
    destruct (f v0); [by rewrite lookup_insert_eq|done].
  - rewrite lookup_insert_ne by done.
    assert (match f v0 with Some w => <[k0:=w]> m | None => m end !! k = m !! k)
      as ->; [|done].
    destruct (f v0); [by rewrite lookup_insert_ne|done].
Qed.

(** A loop that stores, for each element, a value that its key
    determines. *)
Lemma foldl_insert_keyed `{Countable K} {A W : Type} (key : A → K) (g : K → W)
    (l : list A) (m : gmap K W) (k : K) :
  foldl (λ m e, <[key e := g (key e)]> m) m l !! k
  = if bool_decide (k ∈ key <$> l) then Some (g k) else m !! k.
Proof.
  revert m. induction l as [|e l IH]; intros m; [done|].
  cbn [foldl]. rewrite IH, fmap_cons.
  destruct (decide (k ∈ key <$> l)) as [Hin|Hnin].
  - rewrite !bool_decide_eq_true_2; [done|by right|done].
  - rewrite (bool_decide_eq_false_2 _ Hnin).
    destruct (decide (k = key e)) as [->|Hne].
    + rewrite bool_decide_eq_true_2 by left. by rewrite lookup_insert_eq.
    + rewrite bool_decide_eq_false_2, lookup_insert_ne; [done..|].
      by intros [?|?]%elem_of_cons.
Qed.

Section Catalog.

Context `{rt : GoRuntime}.

Context (h : Host).

(** A tool is installed when its probe command succeeds. *)
Lemma probeInstalled_lookup (lang : string) :
  probeInstalled h !! lang = languages !! lang ≫= Output h.
Proof.
  unfold probeInstalled.
  rewrite (foldl_insert_opt_list (Output h)) by apply mapRange_NoDup_fst.
  rewrite list_to_map_mapRange.
  destruct (languages !! lang) as [cmd|]; [|done]. cbn.
  by destruct (Output h cmd).
Qed.

(** The names in the slice that [getInstalledLanguages] sorts. *)
Lemma usageList_names :
  name <$> sortSlice (λ a b, (usageCount b <? usageCount a)%Z)
             ((λ '(name, _), {| name := name; usageCount := 0 |})
                <$> mapRange (probeInstalled h))
  ≡ₚ (mapRange (probeInstalled h)).*1.
Proof.
  rewrite sortSlice_perm, <- list_fmap_compose.
  assert (∀ l : list (string * string),
    (name ∘ (λ '(name, _), {| name := name; usageCount := 0 |})) <$> l = l.*1)
    as ->; [|done].
  intros l. apply list_fmap_ext. by intros _ [k v] _.
Qed.

(** The tools kept are installed tools. *)
Lemma getInstalledLanguages_installed (lang out : string) :
  getInstalledLanguages h !! lang = Some out → probeInstalled h !! lang = Some out.
Proof.
  unfold getInstalledLanguages.
  rewrite (foldl_insert_keyed name (getStr (probeInstalled h))).
  case_bool_decide as Hin; [|by rewrite lookup_empty].
  intros [= <-]. rewrite fmap_take in Hin.
  pose proof (elem_of_sublist _ _ _ Hin (sublist_take _ _)) as Hin'.
  rewrite usageList_names, list_elem_of_fmap in Hin'.
  destruct Hin' as ([k v] & -> & Hkv). apply elem_of_mapRange in Hkv.
  cbn [fst]. unfold getStr. by rewrite Hkv.
Qed.

(** When at most ten tools are installed, all of them are kept. *)
Lemma getInstalledLanguages_small :
  (size (probeInstalled h) ≤ 10)%nat →
  getInstalledLanguages h = probeInstalled h.
Proof.
  intros Hsize. apply map_eq. intros lang. unfold getInstalledLanguages.
  rewrite (foldl_insert_keyed name (getStr (probeInstalled h))).
  rewrite take_ge.
  2:{ rewrite (Permutation_length (sortSlice_perm _ _)), length_fmap.
      by rewrite (mapRange_perm (probeInstalled h)), length_map_to_list. }
  rewrite lookup_empty. case_bool_decide as Hin.
  - rewrite usageList_names, list_elem_of_fmap in Hin.
    destruct Hin as ([k v] & -> & Hkv). apply elem_of_mapRange in Hkv.
    cbn [fst]. unfold getStr. by rewrite Hkv.
  - destruct (probeInstalled h !! lang) as [out|] eqn:Hlang; [|done].
    destruct Hin. rewrite usageList_names, list_elem_of_fmap.
    exists (lang, out). split; [done|]. by apply elem_of_mapRange.
Qed.

(** A tool that is not in the catalog kept for the pass gets no count. *)
Lemma langUsage_not_installed (langs : gmap string string)
    (entries : list CommandEntry) (lang : string) :
  langs !! lang = None → langUsage (countUsage h langs entries) !! lang = None.
Proof.
  intros Hlang. unfold countUsage. rewrite langUsage_foldl. cbn [langUsage].
  assert (∀ m : gmap string Z, m !! lang = None →
    foldl (λ m e, countLanguages langs (Command e) m) m entries !! lang = None)
    as Hloop; [|by apply Hloop].
  induction entries as [|e entries IH]; intros m Hm; [done|].
  cbn [foldl]. apply IH. rewrite countLanguages_lookup, Hlang.
  by rewrite bool_decide_eq_false_2 by by intros [? ?].
Qed.

(** A tool that [LookPath] does not find gets no count. *)
Lemma toolUsage_not_installed (langs : gmap string string)
    (entries : list CommandEntry) (tool : string) :
  checkToolInstalled h tool = false →
  toolUsage (countUsage h langs entries) !! tool = None.
Proof.
  intros Htool. unfold countUsage. rewrite toolUsage_foldl. cbn [toolUsage].
  assert (∀ m : gmap string Z, m !! tool = None →
    foldl (λ m e, countTools h (Command e) m) m entries !! tool = None)
    as Hloop; [|by apply Hloop].
  induction entries as [|e entries IH]; intros m Hm; [done|].
  cbn [foldl]. apply IH. rewrite countTools_lookup. unfold usesTool.
  by rewrite Htool, !andb_false_r.
Qed.

(** An installed language that has no package manager in
    [getPackageManager]'s table is counted for every command: the table
    gives the empty string, which every command contains. *)
Lemma countLanguages_no_package_manager (langs : gmap string string)
    (lang cmd : string) (usage : gmap string Z) :
  is_Some (langs !! lang) → packageManagers !! lang = None →
  usesLanguage lang cmd = true
  ∧ countLanguages langs cmd usage !! lang = Some (incr (getInt usage lang)).
Proof.
  intros Hlang Hpm.
  assert (usesLanguage lang cmd = true) as Huses.
  { unfold usesLanguage, getPackageManager, getStr. rewrite Hpm. cbn [default].
    apply orb_true_iff. right. unfold strings.Contains.
    apply bool_decide_eq_true. by destruct cmd. }
  split; [done|]. rewrite countLanguages_lookup, Huses.
  by rewrite bool_decide_eq_true_2.
Qed.

End Catalog.

(** A host on which [java] is the only tool of the catalog. *)
Definition javaHost : Host :=
  {| UserHomeDir := None; Join a b := b; Base p := p; Open p := None;
     Now p i := {| time.unixSec := 0; time.zoneOffset := 0 |};
     Stat p := None; ReadFile p := None; ReadDir p := None;
     Output c := if String.eqb c "java -version" then Some "openjdk 21" else None;
     LookPath t := false |}.

Definition lsEntry : CommandEntry :=
  {| Command := "ls"; Timestamp := {| time.unixSec := 0; time.zoneOffset := 0 |};
     Count := 0; Categories := ["file"] |}.

Lemma probeInstalled_javaHost `{rt : GoRuntime} :
  probeInstalled javaHost = {[ "java" := "openjdk 21" ]}.
Proof.
  apply map_eq. intros lang. rewrite probeInstalled_lookup.
  destruct (languages !! lang) as [cmd|] eqn:Hlang.
  - apply elem_of_map_to_list, list_elem_of_In in Hlang.
    assert (forallb (λ '(l, c),
      bool_decide (Output javaHost c = ({[ "java" := "openjdk 21" ]} : gmap string string) !! l))
      (map_to_list languages) = true) as Hall by (vm_compute; reflexivity).
    rewrite forallb_forall in Hall. apply Hall in Hlang.
    by apply bool_decide_eq_true in Hlang.
  - cbn. destruct (decide (lang = "java")) as [->|Hne]; [done|].
    by rewrite lookup_singleton_ne.
Qed.

(** C5 fails on the code.  On a host where [java] is installed, the
    command [ls] is counted as a use of [java], though it contains
    neither the name [java] nor a package-manager alias of it: [java] has
    none, and the empty string that stands for it is contained in every
    command.  The pass then reports a proficiency of 1 for [java] and
    the primary role [Java Developer].  This happens for every installed
    tool without a package manager, on every command.  (Tools that are
    not installed do get no count.) *)
Theorem C5_ls_is_counted_as_java `{rt : GoRuntime} :
  strings.Contains "ls" "java" = false
  ∧ packageManagers !! "java" = None
  ∧ getInstalledLanguages javaHost = {[ "java" := "openjdk 21" ]}
  ∧ langUsage (countUsage javaHost (getInstalledLanguages javaHost) [lsEntry])
    = {[ "java" := 1 ]}
  ∧ proficiencyOf (analyzeCommands javaHost [lsEntry] initShellData) !! "java"
    = Some (Q2Qc 1)
  ∧ primaryRoleOf (analyzeCommands javaHost [lsEntry] initShellData)
    = "Java Developer"
  ∧ (∀ langs lang cmd usage,
       is_Some (langs !! lang) → packageManagers !! lang = None →
       usesLanguage lang cmd = true
       ∧ countLanguages langs cmd usage !! lang = Some (incr (getInt usage lang)))
  ∧ (∀ h langs entries lang,
       langs !! lang = None →
       langUsage (countUsage h langs entries) !! lang = None)
  ∧ (∀ h langs entries tool,
       checkToolInstalled h tool = false →
       toolUsage (countUsage h langs entries) !! tool = None).
Proof.
  assert (getInstalledLanguages javaHost = {[ "java" := "openjdk 21" ]}) as Hjava.
  { rewrite getInstalledLanguages_small; rewrite probeInstalled_javaHost; [done|].
    rewrite map_size_singleton. lia. }
  assert (langUsage (countUsage javaHost (getInstalledLanguages javaHost) [lsEntry])
          = {[ "java" := 1 ]}) as Husage.
  { rewrite Hjava. apply map_eq. intros lang.
    rewrite langUsage_countUsage by (by vm_compute).
    destruct (decide (lang = "java")) as [->|Hne]; [done|].
    rewrite !lookup_singleton_ne by done.
    by rewrite bool_decide_eq_false_2 by by intros [? ?]. }
  split_and!; [done|done|done|done| | |
               apply @countLanguages_no_package_manager
               |apply @langUsage_not_installed|apply @toolUsage_not_installed].
  - rewrite proficiencyOf_lookup by (cbn; lia).
    rewrite toolUsage_not_installed by done. rewrite Husage.
    rewrite lookup_singleton_eq. f_equal; by apply Qc_is_canon.
  - rewrite primaryRoleOf_analyzeCommands, Husage.
    unfold getMostUsed. by rewrite mapRange_singleton.
Qed.

(** ** The loop over the shells *)

(** A loop that stores a value under the key of each entry that yields
    one. *)
Lemma foldl_insert_keyed_opt `{Countable K} {V W : Type} (f : K → V → option W)
    (l : list (K * V)) (m : gmap K W) (k : K) :
  NoDup l.*1 →
  foldl (λ m '(k, v), match f k v with Some w => <[k := w]> m | None => m end) m l
    !! k
  = match (list_to_map l : gmap K V) !! k with
    | Some v => match f k v with Some w => Some w | None => m !! k end
    | None => m !! k
    end.
Proof.
  revert m. induction l as [|[k0 v0] l IH]; intros m Hnd; [done|].
  rewrite fmap_cons, NoDup_cons in Hnd. destruct Hnd as [Hk0 Hnd].
  cbn [foldl]. rewrite IH by done.
  cbn [list_to_map foldr uncurry fst snd] in *.
  destruct (decide (k = k0)) as [Heq|Hne]; [subst k|].
  - rewrite (not_elem_of_list_to_map_1 _ _ Hk0), lookup_insert_eq.
    destruct (f k0 v0); [by rewrite lookup_insert_eq|done].
  - rewrite lookup_insert_ne by done.
    assert (match f k0 v0 with Some w => <[k0:=w]> m | None => m end !! k
            = m !! k) as ->; [|done].
    destruct (f k0 v0); [by rewrite lookup_insert_ne|done].
Qed.

Section Shells.

Context `{rt : GoRuntime}.

Context (h : Host).

(** The history kept for a shell whose history file is at [path]. *)
Definition historyAt (path : string) : option (list CommandEntry) :=
  match readHistory h (expandPath h path) with
  | (history, None) => Some history
  | (_, Some _) => None
  end.

(** The configuration kept for a shell whose history file is at [path]. *)
Definition configAt (shell path : string) : option ShellConfig :=
  match historyAt path with
  | Some _ => Some (analyzeShellConfigs h shell)
  | None => None
  end.

Lemma Histories_analyzeShell (data : ShellData) (shell path : string) :
  Histories (analyzeShell h data (shell, path))
  = match historyAt path with
    | Some history => <[shell := history]> (Histories data)
    | None => Histories data
    end.
Proof.
  unfold analyzeShell, historyAt.
  by destruct (readHistory h (expandPath h path)) as [history [err|]].
Qed.

Lemma ShellConfigs_analyzeShell (data : ShellData) (shell path : string) :
  ShellConfigs (analyzeShell h data (shell, path))
  = match historyAt path with
    | Some _ => <[shell := analyzeShellConfigs h shell]> (ShellConfigs data)
    | None => ShellConfigs data
    end.
Proof.
  unfold analyzeShell, historyAt.
  by destruct (readHistory h (expandPath h path)) as [history [err|]].
Qed.

Lemma Histories_foldl (l : list (string * string)) (data : ShellData) :
  Histories (foldl (analyzeShell h) data l)
  = foldl (λ m '(shell, path),
             match historyAt path with
             | Some history => <[shell := history]> m
             | None => m
             end) (Histories data) l.
Proof.
  revert data. induction l as [|[shell path] l IH]; intros data; [done|].
  cbn [foldl]. by rewrite IH, Histories_analyzeShell.
Qed.

Lemma ShellConfigs_foldl (l : list (string * string)) (data : ShellData) :
  ShellConfigs (foldl (analyzeShell h) data l)
  = foldl (λ m '(shell, path),
             match configAt shell path with
             | Some config => <[shell := config]> m
             | None => m
             end) (ShellConfigs data) l.
Proof.
  revert data. induction l as [|[shell path] l IH]; intros data; [done|].
  cbn [foldl]. rewrite IH, ShellConfigs_analyzeShell. unfold configAt.
  by destruct (historyAt path).
Qed.

(** The snapshot holds, for each shell, what reading that shell's own
    history gave: its commands and its configuration when the history
    could be read, and nothing otherwise. *)
Lemma Histories_analyzeShells (shell : string) :
  Histories (analyzeShells h) !! shell = shellPaths !! shell ≫= historyAt.
Proof.
  unfold analyzeShells. rewrite Histories_foldl.
  rewrite (foldl_insert_keyed_opt (λ _ path, historyAt path))
    by apply mapRange_NoDup_fst.
  rewrite list_to_map_mapRange.
  destruct (shellPaths !! shell) as [path|]; [|done]. cbn.
  by destruct (historyAt path).
Qed.

Lemma ShellConfigs_analyzeShells (shell : string) :
  ShellConfigs (analyzeShells h) !! shell
  = shellPaths !! shell ≫= configAt shell.
Proof.
  unfold analyzeShells. rewrite ShellConfigs_foldl.
  rewrite (foldl_insert_keyed_opt configAt) by apply mapRange_NoDup_fst.
  rewrite list_to_map_mapRange.
  destruct (shellPaths !! shell) as [path|]; [|done]. cbn.
  by destruct (configAt shell path).
Qed.

Lemma historyAt_unopened (path : string) :
  Open h (expandPath h path) = None → historyAt path = None.
Proof. intros Hopen. unfold historyAt, readHistory. by rewrite Hopen. Qed.

End Shells.

(** C9. A shell whose history file cannot be opened (or whose scan fails)
    has no entry in the histories and none in the shell configurations of
    the snapshot.  The entry of every shell is what reading that shell's
    own history gives, so the entries of the other shells are the same as
    on a host that differs only in the missing history. *)
Theorem C9_unreadable_history_is_absent `{rt : GoRuntime} (h : Host) (shell : string) :
  Histories (analyzeShells h) !! shell = shellPaths !! shell ≫= historyAt h
  ∧ ShellConfigs (analyzeShells h) !! shell = shellPaths !! shell ≫= configAt h shell
  ∧ (∀ path, shellPaths !! shell = Some path →
       Open h (expandPath h path) = None →
       Histories (analyzeShells h) !! shell = None
       ∧ ShellConfigs (analyzeShells h) !! shell = None)
  ∧ (∀ h',
       (∀ other path, other ≠ shell → shellPaths !! other = Some path →
          readHistory h' (expandPath h' path) = readHistory h (expandPath h path)
          ∧ analyzeShellConfigs h' other = analyzeShellConfigs h other) →
       ∀ other, other ≠ shell →
         Histories (analyzeShells h') !! other = Histories (analyzeShells h) !! other
         ∧ ShellConfigs (analyzeShells h') !! other
           = ShellConfigs (analyzeShells h) !! other).
Proof.
  split_and!.
  - apply Histories_analyzeShells.
  - apply ShellConfigs_analyzeShells.
  - intros path Hpath Hopen.
    rewrite Histories_analyzeShells, ShellConfigs_analyzeShells, Hpath. cbn.
    unfold configAt. by rewrite historyAt_unopened.
  - intros h' Hsame other Hother.
    rewrite !Histories_analyzeShells, !ShellConfigs_analyzeShells.
    destruct (shellPaths !! other) as [path|] eqn:Hpath; [|done]. cbn.
    destruct (Hsame other path Hother Hpath) as [Hread Hconfig].
    unfold configAt, historyAt. by rewrite Hread, Hconfig.
Qed.

(** On [tieHost] only the bash history exists: the snapshot has an entry
    for bash and none for zsh. *)
Example C9_zsh_history_missing :
  (Histories (analyzeShells (rt := insertionRuntime) tieHost) !! "zsh" = None
   ∧ ShellConfigs (analyzeShells (rt := insertionRuntime) tieHost) !! "zsh" = None)
  ∧ (fmap (M := list) Command
       <$> Histories (analyzeShells (rt := insertionRuntime) tieHost)
      : gmap string (list string))
    = {[ "bash" := ["go"; "python"] ]}.
Proof.
  split.
  - apply (proj1 (proj2 (proj2
      (C9_unreadable_history_is_absent (rt := insertionRuntime) tieHost "zsh")))
      "~/.zsh_history"); reflexivity.
  - vm_compute. reflexivity.
Defined.

(** ** What a pass replaces and what it keeps *)

Section Replace.

Context `{rt : GoRuntime}.

Context (h : Host).

(** The tech stack, the peak hours and the productivity map after a pass
    do not depend on the snapshot the pass started from. *)
Lemma analyzeCommands_replaces (entries : list CommandEntry)
    (data1 data2 : ShellData) :
  techStackOf (analyzeCommands h entries data1)
  = techStackOf (analyzeCommands h entries data2)
  ∧ peakHoursOf (analyzeCommands h entries data1)
    = peakHoursOf (analyzeCommands h entries data2)
  ∧ productivityOf (analyzeCommands h entries data1)
    = productivityOf (analyzeCommands h entries data2).
Proof.
  by rewrite !techStackOf_analyzeCommands, !peakHoursOf_analyzeCommands,
    !productivityOf_analyzeCommands.
Qed.

Lemma Insights_analyzeShell_ok (data : ShellData) (shell path : string)
    (history : list CommandEntry) :
  readHistory h (expandPath h path) = (history, None) →
  Insights (analyzeShell h data (shell, path))
  = Insights (analyzeCommands h history (setHistory shell history data)).
Proof. intros Hread. unfold analyzeShell. by rewrite Hread. Qed.

Lemma analyzeShell_failed (data : ShellData) (shell path : string) :
  (readHistory h (expandPath h path)).2 ≠ None →
  analyzeShell h data (shell, path) = data.
Proof.
  intros Hread. unfold analyzeShell.
  by destruct (readHistory h (expandPath h path)) as [history [err|]].
Qed.

Lemma foldl_analyzeShell_failed (post : list (string * string)) (data : ShellData) :
  Forall (λ e, (readHistory h (expandPath h e.2)).2 ≠ None) post →
  foldl (analyzeShell h) data post = data.
Proof.
  induction 1 as [|[shell path] post Hread Hpost IH]; [done|].
  cbn [foldl]. by rewrite analyzeShell_failed.
Qed.

(** After the run, the three fields are those of a pass over the last
    history that could be read, started from a fresh snapshot. *)
Lemma analyzeShells_last_shell (pre post : list (string * string))
    (shell path : string) (history : list CommandEntry) :
  mapRange shellPaths = pre ++ (shell, path) :: post →
  readHistory h (expandPath h path) = (history, None) →
  Forall (λ e, (readHistory h (expandPath h e.2)).2 ≠ None) post →
  techStackOf (analyzeShells h)
  = techStackOf (analyzeCommands h history initShellData)
  ∧ peakHoursOf (analyzeShells h)
    = peakHoursOf (analyzeCommands h history initShellData)
  ∧ productivityOf (analyzeShells h)
    = productivityOf (analyzeCommands h history initShellData).
Proof.
  intros Horder Hread Hpost. unfold analyzeShells.
  rewrite Horder, foldl_app. cbn [foldl].
  rewrite foldl_analyzeShell_failed by done.
  unfold techStackOf, peakHoursOf, productivityOf.
  rewrite (Insights_analyzeShell_ok _ _ _ _ Hread).
  apply analyzeCommands_replaces.
Qed.

End Replace.

(** C10. A pass sets the tech stack, the peak hours and the productivity
    map from its own commands alone, whatever the snapshot held; it
    writes the proficiency map key by key, and a key it does not write
    keeps the value of an earlier pass.  After a run over several shells
    the first three fields are those of the last shell whose history
    could be read. *)
Theorem C10_pass_replaces_fields_keeps_proficiency `{rt : GoRuntime} (h : Host) :
  (∀ entries data1 data2,
     techStackOf (analyzeCommands h entries data1)
     = techStackOf (analyzeCommands h entries data2)
     ∧ peakHoursOf (analyzeCommands h entries data1)
       = peakHoursOf (analyzeCommands h entries data2)
     ∧ productivityOf (analyzeCommands h entries data1)
       = productivityOf (analyzeCommands h entries data2))
  ∧ (∀ entries data k,
       toolUsage (countUsage h (getInstalledLanguages h) entries) !! k = None →
       langUsage (countUsage h (getInstalledLanguages h) entries) !! k = None →
       proficiencyOf (analyzeCommands h entries data) !! k
       = proficiencyOf data !! k)
  ∧ (∀ pre post shell path history,
       mapRange shellPaths = pre ++ (shell, path) :: post →
       readHistory h (expandPath h path) = (history, None) →
       Forall (λ e, (readHistory h (expandPath h e.2)).2 ≠ None) post →
       techStackOf (analyzeShells h)
       = techStackOf (analyzeCommands h history initShellData)
       ∧ peakHoursOf (analyzeShells h)
         = peakHoursOf (analyzeCommands h history initShellData)
       ∧ productivityOf (analyzeShells h)
         = productivityOf (analyzeCommands h history initShellData)).
Proof.
  split_and!.
  - apply analyzeCommands_replaces.
  - intros entries data k Htool Hlang. destruct entries as [|e entries].
    + by rewrite proficiencyOf_analyzeCommands.
    + rewrite proficiencyOf_lookup by (cbn; lia). by rewrite Htool, Hlang.
  - apply analyzeShells_last_shell.
Qed.

(** A host with [python] installed, whose zsh history holds [pip] and
    whose bash history holds [ls]. *)
Definition twoShellHost : Host :=
  {| UserHomeDir := None; Join a b := b; Base p := p;
     Open p := if String.eqb p "~/.zsh_history" then Some "pip"
               else if String.eqb p "~/.bash_history" then Some "ls"
               else None;
     Now p i := {| time.unixSec := 9 * 3600; time.zoneOffset := 0 |};
     Stat p := None; ReadFile p := None; ReadDir p := None;
     Output c := if String.eqb c "python --version" then Some "Python 3" else None;
     LookPath t := false |}.

(** The run visits zsh before bash.  The tech stack [python] of the zsh
    pass is gone after the bash pass, and the productivity map is that
    of the bash pass; the proficiency of [python] recorded by the zsh
    pass is still there. *)
Example C10_bash_after_zsh :
  mapRange (GoRuntime := insertionRuntime) shellPaths
  = [ ("fish", "~/.local/share/fish/fish_history"); ("zsh", "~/.zsh_history");
      ("bash", "~/.bash_history") ]
  ∧ techStackOf (analyzeCommands (rt := insertionRuntime) twoShellHost
      (readHistory (rt := insertionRuntime) twoShellHost "~/.zsh_history").1
      initShellData) = ["python"]
  ∧ techStackOf (analyzeShells (rt := insertionRuntime) twoShellHost) = []
  ∧ productivityOf (analyzeShells (rt := insertionRuntime) twoShellHost)
    = productivityOf (analyzeCommands (rt := insertionRuntime) twoShellHost
        (readHistory (rt := insertionRuntime) twoShellHost "~/.bash_history").1
        initShellData)
  ∧ proficiencyOf (analyzeShells (rt := insertionRuntime) twoShellHost) !! "python"
    = Some (Q2Qc 1).
Proof.
  pose proof (proj2 (proj2 (C10_pass_replaces_fields_keeps_proficiency
    (rt := insertionRuntime) twoShellHost))
    [ ("fish", "~/.local/share/fish/fish_history"); ("zsh", "~/.zsh_history") ]
    [] "bash" "~/.bash_history"
    (readHistory (rt := insertionRuntime) twoShellHost "~/.bash_history").1)
    as Hlast.
  destruct Hlast as (Hstack & _ & Hprod);
    [vm_compute; reflexivity|vm_compute; reflexivity|constructor|].
  split_and!.
  - vm_compute. reflexivity.
  - vm_compute. reflexivity.
  - rewrite Hstack. vm_compute. reflexivity.
  - exact Hprod.
  - vm_compute. reflexivity.
Defined.

(** ** The primary role after a run *)

(** The role that the pass over the history at [path] names: none when
    the history cannot be read, and none when the pass counts no tool. *)
Definition passRole `{rt : GoRuntime} (h : Host) (path : string) : option string :=
  match readHistory h (expandPath h path) with
  | (history, None) =>
      match getMostUsed (langUsage (countUsage h (getInstalledLanguages h) history)) with
      | (primaryLang, true) => Some (strings.Title primaryLang +:+ " Developer")
      | (_, false) => None
      end
  | (_, Some _) => None
  end.

Section RunRole.

Context `{rt : GoRuntime}.

Context (h : Host).

(** A key that [getMostUsed] returns has a positive count, and no count
    is larger. *)
Lemma getMostUsed_true (usage : gmap string Z) (k : string) :
  getMostUsed usage = (k, true) →
  ∃ v, usage !! k = Some v ∧ 0 < v ∧ ∀ k' v', usage !! k' = Some v' → v' ≤ v.
Proof.
  unfold getMostUsed.
  destruct (getMostUsed_loop (mapRange usage) EmptyString 0)
    as (k1 & v & -> & Hall & Hcase).
  intros [= -> Hv]. apply Z.ltb_lt in Hv. rewrite Forall_forall in Hall.
  destruct Hcase as [[_ ->]|(_ & l1 & l2 & Heq & _)]; [lia|].
  exists v. split_and!; [|done|].
  - apply elem_of_mapRange. rewrite Heq, elem_of_app. right. left.
  - intros k' v' Hk'. by apply elem_of_mapRange, Hall in Hk'.
Qed.

Lemma primaryRoleOf_analyzeShell (data : ShellData) (shell path : string) :
  primaryRoleOf (analyzeShell h data (shell, path))
  = default (primaryRoleOf data) (passRole h path).
Proof.
  unfold passRole.
  destruct (readHistory h (expandPath h path)) as [history [err|]] eqn:Hread.
  - rewrite analyzeShell_failed; [done|]. by rewrite Hread.
  - unfold primaryRoleOf at 1.
    rewrite (Insights_analyzeShell_ok h data shell path history Hread).
    fold (primaryRoleOf (analyzeCommands h history (setHistory shell history data))).
    rewrite primaryRoleOf_analyzeCommands.
    by destruct (getMostUsed _) as [primaryLang [|]].
Qed.

Lemma primaryRoleOf_foldl (l : list (string * string)) (data : ShellData) :
  primaryRoleOf (foldl (analyzeShell h) data l)
  = default (primaryRoleOf data) (last (omap (λ e, passRole h e.2) l)).
Proof.
  revert data. induction l as [|[shell path] l IH]; intros data; [done|].
  cbn [foldl omap list_omap snd]. rewrite IH, primaryRoleOf_analyzeShell.
  destruct (passRole h path) as [role|]; [|done]. cbn [default from_option id].
  rewrite last_cons. by destruct (last _).
Qed.

(** After a run the role is the one named by the last shell visited
    whose pass names one. *)
Lemma primaryRoleOf_analyzeShells :
  primaryRoleOf (analyzeShells h)
  = default EmptyString (last (omap (λ e, passRole h e.2) (mapRange shellPaths))).
Proof. unfold analyzeShells. by rewrite primaryRoleOf_foldl. Qed.

End RunRole.

(** C6, as the code has it.  [getMostUsed] returns a key of largest
    count when some count is positive: among keys of equal largest count
    the one that the visit of the map meets first; with no positive
    count it returns no key.  A pass makes the primary role of the key
    returned for its own counts, and keeps the role as it was when no
    key is returned.  The passes of a run follow one another, one per
    shell whose history can be read, so after a run the role is the one
    named by the last shell visited whose pass names one (the tool of
    largest count in that shell's history alone, whatever the other
    histories hold), and it is empty when no pass names one.  Which key a
    visit meets first, and which shell is visited last, is the run-time's
    choice. *)
Theorem C6_getMostUsed_first_largest `{rt : GoRuntime}
    (h : Host) (entries : list CommandEntry) (data : ShellData)
    (usage : gmap string Z) :
  ((∃ k0 v0, usage !! k0 = Some v0 ∧ 0 < v0) →
     ∃ k v l1 l2,
       getMostUsed usage = (k, true)
       ∧ usage !! k = Some v ∧ 0 < v
       ∧ (∀ k' v', usage !! k' = Some v' → v' ≤ v)
       ∧ mapRange usage = l1 ++ (k, v) :: l2
       ∧ Forall (λ e, e.2 < v) l1)
  ∧ ((∀ k v, usage !! k = Some v → v ≤ 0) →
       getMostUsed usage = (EmptyString, false))
  ∧ primaryRoleOf (analyzeCommands h entries data)
    = match getMostUsed (langUsage (countUsage h (getInstalledLanguages h) entries)) with
      | (primaryLang, true) => strings.Title primaryLang +:+ " Developer"
      | (_, false) => primaryRoleOf data
      end
  ∧ primaryRoleOf initShellData = EmptyString
  ∧ primaryRoleOf (analyzeShells h)
    = default EmptyString (last (omap (λ e, passRole h e.2) (mapRange shellPaths)))
  ∧ (∀ pre shell path post role,
       mapRange shellPaths = pre ++ (shell, path) :: post →
       passRole h path = Some role →
       Forall (λ e, passRole h e.2 = None) post →
       primaryRoleOf (analyzeShells h) = role
       ∧ ∃ history lang count,
           readHistory h (expandPath h path) = (history, None)
           ∧ role = strings.Title lang +:+ " Developer"
           ∧ langUsage (countUsage h (getInstalledLanguages h) history) !! lang
             = Some count
           ∧ 0 < count
           ∧ ∀ lang' count',
               langUsage (countUsage h (getInstalledLanguages h) history) !! lang'
               = Some count' → count' ≤ count)
  ∧ ((∀ shell path, shellPaths !! shell = Some path → passRole h path = None) →
       primaryRoleOf (analyzeShells h) = EmptyString).
Proof.
  split_and!.
  - intros (k0 & v0 & Hk0 & Hv0). by eapply getMostUsed_positive.
  - apply getMostUsed_none.
  - apply primaryRoleOf_analyzeCommands.
  - done.
  - apply primaryRoleOf_analyzeShells.
  - intros pre shell path post role Hrange Hrole Hpost.
    rewrite primaryRoleOf_analyzeShells, Hrange, omap_app. cbn [omap list_omap snd].
    rewrite Hrole.
    assert (omap (λ e, passRole h e.2) post = []) as ->.
    { clear Hrange. induction Hpost as [|e post He _ IH]; [done|].
      cbn [omap list_omap]. rewrite He. exact IH. }
    rewrite last_snoc. split; [done|]. unfold passRole in Hrole.
    destruct (readHistory h (expandPath h path)) as [history [err|]]; [done|].
    destruct (getMostUsed _) as [lang [|]] eqn:Hget; [|done].
    injection Hrole as <-. apply getMostUsed_true in Hget as (count & ? & ? & ?).
    by exists history, lang, count.
  - intros Hnone. rewrite primaryRoleOf_analyzeShells.
    assert (omap (λ e, passRole h e.2) (mapRange shellPaths) = []) as ->; [|done].
    assert (Forall (λ e : string * string, passRole h e.2 = None)
              (mapRange shellPaths)) as Hall.
    { apply Forall_forall. intros [shell path] Hin%elem_of_mapRange.
      by apply (Hnone shell). }
    induction Hall as [|e l He _ IH]; [done|]. cbn [omap list_omap].
    rewrite He. exact IH.
Qed.

(** A host with [go] and [python] installed, whose zsh history holds
    [python] three times and whose bash history holds [go] once. *)
Definition sessionHost : Host :=
  {| UserHomeDir := None; Join a b := b; Base p := p;
     Open p := if String.eqb p "~/.zsh_history"
               then Some ("python" +:+ String bufio.newline
                            ("python" +:+ String bufio.newline "python"))
               else if String.eqb p "~/.bash_history" then Some "go"
               else None;
     Now p i := {| time.unixSec := 0; time.zoneOffset := 0 |};
     Stat p := None; ReadFile p := None; ReadDir p := None;
     Output c := if String.eqb c "go version" then Some "go1.22"
                 else if String.eqb c "python --version" then Some "Python 3"
                 else None;
     LookPath t := false |}.

(** Over the session of [sessionHost], [python] is counted three times
    and [go] once.  The run that visits zsh before bash ends with the
    role [Go Developer]: the role is that of the last pass, not of the
    largest count of the session.  The run that visits the shells in
    the other order ends with [Python Developer].  On [twoShellHost],
    the bash pass counts nothing and the role the zsh pass named stays.
    And for one map, [go] and [python] both used twice, visited in two
    orders, [getMostUsed] returns different keys, so that two runs of
    the analysis on the same host name different roles: the choice among
    equal maxima is not stable across runs on identical input. *)
Example C6_tie_break_follows_visit_order :
  let run := analyzeShells (rt := insertionRuntime) sessionHost in
  let session :=
    default [] (Histories run !! "zsh") ++ default [] (Histories run !! "bash") in
  let usage : gmap string Z := {[ "go" := 2; "python" := 2 ]} in
  mapRange (GoRuntime := insertionRuntime) shellPaths
  = [ ("fish", "~/.local/share/fish/fish_history"); ("zsh", "~/.zsh_history");
      ("bash", "~/.bash_history") ]
  ∧ Command <$> session = ["python"; "python"; "python"; "go"]
  ∧ occurrences (usesLanguage "python") session = 3
  ∧ occurrences (usesLanguage "go") session = 1
  ∧ primaryRoleOf run = "Go Developer"
  ∧ primaryRoleOf (analyzeShells (rt := reverseRuntime) sessionHost)
    = "Python Developer"
  ∧ primaryRoleOf (analyzeCommands (rt := insertionRuntime) twoShellHost
      (readHistory (rt := insertionRuntime) twoShellHost "~/.bash_history").1
      initShellData) = EmptyString
  ∧ primaryRoleOf (analyzeShells (rt := insertionRuntime) twoShellHost)
    = "Python Developer"
  ∧ mapRange (GoRuntime := insertionRuntime) usage = [("go", 2); ("python", 2)]
  ∧ getMostUsed (rt := insertionRuntime) usage = ("go", true)
  ∧ mapRange (GoRuntime := reverseRuntime) usage = [("python", 2); ("go", 2)]
  ∧ getMostUsed (rt := reverseRuntime) usage = ("python", true)
  ∧ primaryRoleOf (analyzeShells (rt := insertionRuntime) tieHost) = "Go Developer"
  ∧ primaryRoleOf (analyzeShells (rt := reverseRuntime) tieHost)
    = "Python Developer".
Proof. vm_compute. done. Qed.

(** The theorem on [sessionHost], for the run that visits bash last: the
    bash pass names [Go Developer], and so does the run. *)
Example C6_getMostUsed_go_python :
  getMostUsed (rt := insertionRuntime) {[ "go" := 2; "python" := 2 ]} = ("go", true)
  ∧ primaryRoleOf (analyzeShells (rt := insertionRuntime) sessionHost)
    = "Go Developer".
Proof.
  pose proof (C6_getMostUsed_first_largest (rt := insertionRuntime)
                sessionHost [] initShellData {[ "go" := 2; "python" := 2 ]})
    as (Hpos & _ & _ & _ & _ & Hlast & _).
  split.
  - destruct Hpos as (k & v & l1 & l2 & Hget & _).
    + exists "go", 2. split; [reflexivity|lia].
    + reflexivity.
  - apply (Hlast [("fish", "~/.local/share/fish/fish_history");
                  ("zsh", "~/.zsh_history")] "bash" "~/.bash_history" []).
    + vm_compute. reflexivity.
    + vm_compute. reflexivity.
    + constructor.
Defined.

(** * Further properties of the code *)

(** ** Cleaning is idempotent *)

Lemma SpaceFree_empty : SpaceFree EmptyString.
Proof.
  intros a e b He Heq.
  destruct (spaceEncodings_shape _ He) as (c & t & -> & _). by destruct a.
Qed.

Lemma LastToken_self (tok : string) :
  tok ≠ EmptyString → SpaceFree tok → LastToken tok tok.
Proof.
  intros Hne Hfree. exists EmptyString, EmptyString.
  split_and!; [by rewrite append_nil_l, append_nil_r|done|done|constructor|by left].
Qed.

Lemma LastToken_SpaceFree (line tok : string) :
  LastToken line tok → tok ≠ EmptyString ∧ SpaceFree tok.
Proof. by intros (before & after & _ & Hne & Hfree & _). Qed.

Lemma cleanHistoryLine_LastToken (line tok : string) :
  LastToken line tok → cleanHistoryLine line = tok.
Proof.
  intros Htok. destruct (Fields_LastToken _ _ Htok) as [fs Hfs].
  by eapply cleanHistoryLine_last.
Qed.

Lemma cleanHistoryLine_AllSpace (line : string) :
  AllSpace line → cleanHistoryLine line = EmptyString.
Proof.
  intros Hline%Fields_AllSpace. unfold cleanHistoryLine. by rewrite Hline.
Qed.

(** The two cases of a cleaning. *)
Lemma cleanHistoryLine_cases (line : string) :
  (AllSpace line ∧ cleanHistoryLine line = EmptyString)
  ∨ (LastToken line (cleanHistoryLine line)).
Proof.
  destruct (AllSpace_or_LastToken line) as [Hline|[tok Htok]].
  - left. split; [done|by apply cleanHistoryLine_AllSpace].
  - right. by rewrite (cleanHistoryLine_LastToken _ _ Htok).
Qed.

Lemma cleanHistoryLine_SpaceFree (line : string) : SpaceFree (cleanHistoryLine line).
Proof.
  destruct (cleanHistoryLine_cases line) as [[_ ->]|Htok].
  - apply SpaceFree_empty.
  - by apply LastToken_SpaceFree in Htok as [_ ?].
Qed.

(** X1. Cleaning a cleaned line changes nothing; a cleaned line holds no
    white space, and it is empty exactly when the line is white space
    only. *)
Theorem cleanHistoryLine_idempotent (line : string) :
  cleanHistoryLine (cleanHistoryLine line) = cleanHistoryLine line
  ∧ SpaceFree (cleanHistoryLine line)
  ∧ (cleanHistoryLine line = EmptyString ↔ AllSpace line).
Proof.
  split_and!.
  - destruct (cleanHistoryLine_cases line) as [[_ ->]|Htok]; [done|].
    apply LastToken_SpaceFree in Htok as [Hne Hfree].
    by apply cleanHistoryLine_LastToken, LastToken_self.
  - apply cleanHistoryLine_SpaceFree.
  - split; [|apply cleanHistoryLine_AllSpace].
    intros Hempty. destruct (cleanHistoryLine_cases line) as [[Hline _]|Htok]; [done|].
    apply LastToken_SpaceFree in Htok as [Hne _]. by destruct Hne.
Qed.

(** ** The entries of a history *)

Section ReadHistory.

Context `{rt : GoRuntime}.

Context (h : Host) (path : string).

Lemma Command_readLines (i : nat) (lines : list string) :
  Command <$> readLines h path i lines
  = filter (λ cmd, cmd ≠ EmptyString) (cleanHistoryLine <$> lines).
Proof.
  revert i. induction lines as [|line lines IH]; intros i; [done|].
  cbn [readLines]. rewrite fmap_cons, filter_cons.
  destruct (String.eqb_spec (cleanHistoryLine line) EmptyString) as [Heq|Hne].
  - rewrite decide_False by (by intros ?). apply IH.
  - rewrite decide_True by done. rewrite fmap_cons. cbn [Command]. f_equal. apply IH.
Qed.

Lemma readLines_entries (i : nat) (lines : list string) :
  Forall (λ e, Command e ≠ EmptyString ∧ SpaceFree (Command e)
               ∧ Categories e = categorizeCommand (Command e) ∧ Count e = 0)
    (readLines h path i lines).
Proof.
  revert i. induction lines as [|line lines IH]; intros i; [constructor|].
  cbn [readLines].
  destruct (String.eqb_spec (cleanHistoryLine line) EmptyString) as [Heq|Hne];
    [apply IH|].
  constructor; [|apply IH]. cbn.
  split_and!; [done|apply cleanHistoryLine_SpaceFree|done|done].
Qed.

Lemma length_readLines (i : nat) (lines : list string) :
  (length (readLines h path i lines) ≤ length lines)%nat.
Proof.
  revert i. induction lines as [|line lines IH]; intros i; [done|].
  cbn [readLines length].
  destruct (String.eqb (cleanHistoryLine line) EmptyString);
    [specialize (IH (S i)); lia|cbn [length]; specialize (IH (S i)); lia].
Qed.

End ReadHistory.

(** X2. When the file cannot be opened [readHistory] fails and returns
    no entry.  Otherwise the commands of its entries are, in order, the
    non-empty cleanings of the scanned lines: no entry has an empty
    command or white space in its command, every entry carries the
    categories of its command, there are no more entries than lines, and
    the only error is that of the scanner (a line too long). *)
Theorem readHistory_entries `{rt : GoRuntime} (h : Host) (path : string) :
  match Open h path with
  | None => readHistory h path = ([], Some ErrOpen)
  | Some data =>
      Command <$> (readHistory h path).1
      = filter (λ cmd, cmd ≠ EmptyString) (cleanHistoryLine <$> bufio.Scan data)
      ∧ Forall (λ e, Command e ≠ EmptyString ∧ SpaceFree (Command e)
                     ∧ Categories e = categorizeCommand (Command e) ∧ Count e = 0)
          (readHistory h path).1
      ∧ (length (readHistory h path).1 ≤ length (bufio.Scan data))%nat
      ∧ (readHistory h path).2 = (if bufio.Err data then Some ErrTooLong else None)
  end.
Proof.
  unfold readHistory. destruct (Open h path) as [data|]; [|done]. cbn [fst snd].
  split_and!; [apply Command_readLines|apply readLines_entries
              |apply length_readLines|done].
Qed.

(** ** Categories of a command *)

Lemma HasPrefix_spec (s prefix : string) :
  strings.HasPrefix s prefix = true ↔ ∃ rest, s = prefix +:+ rest.
Proof.
  split; [apply HasPrefix_inv|]. intros [rest ->]. apply HasPrefix_append.
Qed.

(** A loop that appends the keys that pass a test appends each of them
    once. *)
Lemma NoDup_foldl_append {K V : Type} (cond : K → V → bool)
    (l : list (K * V)) (acc : list K) :
  NoDup (acc ++ l.*1) →
  NoDup (foldl (λ acc '(k, v), if cond k v then acc ++ [k] else acc) acc l).
Proof.
  revert acc. induction l as [|[k v] l IH]; intros acc Hnd; cbn [foldl].
  - by rewrite app_nil_r in Hnd.
  - rewrite fmap_cons in Hnd. cbn [fst] in Hnd. apply IH.
    destruct (cond k v).
    + by rewrite <- app_assoc.
    + rewrite NoDup_app in Hnd |- *. destruct Hnd as (Hacc & Hdisj & Hl).
      apply NoDup_cons in Hl as [_ Hl]. split_and!; [done| |done].
      intros x Hx Hxl. apply (Hdisj x Hx). by right.
Qed.

Lemma categoryPatterns_names (category : string) (patterns : list string) :
  categoryPatterns !! category = Some patterns →
  category ∈ ["system"; "file"; "development"].
Proof.
  intros Hc. apply elem_of_map_to_list in Hc.
  assert ((map_to_list categoryPatterns).*1 = ["system"; "file"; "development"])
    as <- by (vm_compute; reflexivity).
  apply list_elem_of_fmap. by exists (category, patterns).
Qed.

(** X3. Whatever the order in which the rule table is visited, a command
    gets a category exactly when it starts with one of the category's
    patterns; no category is listed twice, and the categories are among
    [development], [system] and [file]. *)
Theorem categorizeCommand_categories `{rt : GoRuntime} (cmd : string) :
  (∀ category,
     category ∈ categorizeCommand cmd
     ↔ ∃ patterns pattern rest,
         categoryPatterns !! category = Some patterns
         ∧ pattern ∈ patterns ∧ cmd = pattern +:+ rest)
  ∧ NoDup (categorizeCommand cmd)
  ∧ (∀ category, category ∈ categorizeCommand cmd →
       category ∈ ["system"; "file"; "development"])
  ∧ (length (categorizeCommand cmd) ≤ 3)%nat.
Proof.
  assert (∀ category, category ∈ categorizeCommand cmd →
            category ∈ ["system"; "file"; "development"]) as Hnames.
  { intros category (patterns & Hc & _)%elem_of_categorizeCommand.
    by eapply categoryPatterns_names. }
  assert (NoDup (categorizeCommand cmd)) as Hnd.
  { unfold categorizeCommand.
    apply (NoDup_foldl_append (λ _ patterns,
             existsb (strings.HasPrefix cmd) patterns)).
    rewrite app_nil_l. apply mapRange_NoDup_fst. }
  split_and!; [|done|done|].
  - intros category. rewrite elem_of_categorizeCommand. split.
    + intros (patterns & Hc & Hex). apply existsb_exists in Hex as (p & Hp & Hpre).
      apply HasPrefix_spec in Hpre as [rest ->]. exists patterns, p, rest.
      by rewrite list_elem_of_In.
    + intros (patterns & p & rest & Hc & Hp & ->). exists patterns.
      split; [done|]. apply existsb_exists. exists p.
      split; [by apply list_elem_of_In|apply HasPrefix_append].
  - change 3%nat with (length ["system"; "file"; "development"]).
    apply submseteq_length, NoDup_submseteq; [done|]. apply Hnames.
Qed.

(** ** Workflow patterns as substrings *)

Lemma Contains_cons (c : ascii) (s sub : string) :
  strings.Contains (String c s) sub
  = strings.HasPrefix (String c s) sub || strings.Contains s sub.
Proof.
  unfold strings.Contains. cbn [strings.Index].
  destruct (strings.HasPrefix (String c s) sub); [done|]. cbn [orb].
  apply bool_decide_ext. by rewrite fmap_is_Some.
Qed.

Lemma Contains_nil (sub : string) :
  strings.Contains EmptyString sub = strings.HasPrefix EmptyString sub.
Proof.
  unfold strings.Contains. cbn [strings.Index].
  by destruct (strings.HasPrefix EmptyString sub).
Qed.

Lemma MatchString_cons (re : regexp.Regexp) (c : ascii) (s : string) :
  regexp.MatchString re (String c s)
  = bool_decide (regexp.matchAt re (String c s) ≠ []) || regexp.MatchString re s.
Proof. cbn [regexp.MatchString]. by destruct (regexp.matchAt re (String c s)). Qed.

Lemma MatchString_nil (re : regexp.Regexp) :
  regexp.MatchString re EmptyString
  = bool_decide (regexp.matchAt re EmptyString ≠ []).
Proof. cbn [regexp.MatchString]. by destruct (regexp.matchAt re EmptyString). Qed.

(** A literal matches in a string exactly when the string contains it. *)
Lemma MatchString_Lit (l s : string) :
  regexp.MatchString (regexp.Lit l) s = strings.Contains s l.
Proof.
  induction s as [|c s IH].
  - rewrite MatchString_nil, Contains_nil. cbn [regexp.matchAt].
    by destruct (strings.HasPrefix EmptyString l).
  - rewrite MatchString_cons, Contains_cons, IH. cbn [regexp.matchAt].
    by destruct (strings.HasPrefix (String c s) l).
Qed.

(** An alternation matches when one of its branches does. *)
Lemma MatchString_Alt (a b : regexp.Regexp) (s : string) :
  regexp.MatchString (regexp.Alt a b) s
  = regexp.MatchString a s || regexp.MatchString b s.
Proof.
  assert (∀ t, bool_decide (regexp.matchAt (regexp.Alt a b) t ≠ [])
               = bool_decide (regexp.matchAt a t ≠ [])
                 || bool_decide (regexp.matchAt b t ≠ [])) as Hat.
  { intros t. cbn [regexp.matchAt].
    by destruct (regexp.matchAt a t), (regexp.matchAt b t). }
  induction s as [|c s IH].
  - by rewrite !MatchString_nil, Hat.
  - rewrite !MatchString_cons, Hat, IH.
    by destruct (bool_decide _), (bool_decide _),
      (regexp.MatchString a s), (regexp.MatchString b s).
Qed.

Lemma drop_append (a rest : string) :
  strings.drop (String.length a) (a +:+ rest) = rest.
Proof. induction a as [|c a IH]; [by destruct rest|]. by rewrite append_cons. Qed.

Lemma HasPrefix_append_prefix (s a b : string) :
  strings.HasPrefix s (a +:+ b)
  = strings.HasPrefix s a && strings.HasPrefix (strings.drop (String.length a) s) b.
Proof.
  revert s. induction a as [|c a IH]; intros s.
  - rewrite append_nil_l. cbn. by destruct s.
  - rewrite append_cons. destruct s as [|d s]; [done|]. cbn.
    destruct (Ascii.eqb d c); [apply IH|done].
Qed.

(** A literal followed by a literal is the literal of both. *)
Lemma MatchString_Cat_Lit (a b s : string) :
  regexp.MatchString (regexp.Cat (regexp.Lit a) (regexp.Lit b)) s
  = strings.Contains s (a +:+ b).
Proof.
  rewrite <- MatchString_Lit.
  assert (∀ t, bool_decide
                 (regexp.matchAt (regexp.Cat (regexp.Lit a) (regexp.Lit b)) t ≠ [])
               = bool_decide (regexp.matchAt (regexp.Lit (a +:+ b)) t ≠ [])) as Hat.
  { intros t. cbn [regexp.matchAt]. rewrite HasPrefix_append_prefix.
    destruct (strings.HasPrefix t a); cbn; [|done].
    by destruct (strings.HasPrefix (strings.drop (String.length a) t) b). }
  induction s as [|c s IH].
  - by rewrite !MatchString_nil, Hat.
  - by rewrite !MatchString_cons, Hat, IH.
Qed.

(** A literal followed by an alternation. *)
Lemma MatchString_Cat_Alt (a : string) (x y : regexp.Regexp) (s : string) :
  regexp.MatchString (regexp.Cat (regexp.Lit a) (regexp.Alt x y)) s
  = regexp.MatchString (regexp.Cat (regexp.Lit a) x) s
    || regexp.MatchString (regexp.Cat (regexp.Lit a) y) s.
Proof.
  rewrite <- MatchString_Alt.
  assert (∀ t, bool_decide
      (regexp.matchAt (regexp.Cat (regexp.Lit a) (regexp.Alt x y)) t ≠ [])
    = bool_decide
      (regexp.matchAt (regexp.Alt (regexp.Cat (regexp.Lit a) x)
                                  (regexp.Cat (regexp.Lit a) y)) t ≠ [])) as Hat.
  { intros t. cbn [regexp.matchAt].
    destruct (strings.HasPrefix t a); cbn; [|done]. by rewrite !app_nil_r. }
  induction s as [|c s IH].
  - by rewrite !MatchString_nil, Hat.
  - by rewrite !MatchString_cons, Hat, IH.
Qed.

Lemma patternMap_names (pattern : string) (regex : regexp.Regexp) :
  patternMap !! pattern = Some regex →
  pattern ∈ ["git_workflow"; "build"; "test"; "deploy"].
Proof.
  intros Hp. apply elem_of_map_to_list in Hp.
  assert ((map_to_list patternMap).*1 = ["git_workflow"; "build"; "test"; "deploy"])
    as <- by (vm_compute; reflexivity).
  apply list_elem_of_fmap. by exists (pattern, regex).
Qed.

Lemma analyzeCommandPattern_git_workflow `{rt : GoRuntime}
    (cmd : string) (patterns : gmap string Z) :
  analyzeCommandPattern cmd patterns !! "git_workflow"
  = if strings.Contains cmd "git commit" || strings.Contains cmd "git push"
       || strings.Contains cmd "git pull" || strings.Contains cmd "git merge"
    then Some (incr (getInt patterns "git_workflow"))
    else patterns !! "git_workflow".
Proof.
  rewrite analyzeCommandPattern_lookup.
  change (patternMap !! "git_workflow") with
    (Some (regexp.Cat (regexp.Lit "git ")
       (regexp.Alt (regexp.Lit "commit") (regexp.Alt (regexp.Lit "push")
          (regexp.Alt (regexp.Lit "pull") (regexp.Lit "merge")))))).
  cbv iota. rewrite !MatchString_Cat_Alt, !MatchString_Cat_Lit.
  by rewrite !orb_assoc.
Qed.

(** X4. [analyzeCommandPattern] increments the counter of a workflow
    pattern exactly when the command contains one of the pattern's
    words, and touches no other key; the order in which the patterns are
    tried does not matter. *)
Theorem analyzeCommandPattern_counts `{rt : GoRuntime}
    (cmd : string) (patterns : gmap string Z) :
  let counted (pattern : string) (found : bool) :=
    analyzeCommandPattern cmd patterns !! pattern
    = if found then Some (incr (getInt patterns pattern)) else patterns !! pattern in
  counted "git_workflow"
    (strings.Contains cmd "git commit" || strings.Contains cmd "git push"
     || strings.Contains cmd "git pull" || strings.Contains cmd "git merge")
  ∧ counted "build"
      (strings.Contains cmd "make" || strings.Contains cmd "build"
       || strings.Contains cmd "compile")
  ∧ counted "deploy"
      (strings.Contains cmd "deploy" || strings.Contains cmd "kubectl"
       || strings.Contains cmd "docker")
  ∧ counted "test"
      (strings.Contains cmd "test" || strings.Contains cmd "spec"
       || strings.Contains cmd "pytest")
  ∧ (∀ pattern, pattern ∉ ["git_workflow"; "build"; "test"; "deploy"] →
       analyzeCommandPattern cmd patterns !! pattern = patterns !! pattern).
Proof.
  intros counted. subst counted. cbv beta. split_and!.
  - apply analyzeCommandPattern_git_workflow.
  - rewrite analyzeCommandPattern_lookup.
    change (patternMap !! "build") with
      (Some (regexp.Alt (regexp.Lit "make")
         (regexp.Alt (regexp.Lit "build") (regexp.Lit "compile")))).
    cbv iota. rewrite !MatchString_Alt, !MatchString_Lit. by rewrite !orb_assoc.
  - rewrite analyzeCommandPattern_lookup.
    change (patternMap !! "deploy") with
      (Some (regexp.Alt (regexp.Lit "deploy")
         (regexp.Alt (regexp.Lit "kubectl") (regexp.Lit "docker")))).
    cbv iota. rewrite !MatchString_Alt, !MatchString_Lit. by rewrite !orb_assoc.
  - rewrite analyzeCommandPattern_lookup.
    change (patternMap !! "test") with
      (Some (regexp.Alt (regexp.Lit "test")
         (regexp.Alt (regexp.Lit "spec") (regexp.Lit "pytest")))).
    cbv iota. rewrite !MatchString_Alt, !MatchString_Lit. by rewrite !orb_assoc.
  - intros pattern Hpattern. rewrite analyzeCommandPattern_lookup.
    destruct (patternMap !! pattern) as [regex|] eqn:Hp; [|done].
    by apply patternMap_names in Hp.
Qed.

(** ** The git workflow pattern and cleaned commands *)

Lemma Contains_spec (s sub : string) :
  strings.Contains s sub = true ↔ ∃ a b, s = a +:+ sub +:+ b.
Proof.
  induction s as [|c s IH].
  - rewrite Contains_nil, HasPrefix_spec. split.
    + intros [rest Hrest]. by exists EmptyString, rest.
    + intros (a & b & Heq). destruct a; [by exists b|done].
  - rewrite Contains_cons, orb_true_iff, HasPrefix_spec, IH. split.
    + intros [[rest Hrest]|(a & b & ->)]; [by exists EmptyString, rest|].
      by exists (String c a), b.
    + intros (a & b & Heq). destruct a as [|d a].
      * left. by exists b.
      * right. rewrite append_cons in Heq. injection Heq as _ ->. by exists a, b.
Qed.

Lemma space_encoding : " " ∈ strings.spaceEncodings.
Proof. vm_compute. do 5 right. left. Qed.

(** A command without white space holds no [git <verb>]. *)
Lemma SpaceFree_no_git_verb (cmd verb : string) :
  SpaceFree cmd → strings.Contains cmd ("git " +:+ verb) = false.
Proof.
  intros Hfree. apply not_true_is_false. intros (a & b & Heq)%Contains_spec.
  apply (Hfree (a +:+ "git") " " (verb +:+ b) space_encoding).
  rewrite Heq, !append_assoc. done.
Qed.

Lemma commandPatterns_foldl `{rt : GoRuntime} (h : Host) (langs : gmap string string)
    (entries : list CommandEntry) (c : usageCounters) :
  commandPatterns (foldl (analyzeEntry h langs) c entries)
  = foldl (λ m e, analyzeCommandPattern (Command e) m) (commandPatterns c) entries.
Proof.
  revert c. induction entries as [|e entries IH]; intros c; [done|].
  cbn [foldl]. by rewrite IH.
Qed.

Lemma git_workflow_SpaceFree `{rt : GoRuntime} (h : Host)
    (langs : gmap string string) (entries : list CommandEntry) :
  Forall (λ e, SpaceFree (Command e)) entries →
  commandPatterns (countUsage h langs entries) !! "git_workflow" = None.
Proof.
  intros Hfree. unfold countUsage. rewrite commandPatterns_foldl.
  cbn [commandPatterns].
  assert (∀ m : gmap string Z, m !! "git_workflow" = None →
    foldl (λ m e, analyzeCommandPattern (Command e) m) m entries
      !! "git_workflow" = None) as Hloop; [|by apply Hloop].
  induction Hfree as [|e entries He Hfree IH]; intros m Hm; [done|].
  cbn [foldl]. apply IH.
  rewrite analyzeCommandPattern_git_workflow.
  change "git commit" with ("git " +:+ "commit").
  change "git push" with ("git " +:+ "push").
  change "git pull" with ("git " +:+ "pull").
  change "git merge" with ("git " +:+ "merge").
  by rewrite !SpaceFree_no_git_verb.
Qed.

(** X5. The commands that [readHistory] returns hold no white space, so
    none of them matches the pattern [git (commit|push|pull|merge)]: a
    pass over a history that was read from a file never counts a git
    workflow. *)
Theorem git_workflow_never_counted `{rt : GoRuntime} (h : Host) (path : string)
    (langs : gmap string string) :
  commandPatterns (countUsage h langs (readHistory h path).1) !! "git_workflow"
  = None.
Proof.
  apply git_workflow_SpaceFree. unfold readHistory.
  destruct (Open h path) as [data|]; cbn [fst]; [|constructor].
  eapply Forall_impl; [apply readLines_entries|]. by intros e (_ & Hfree & _).
Qed.

(** ** Productivity metrics *)

(** The set of the distinct commands of a history, which is what the keys
    of [uniqueCommands] are. *)
Definition distinctCommands (entries : list CommandEntry) : gset string :=
  list_to_set (Command <$> entries).

Lemma uniqueCommands_size (entries : list CommandEntry) :
  size (foldl (λ unique entry, <[Command entry := true]> unique)
          (∅ : gmap string bool) entries)
  = size (distinctCommands entries).
Proof.
  rewrite <- size_dom. f_equal. apply set_eq. intros k.
  rewrite elem_of_dom. unfold distinctCommands. rewrite elem_of_list_to_set.
  rewrite (foldl_insert_keyed Command (λ _, true)).
  case_bool_decide as Hk; [by split; [|eexists]|].
  rewrite lookup_empty. split; [by intros [? ?]|done].
Qed.

Lemma size_list_to_set_le (l : list string) :
  (size (list_to_set l : gset string) ≤ length l)%nat.
Proof.
  induction l as [|x l IH]; [done|]. cbn [list_to_set foldr length].
  rewrite size_union_alt, size_singleton.
  assert (list_to_set l ∖ {[x]} ⊆ (list_to_set l : gset string)) as Hsub
    by apply subseteq_difference_l, reflexivity.
  apply subseteq_size in Hsub. lia.
Qed.

Lemma size_list_to_set_NoDup (l : list string) :
  size (list_to_set l : gset string) = length l ↔ NoDup l.
Proof.
  split; [|apply size_list_to_set].
  induction l as [|x l IH]; [constructor|]. cbn [list_to_set length].
  intros Hsize. pose proof (size_list_to_set_le l) as Hle.
  destruct (decide (x ∈ l)) as [Hin|Hout].
  - assert ({[x]} ∪ list_to_set l = (list_to_set l : gset string)) as Heq.
    { apply subseteq_union_1_L, singleton_subseteq_l. by apply elem_of_list_to_set. }
    rewrite Heq in Hsize. lia.
  - constructor; [done|]. apply IH.
    rewrite size_union in Hsize
      by (apply disjoint_singleton_l; by rewrite elem_of_list_to_set).
    rewrite size_singleton in Hsize. lia.
Qed.

Lemma ratio_pos (a b : Z) : 0 < a → 0 < b → (0 < ratio a b)%Qc.
Proof.
  intros Ha Hb. unfold Qclt. rewrite this_ratio.
  apply Qlt_shift_div_l; unfold Qlt, inject_Z; simpl; lia.
Qed.

Lemma ratio_one (a b : Z) : 0 < b → ratio a b = 1%Qc ↔ a = b.
Proof.
  intros Hb.
  assert (inject_Z a / inject_Z b == 1 ↔ a = b)%Q as Hq.
  { destruct b as [|b|b]; [lia| |lia].
    unfold Qeq, Qdiv, Qmult, Qinv, inject_Z. simpl. lia. }
  split.
  - intros Heq. apply Hq. rewrite <- this_ratio. by rewrite Heq.
  - intros Hab. apply Qc_is_canon. rewrite this_ratio. by apply Hq.
Qed.

(** X6. [Command Variety] of a history that holds at least one command is the
    number of its distinct commands over the number of its commands: it
    is positive, at most 1, and 1 exactly when no command occurs twice.
    The map then holds the two metrics and nothing else; for a history
    without commands it is empty. *)
Theorem command_variety (entries : list CommandEntry) (patterns : gmap string Z) :
  calculateProductivityMetrics [] patterns = ∅
  ∧ ∀ e,
      let history := e :: entries in
      let metrics := calculateProductivityMetrics history patterns in
      let variety :=
        ratio (Z.of_nat (size (distinctCommands history)))
          (Z.of_nat (length history)) in
      dom metrics = {["Command Variety"; "Workflow Complexity"]}
      ∧ metrics !! "Command Variety" = Some variety
      ∧ (0 < variety)%Qc ∧ (variety ≤ 1)%Qc
      ∧ (variety = 1%Qc ↔ NoDup (Command <$> history)).
Proof.
  split; [done|]. intros e history metrics variety.
  subst metrics variety. unfold calculateProductivityMetrics.
  assert ((Z.of_nat (length history) =? 0) = false) as ->
    by (apply Z.eqb_neq; subst history; cbn [length]; lia).
  cbv zeta. rewrite uniqueCommands_size.
  pose proof (size_list_to_set_le (Command <$> history)) as Hle.
  rewrite length_fmap in Hle. fold (distinctCommands history) in Hle.
  assert (0 < size (distinctCommands history))%nat as Hpos.
  { assert (size (distinctCommands history) ≠ 0%nat); [|lia].
    intros Hzero%size_empty_inv. subst history. unfold distinctCommands in Hzero.
    set_solver. }
  assert (0 < length history)%nat as Hlen by (subst history; cbn [length]; lia).
  split_and!.
  - rewrite !dom_insert_L, dom_empty_L. set_solver.
  - by rewrite lookup_insert_ne, lookup_insert_eq.
  - apply ratio_pos; lia.
  - apply ratio_bounds; lia.
  - rewrite ratio_one by lia. rewrite <- size_list_to_set_NoDup, length_fmap.
    unfold distinctCommands. lia.
Qed.

(** ** Workflow complexity *)

(** Whether a command matches the regular expression of a workflow
    pattern. *)
Definition matchesPattern (pattern cmd : string) : bool :=
  match patternMap !! pattern with
  | Some regex => regexp.MatchString regex cmd
  | None => false
  end.

(** The pattern counters after the loop over the entries. *)
Lemma commandPatterns_countUsage `{rt : GoRuntime} (h : Host)
    (langs : gmap string string) (entries : list CommandEntry) (pattern : string) :
  Z.of_nat (length entries) ≤ maxInt →
  getInt (commandPatterns (countUsage h langs entries)) pattern
  = occurrences (matchesPattern pattern) entries.
Proof.
  intros Hlen. unfold countUsage, getInt.
  rewrite commandPatterns_foldl. cbn [commandPatterns].
  rewrite (counter_loop (λ m cmd, analyzeCommandPattern cmd m)
             (λ pattern, bool_decide (is_Some (patternMap !! pattern)))
             matchesPattern); [| |done].
  - pose proof (occurrences_bounds (matchesPattern pattern) entries) as Hocc.
    destruct (Z.ltb_spec 0 (occurrences (matchesPattern pattern) entries));
      [|rewrite andb_false_r; cbn; lia].
    case_bool_decide as Hpat; [done|]. cbn.
    assert (∀ l, occurrences (matchesPattern pattern) l = 0) as ->; [|done].
    intros l. induction l as [|e l IH]; [done|]. cbn [occurrences]. rewrite IH.
    unfold matchesPattern. destruct (patternMap !! pattern); [|done].
    by destruct Hpat.
  - intros m cmd k. rewrite analyzeCommandPattern_lookup. unfold matchesPattern.
    destruct (patternMap !! k) as [regex|].
    + by rewrite bool_decide_eq_true_2 by done.
    + rewrite bool_decide_eq_false_2; [done|]. by intros [? ?].
Qed.

Lemma ratio_le (a b n : Z) : 0 < b → a ≤ n * b → (ratio a b ≤ Q2Qc (inject_Z n))%Qc.
Proof.
  intros Hb Hab. unfold Qcle. rewrite this_ratio. cbn [this Q2Qc].
  rewrite Qred_correct. apply Qle_shift_div_r.
  - unfold Qlt, inject_Z. simpl. lia.
  - unfold Qle, Qmult, inject_Z. simpl. lia.
Qed.

(** X7. [Workflow Complexity] after a pass over at least one command is the
    number of (command, pattern) matches over the number of commands,
    the four patterns being counted separately: a value between 0 and 4,
    which exceeds 1 as soon as the commands match more than one pattern
    each on average. *)
Theorem workflow_complexity `{rt : GoRuntime} (h : Host)
    (entries : list CommandEntry) (data : ShellData) :
  (0 < length entries)%nat → 4 * Z.of_nat (length entries) ≤ maxInt →
  let matches pattern := occurrences (matchesPattern pattern) entries in
  let score :=
    ratio (matches "git_workflow" + matches "build" + matches "deploy"
           + matches "test")
      (Z.of_nat (length entries)) in
  productivityOf (analyzeCommands h entries data) !! "Workflow Complexity"
  = Some score
  ∧ (0 ≤ score)%Qc ∧ (score ≤ Q2Qc 4)%Qc.
Proof.
  intros Hpos Hmax matches score. subst matches score.
  pose proof (occurrences_bounds (matchesPattern "git_workflow") entries).
  pose proof (occurrences_bounds (matchesPattern "build") entries).
  pose proof (occurrences_bounds (matchesPattern "deploy") entries).
  pose proof (occurrences_bounds (matchesPattern "test") entries).
  assert (0 ≤ maxInt) by (by vm_compute).
  split_and!.
  - rewrite productivityOf_analyzeCommands. unfold calculateProductivityMetrics.
    assert ((Z.of_nat (length entries) =? 0) = false) as -> by (apply Z.eqb_neq; lia).
    cbv zeta. rewrite lookup_insert_eq.
    rewrite !commandPatterns_countUsage by lia.
    do 2 f_equal. unfold wrapInt, maxInt in *. rewrite Z.mod_small; lia.
  - unfold Qcle. rewrite this_ratio. cbn [this Q2Qc].
    apply Qle_shift_div_l; unfold Qlt, Qle, inject_Z; simpl; lia.
  - apply (ratio_le _ _ 4); lia.
Qed.

(** One command that builds, tests and deploys scores 3. *)
Example workflow_complexity_three :
  productivityOf
    (analyzeCommands (rt := insertionRuntime) pythonHost
       [ {| Command := "make-test-deploy";
            Timestamp := {| time.unixSec := 0; time.zoneOffset := 0 |};
            Count := 0; Categories := [] |} ]
       initShellData) !! "Workflow Complexity"
  = Some (Q2Qc 3).
Proof.
  etrans.
  - apply (workflow_complexity (rt := insertionRuntime) pythonHost
             [ {| Command := "make-test-deploy";
                  Timestamp := {| time.unixSec := 0; time.zoneOffset := 0 |};
                  Count := 0; Categories := [] |} ] initShellData).
    + cbn. lia.
    + vm_compute. discriminate.
  - f_equal; by apply Qc_is_canon.
Defined.

(** ** The tools kept for a pass *)

Section Kept.

Context `{rt : GoRuntime}.

Context (h : Host).

(** The names of the ten entries [getInstalledLanguages] keeps. *)
Definition keptNames : list string :=
  name <$> take 10 (sortSlice (λ a b, (usageCount b <? usageCount a)%Z)
                      ((λ '(name, _), {| name := name; usageCount := 0 |})
                         <$> mapRange (probeInstalled h))).

Lemma keptNames_NoDup : NoDup keptNames.
Proof.
  unfold keptNames. rewrite fmap_take.
  eapply sublist_NoDup; [|apply sublist_take].
  rewrite usageList_names. apply mapRange_NoDup_fst.
Qed.

Lemma keptNames_length : length keptNames = (10 `min` size (probeInstalled h))%nat.
Proof.
  unfold keptNames. rewrite length_fmap, length_take.
  rewrite (Permutation_length (sortSlice_perm _ _)), length_fmap.
  by rewrite (mapRange_perm (probeInstalled h)), length_map_to_list.
Qed.

Lemma getInstalledLanguages_dom :
  dom (getInstalledLanguages h) = list_to_set keptNames.
Proof.
  apply set_eq. intros lang. rewrite elem_of_dom, elem_of_list_to_set.
  unfold getInstalledLanguages.
  rewrite (foldl_insert_keyed name (getStr (probeInstalled h))).
  fold keptNames. case_bool_decide as Hin; [by split; [|eexists]|].
  rewrite lookup_empty. split; [by intros [? ?]|done].
Qed.

End Kept.

(** X8. [getInstalledLanguages] probes every tool of its catalog and keeps
    ten of the tools whose probe succeeded, or all of them when they are
    ten or fewer, each with the output of its probe.  A tool outside the
    catalog, or whose probe fails, is never kept. *)
Theorem getInstalledLanguages_keeps_ten `{rt : GoRuntime} (h : Host) :
  size (getInstalledLanguages h) = (10 `min` size (probeInstalled h))%nat
  ∧ getInstalledLanguages h ⊆ probeInstalled h
  ∧ (∀ lang, probeInstalled h !! lang = languages !! lang ≫= Output h)
  ∧ (∀ lang out, getInstalledLanguages h !! lang = Some out →
       ∃ cmd, languages !! lang = Some cmd ∧ Output h cmd = Some out).
Proof.
  split_and!.
  - rewrite <- size_dom, getInstalledLanguages_dom.
    rewrite size_list_to_set by apply keptNames_NoDup. apply keptNames_length.
  - apply map_subseteq_spec. intros lang out. apply getInstalledLanguages_installed.
  - apply probeInstalled_lookup.
  - intros lang out Hkept%getInstalledLanguages_installed.
    rewrite probeInstalled_lookup in Hkept.
    destruct (languages !! lang) as [cmd|]; [|done]. by exists cmd.
Qed.

(** ** The technology stack *)

(** X9. After a pass over a history, the technology stack lists, each once,
    the kept tools that at least one command uses; what the stack held
    before the pass is dropped. *)
Theorem techStack_used_tools `{rt : GoRuntime} (h : Host)
    (entries : list CommandEntry) (data : ShellData) :
  Z.of_nat (length entries) ≤ maxInt →
  NoDup (techStackOf (analyzeCommands h entries data))
  ∧ ∀ lang,
      lang ∈ techStackOf (analyzeCommands h entries data)
      ↔ is_Some (getInstalledLanguages h !! lang)
        ∧ 0 < occurrences (usesLanguage lang) entries.
Proof.
  intros Hlen. rewrite techStackOf_analyzeCommands. split.
  - apply (NoDup_foldl_append (λ lang _,
      (0 <? getInt (langUsage (countUsage h (getInstalledLanguages h) entries))
              lang)%Z)).
    apply mapRange_NoDup_fst.
  - intros lang.
    rewrite (elem_of_foldl_append (λ lang _,
      (0 <? getInt (langUsage (countUsage h (getInstalledLanguages h) entries))
              lang)%Z)).
    unfold getInt. rewrite langUsage_countUsage by done.
    pose proof (occurrences_bounds (usesLanguage lang) entries) as Hocc.
    split.
    + intros [Hnil|(out & Hkept%elem_of_mapRange & Hcount)]; [by inv Hnil|].
      split; [by eexists|].
      rewrite bool_decide_eq_true_2 in Hcount by by eexists. cbn [andb] in Hcount.
      destruct (Z.ltb_spec 0 (occurrences (usesLanguage lang) entries)); [done|].
      cbn in Hcount. lia.
    + intros [[out Hkept] Hpos]. right. exists out.
      split; [by apply elem_of_mapRange|].
      rewrite bool_decide_eq_true_2 by by eexists. cbn [andb].
      rewrite (proj2 (Z.ltb_lt 0 _) Hpos). cbn. by apply Z.ltb_lt.
Qed.

(** On the host with [python] and [git], the stack after the ten commands
    of [pythonEntries] holds [python], which four commands use, and not
    [ruby], which is not installed. *)
Example techStack_python_not_ruby :
  let stack :=
    techStackOf (analyzeCommands (rt := insertionRuntime) pythonHost pythonEntries
                   initShellData) in
  NoDup stack ∧ "python" ∈ stack ∧ "ruby" ∉ stack.
Proof.
  assert (Z.of_nat (length pythonEntries) ≤ maxInt) as Hlen
    by (vm_compute; discriminate).
  destruct (techStack_used_tools (rt := insertionRuntime) pythonHost pythonEntries
              initShellData Hlen) as [Hnd Hin].
  cbv zeta. split; [exact Hnd|]. rewrite !Hin. split.
  - split; [eexists|]; vm_compute; reflexivity.
  - intros [[out Hout] _]. revert Hout. vm_compute. discriminate.
Defined.

(** ** Stored configuration values carry no surrounding quotes *)

(** [strings.Trim] leaves a string alone once it has trimmed it. *)
Lemma trimLeftASCII_idempotent (s cutset : string) :
  strings.trimLeftASCII (strings.trimLeftASCII s cutset) cutset
  = strings.trimLeftASCII s cutset.
Proof.
  induction s as [|c s IH]; [done|]. cbn [strings.trimLeftASCII].
  destruct (strings.inCutset cutset c) eqn:Hc; [done|].
  cbn [strings.trimLeftASCII]. by rewrite Hc.
Qed.

Lemma trimRightAux_fixed (s r cutset : string) :
  strings.trimRightAux s cutset = Some r → strings.trimRightAux r cutset = Some r.
Proof.
  revert r. induction s as [|c s IH]; intros r; [done|].
  cbn [strings.trimRightAux].
  destruct (strings.trimRightAux s cutset) as [r'|] eqn:Hs.
  - intros [= <-]. cbn [strings.trimRightAux]. by rewrite (IH r').
  - destruct (strings.inCutset cutset c) eqn:Hc; [done|].
    intros [= <-]. cbn [strings.trimRightAux]. by rewrite Hc.
Qed.

Lemma trimRightAux_trimLeftASCII (s cutset : string) :
  strings.trimRightAux s cutset = Some s →
  strings.trimRightAux (strings.trimLeftASCII s cutset) cutset
  = Some (strings.trimLeftASCII s cutset).
Proof.
  induction s as [|c s IH]; [done|]. intros Hs. cbn [strings.trimLeftASCII].
  destruct (strings.inCutset cutset c) eqn:Hc; [|done].
  cbn [strings.trimRightAux] in Hs.
  destruct (strings.trimRightAux s cutset) as [r|] eqn:Hr.
  - apply IH. by simplify_eq.
  - by rewrite Hc in Hs.
Qed.

Lemma Trim_idempotent (s cutset : string) :
  strings.Trim (strings.Trim s cutset) cutset = strings.Trim s cutset.
Proof.
  unfold strings.Trim at 2 3. unfold strings.trimRightASCII.
  destruct (strings.trimRightAux s cutset) as [r|] eqn:Hs; cbn [default from_option id].
  - apply trimRightAux_fixed, trimRightAux_trimLeftASCII in Hs.
    unfold strings.Trim, strings.trimRightASCII. rewrite Hs. cbn [default from_option id].
    apply trimLeftASCII_idempotent.
  - done.
Qed.

(** A value that has a quote neither at its start nor at its end, which
    is to say one that [strings.Trim] does not change. *)
Definition unquoted (value : string) : Prop := strings.Trim value quotes = value.

Lemma definitionOf_unquoted (keyword line name value : string) :
  definitionOf keyword line = Some (name, value) → unquoted value.
Proof.
  unfold definitionOf. destruct (strings.HasPrefix line keyword); [|done].
  destruct (strings.SplitN _ _ _) as [|part0 [|part1 [|? ?]]]; [done..| |done].
  intros [= _ <-]. apply Trim_idempotent.
Qed.

Lemma ConfigFiles_parseConfigLine (config : ShellConfig) (line : string) :
  ConfigFiles (parseConfigLine config line) = ConfigFiles config.
Proof.
  unfold parseConfigLine.
  destruct (strings.HasPrefix line "alias ");
    [destruct (strings.SplitN (strings.TrimPrefix line "alias ") "=" 2)
       as [|? [|? [|? ?]]]|];
    (destruct (strings.HasPrefix line "export ");
      [destruct (strings.SplitN (strings.TrimPrefix line "export ") "=" 2)
         as [|? [|? [|? ?]]]|]); done.
Qed.

Lemma Plugins_parseConfigLine (config : ShellConfig) (line : string) :
  Plugins (parseConfigLine config line) = Plugins config.
Proof.
  unfold parseConfigLine.
  destruct (strings.HasPrefix line "alias ");
    [destruct (strings.SplitN (strings.TrimPrefix line "alias ") "=" 2)
       as [|? [|? [|? ?]]]|];
    (destruct (strings.HasPrefix line "export ");
      [destruct (strings.SplitN (strings.TrimPrefix line "export ") "=" 2)
         as [|? [|? [|? ?]]]|]); done.
Qed.

Lemma ConfigFiles_parseShellConfig (content : string) (config : ShellConfig) :
  ConfigFiles (parseShellConfig content config) = ConfigFiles config.
Proof.
  unfold parseShellConfig. revert config.
  induction (bufio.Scan content) as [|l ls IH]; intros config; [done|].
  cbn [foldl]. by rewrite IH, ConfigFiles_parseConfigLine.
Qed.

Lemma Plugins_parseShellConfig (content : string) (config : ShellConfig) :
  Plugins (parseShellConfig content config) = Plugins config.
Proof.
  unfold parseShellConfig. revert config.
  induction (bufio.Scan content) as [|l ls IH]; intros config; [done|].
  cbn [foldl]. by rewrite IH, Plugins_parseConfigLine.
Qed.

(** The values of a table are all unquoted. *)
Definition allUnquoted (table : gmap string string) : Prop :=
  map_Forall (λ _ value, unquoted value) table.

Section Unquoted.

Context (keyword : string) (field : ShellConfig → gmap string string).
Context (Hfield : ∀ config line,
  field (parseConfigLine config line)
  = match definitionOf keyword line with
    | Some (name, value) => <[name := value]> (field config)
    | None => field config
    end).

Lemma allUnquoted_parseShellConfig (content : string) (config : ShellConfig) :
  allUnquoted (field config) → allUnquoted (field (parseShellConfig content config)).
Proof.
  unfold parseShellConfig. revert config.
  induction (bufio.Scan content) as [|l ls IH]; intros config Hconfig; [done|].
  cbn [foldl]. apply IH. rewrite Hfield.
  destruct (definitionOf keyword l) as [[name value]|] eqn:Hl; [|done].
  apply map_Forall_insert_2; [|done]. by apply (definitionOf_unquoted keyword l name).
Qed.

End Unquoted.

(** The parts of a configuration that plugin detection leaves alone. *)
Definition sameTables (c1 c2 : ShellConfig) : Prop :=
  ConfigFiles c1 = ConfigFiles c2 ∧ Aliases c1 = Aliases c2
  ∧ Environment c1 = Environment c2.

Lemma sameTables_detectDirectories (h : Host) (paths : list string)
    (config : ShellConfig) :
  sameTables (detectDirectories h paths config) config.
Proof.
  unfold detectDirectories, sameTables. revert config.
  induction paths as [|p paths IH]; intros config; [done|]. cbn [foldl].
  destruct (IH (match Stat h (expandPath h p) with
       | Some info =>
           if IsDir info
           then addPlugin {| Name := Base h p; Source := expandPath h p;
                             LastUpdated := ModTime info |} config
           else config
       | None => config
       end)) as (-> & -> & ->).
  destruct (Stat h (expandPath h p)) as [info|]; [|done].
  by destruct (IsDir info).
Qed.

Lemma sameTables_detectPlugins (h : Host) (shell : string) (config : ShellConfig) :
  sameTables (detectPlugins h shell config) config.
Proof.
  unfold detectPlugins, detectZshPlugins, detectBashPlugins, detectFishPlugins.
  destruct (String.eqb shell "zsh"); [apply sameTables_detectDirectories|].
  destruct (String.eqb shell "fish").
  - destruct (ReadDir h _) as [files|]; [|done]. unfold sameTables. revert config.
    induction files as [|f files IH]; intros config; [done|]. cbn [foldl].
    match goal with |- ConfigFiles (foldl _ ?c _) = _ ∧ _ =>
      destruct (IH c) as (-> & -> & ->) end.
    by destruct (strings.HasSuffix (entryName f) ".fish").
  - destruct (String.eqb shell "bash"); [apply sameTables_detectDirectories|done].
Qed.

(** The loop of [analyzeShellConfigs] over the configuration paths. *)
Definition readConfigs (h : Host) (paths : list string) (config : ShellConfig)
  : ShellConfig :=
  foldl
    (λ config paths,
       let expandedPath := expandPath h paths in
       match Stat h expandedPath with
       | Some info =>
           let content := default EmptyString (ReadFile h expandedPath) in
           parseShellConfig content
             (setConfigFile paths
                {| Path := expandedPath; Modified := ModTime info;
                   Content := content |}
                config)
       | None => config
       end)
    config paths.

Lemma analyzeShellConfigs_readConfigs (h : Host) (shell : string) :
  analyzeShellConfigs h shell
  = detectPlugins h shell
      (readConfigs h (default [] (configPaths !! shell)) emptyConfig).
Proof. done. Qed.

Lemma allUnquoted_readConfigs (h : Host) (paths : list string) (config : ShellConfig) :
  allUnquoted (Aliases config) → allUnquoted (Environment config) →
  allUnquoted (Aliases (readConfigs h paths config))
  ∧ allUnquoted (Environment (readConfigs h paths config)).
Proof.
  unfold readConfigs. revert config.
  induction paths as [|p paths IH]; intros config Ha He; [done|]. cbn [foldl].
  apply IH; (destruct (Stat h (expandPath h p)) as [info|]; [|done]).
  - by apply (allUnquoted_parseShellConfig "alias " Aliases Aliases_parseConfigLine).
  - by apply (allUnquoted_parseShellConfig "export " Environment
                Environment_parseConfigLine).
Qed.

(** X10. No alias and no environment variable that [analyzeShellConfigs]
    reports has a value that begins or ends with a single or a double
    quote: [strings.Trim] with the two quotes as cutset leaves every
    stored value as it is. *)
Theorem analyzeShellConfigs_values_unquoted (h : Host) (shell : string) :
  map_Forall (λ _ value, strings.Trim value quotes = value)
    (Aliases (analyzeShellConfigs h shell))
  ∧ map_Forall (λ _ value, strings.Trim value quotes = value)
      (Environment (analyzeShellConfigs h shell)).
Proof.
  rewrite analyzeShellConfigs_readConfigs.
  destruct (sameTables_detectPlugins h shell
              (readConfigs h (default [] (configPaths !! shell)) emptyConfig))
    as (_ & -> & ->).
  by apply allUnquoted_readConfigs.
Qed.

(** ** The configuration files that are recorded *)

(** What [analyzeShellConfigs] records for a configuration path: nothing
    when [os.Stat] fails on the expanded path, else the expanded path,
    the modification time and the content, which is empty when
    [os.ReadFile] fails. *)
Definition configInfoAt (h : Host) (path : string) : option ConfigInfo :=
  (λ info, {| Path := expandPath h path; Modified := ModTime info;
              Content := default EmptyString (ReadFile h (expandPath h path)) |})
  <$> Stat h (expandPath h path).

Lemma ConfigFiles_readConfigs (h : Host) (paths : list string) (config : ShellConfig)
    (key : string) :
  ConfigFiles (readConfigs h paths config) !! key
  = if bool_decide (key ∈ paths)
    then match configInfoAt h key with
         | Some info => Some info
         | None => ConfigFiles config !! key
         end
    else ConfigFiles config !! key.
Proof.
  unfold readConfigs. revert config.
  induction paths as [|p paths IH]; intros config; [done|]. cbn [foldl].
  rewrite IH. clear IH.
  assert (ConfigFiles
            match Stat h (expandPath h p) with
            | Some info =>
                parseShellConfig (default EmptyString (ReadFile h (expandPath h p)))
                  (setConfigFile p
                     {| Path := expandPath h p; Modified := ModTime info;
                        Content := default EmptyString (ReadFile h (expandPath h p)) |}
                     config)
            | None => config
            end !! key
          = if decide (key = p)
            then match configInfoAt h key with
                 | Some info => Some info
                 | None => ConfigFiles config !! key
                 end
            else ConfigFiles config !! key) as ->.
  { unfold configInfoAt.
    destruct (decide (key = p)) as [->|Hne];
      (destruct (Stat h (expandPath h p)) as [info|]; [|done]);
      rewrite ConfigFiles_parseShellConfig;
      cbn [ConfigFiles setConfigFile fmap option_fmap option_map].
    - by rewrite lookup_insert_eq.
    - by rewrite lookup_insert_ne. }
  destruct (decide (key = p)) as [->|Hne].
  - rewrite (bool_decide_eq_true_2 (p ∈ p :: paths)) by left.
    case_bool_decide; by destruct (configInfoAt h p).
  - assert (bool_decide (key ∈ p :: paths) = bool_decide (key ∈ paths)) as ->; [|done].
    apply bool_decide_ext. rewrite elem_of_cons.
    split; [by intros [?|?]|by right].
Qed.

(** X11. [analyzeShellConfigs] records a configuration file exactly when it is
    one of the three paths listed for the shell and [os.Stat] succeeds on
    it; a file (or directory) that exists but cannot be read is recorded
    with an empty content.  For a shell that is not [bash], [zsh] or
    [fish] the configuration is empty. *)
Theorem analyzeShellConfigs_files (h : Host) (shell : string) :
  (∀ key,
     ConfigFiles (analyzeShellConfigs h shell) !! key
     = if bool_decide (key ∈ default [] (configPaths !! shell))
       then configInfoAt h key else None)
  ∧ (∀ key info,
       ConfigFiles (analyzeShellConfigs h shell) !! key = Some info →
       is_Some (Stat h (Path info))
       ∧ (ReadFile h (Path info) = None → Content info = EmptyString))
  ∧ (size (ConfigFiles (analyzeShellConfigs h shell)) ≤ 3)%nat
  ∧ (configPaths !! shell = None → analyzeShellConfigs h shell = emptyConfig).
Proof.
  assert (∀ key,
     ConfigFiles (analyzeShellConfigs h shell) !! key
     = if bool_decide (key ∈ default [] (configPaths !! shell))
       then configInfoAt h key else None) as Hfiles.
  { intros key. rewrite analyzeShellConfigs_readConfigs.
    destruct (sameTables_detectPlugins h shell
                (readConfigs h (default [] (configPaths !! shell)) emptyConfig))
      as (-> & _ & _).
    rewrite ConfigFiles_readConfigs. case_bool_decide; [|done].
    by destruct (configInfoAt h key). }
  split_and!; [done| | |].
  - intros key info. rewrite Hfiles. case_bool_decide; [|done].
    unfold configInfoAt. destruct (Stat h (expandPath h key)) as [st|] eqn:Hst; [|done].
    intros [= <-]. cbn [Path Content]. split; [by eexists|]. by intros ->.
  - assert (dom (ConfigFiles (analyzeShellConfigs h shell))
            ⊆ list_to_set (default [] (configPaths !! shell))) as Hdom.
    { intros key [info Hkey]%elem_of_dom. rewrite Hfiles in Hkey.
      apply elem_of_list_to_set. by case_bool_decide. }
    apply subseteq_size in Hdom. rewrite size_dom in Hdom.
    etrans; [exact Hdom|]. etrans; [apply size_list_to_set_le|].
    destruct (configPaths !! shell) as [paths|] eqn:Hshell; [|cbn; lia].
    apply elem_of_map_to_list, list_elem_of_In in Hshell.
    assert (forallb (λ '(_, paths), (length paths <=? 3)%nat) (map_to_list configPaths)
            = true) as Hall by (vm_compute; reflexivity).
    rewrite forallb_forall in Hall. apply Hall in Hshell. cbn [default from_option id].
    by apply Nat.leb_le.
  - intros Hshell. unfold analyzeShellConfigs. rewrite Hshell. cbn [default foldl].
    unfold detectPlugins.
    destruct (String.eqb shell "zsh") eqn:Hzsh.
    { apply String.eqb_eq in Hzsh. subst shell. exfalso. revert Hshell. by vm_compute. }
    destruct (String.eqb shell "fish") eqn:Hfish.
    { apply String.eqb_eq in Hfish. subst shell. exfalso. revert Hshell. by vm_compute. }
    destruct (String.eqb shell "bash") eqn:Hbash; [|done].
    apply String.eqb_eq in Hbash. subst shell. exfalso. revert Hshell. by vm_compute.
Qed.

(** ** Plugin managers *)

(** The plugin recorded for a plugin-manager path: one when the expanded
    path is a directory, none otherwise. *)
Definition pluginAt (h : Host) (manager : string) : option PluginInfo :=
  match Stat h (expandPath h manager) with
  | Some info =>
      if IsDir info
      then Some {| Name := Base h manager; Source := expandPath h manager;
                   LastUpdated := ModTime info |}
      else None
  | None => None
  end.

Lemma Plugins_detectDirectories (h : Host) (paths : list string)
    (config : ShellConfig) :
  Plugins (detectDirectories h paths config)
  = Plugins config ++ omap (pluginAt h) paths.
Proof.
  unfold detectDirectories. revert config.
  induction paths as [|p paths IH]; intros config; cbn [foldl omap list_omap].
  - by rewrite app_nil_r.
  - rewrite IH. unfold pluginAt.
    destruct (Stat h (expandPath h p)) as [info|]; [|done].
    destruct (IsDir info); [|done]. cbn [Plugins addPlugin]. by rewrite <- app_assoc.
Qed.

Lemma Plugins_readConfigs (h : Host) (paths : list string) (config : ShellConfig) :
  Plugins (readConfigs h paths config) = Plugins config.
Proof.
  unfold readConfigs. revert config.
  induction paths as [|p paths IH]; intros config; [done|]. cbn [foldl].
  rewrite IH. destruct (Stat h (expandPath h p)) as [info|]; [|done].
  by rewrite Plugins_parseShellConfig.
Qed.

Lemma length_omap_le {A B : Type} (f : A → option B) (l : list A) :
  (length (omap f l) ≤ length l)%nat.
Proof.
  induction l as [|x l IH]; [done|]. cbn [omap list_omap length].
  destruct (f x); cbn [length]; lia.
Qed.

Lemma Plugins_zsh (h : Host) :
  Plugins (analyzeShellConfigs h "zsh")
  = omap (pluginAt h) ["~/.oh-my-zsh"; "~/.antigen"; "~/.zinit"; "~/.zplug"].
Proof.
  rewrite analyzeShellConfigs_readConfigs. unfold detectPlugins, detectZshPlugins.
  cbn [String.eqb Ascii.eqb Bool.eqb]. by rewrite Plugins_detectDirectories, Plugins_readConfigs.
Qed.

Lemma Plugins_bash (h : Host) :
  Plugins (analyzeShellConfigs h "bash")
  = omap (pluginAt h) ["~/.bash_it"; "~/.local/share/bash-completion"].
Proof.
  rewrite analyzeShellConfigs_readConfigs. unfold detectPlugins, detectBashPlugins.
  cbn [String.eqb Ascii.eqb Bool.eqb]. by rewrite Plugins_detectDirectories, Plugins_readConfigs.
Qed.

(** X12. The plugins reported for [zsh] and for [bash] are the plugin-manager
    directories that exist, in the order of the manager list: at most
    four for [zsh] and at most two for [bash], each one a directory that
    [os.Stat] finds.  The content of the configuration files adds no
    plugin. *)
Theorem plugins_are_manager_directories (h : Host) :
  let zsh := Plugins (analyzeShellConfigs h "zsh") in
  let bash := Plugins (analyzeShellConfigs h "bash") in
  zsh = omap (pluginAt h) ["~/.oh-my-zsh"; "~/.antigen"; "~/.zinit"; "~/.zplug"]
  ∧ bash = omap (pluginAt h) ["~/.bash_it"; "~/.local/share/bash-completion"]
  ∧ (length zsh ≤ 4)%nat ∧ (length bash ≤ 2)%nat
  ∧ (∀ plugin, plugin ∈ zsh ++ bash →
       ∃ info, Stat h (Source plugin) = Some info ∧ IsDir info = true
               ∧ LastUpdated plugin = ModTime info).
Proof.
  intros zsh bash. subst zsh bash. rewrite Plugins_zsh, Plugins_bash.
  split_and!; [done|done|apply length_omap_le|apply length_omap_le|].
  intros plugin. rewrite elem_of_app, !list_elem_of_omap.
  intros [(manager & _ & Hplugin)|(manager & _ & Hplugin)];
    unfold pluginAt in Hplugin;
    (destruct (Stat h (expandPath h manager)) as [info|] eqn:Hstat; [|done]);
    (destruct (IsDir info) eqn:Hdir; [|done]);
    injection Hplugin as <-; by exists info.
Qed.

(** ** Recommendations *)

Definition aliasRecommendation (shell : string) : string :=
  "Consider adding more aliases to your " +:+ shell
  +:+ " configuration to improve productivity".

Definition pluginRecommendation (shell : string) : string :=
  "Explore popular " +:+ shell +:+ " plugins to enhance your shell experience".

Definition generateRecommendations `{rt : GoRuntime} (data : ShellData)
  : list string :=
  foldl
    (λ recommendations '(shell, config),
       let recommendations :=
         if (Z.of_nat (size (Aliases config)) <? 5)%Z
         then recommendations ++ [aliasRecommendation shell]
         else recommendations in
       if (Z.of_nat (length (Plugins config)) <? 3)%Z
       then recommendations ++ [pluginRecommendation shell]
       else recommendations)
    [] (mapRange (ShellConfigs data)).

(** The recommendations a configuration gives rise to. *)
Definition recommendationsFor (shell : string) (config : ShellConfig)
  : list string :=
  (if (Z.of_nat (size (Aliases config)) <? 5)%Z then [aliasRecommendation shell]
   else [])
  ++ (if (Z.of_nat (length (Plugins config)) <? 3)%Z
      then [pluginRecommendation shell] else []).

Lemma generateRecommendations_bind `{rt : GoRuntime} (data : ShellData) :
  generateRecommendations data
  = mapRange (ShellConfigs data) ≫= λ '(shell, config), recommendationsFor shell config.
Proof.
  unfold generateRecommendations.
  assert (∀ (l : list (string * ShellConfig)) acc,
    foldl
      (λ recommendations '(shell, config),
         let recommendations :=
           if (Z.of_nat (size (Aliases config)) <? 5)%Z
           then recommendations ++ [aliasRecommendation shell]
           else recommendations in
         if (Z.of_nat (length (Plugins config)) <? 3)%Z
         then recommendations ++ [pluginRecommendation shell]
         else recommendations)
      acc l
    = acc ++ (l ≫= λ '(shell, config), recommendationsFor shell config)) as Hloop.
  { induction l as [|[shell config] l IH]; intros acc; cbn [foldl].
    - by rewrite app_nil_r.
    - rewrite IH. rewrite bind_cons, app_assoc. f_equal. unfold recommendationsFor.
      destruct (_ <? 5)%Z, (_ <? 3)%Z; by rewrite <- ?app_assoc, ?app_nil_r. }
  apply Hloop.
Qed.

Lemma length_recommendationsFor (shell : string) (config : ShellConfig) :
  (length (recommendationsFor shell config) ≤ 2)%nat.
Proof. unfold recommendationsFor. by destruct (_ <? 5)%Z, (_ <? 3)%Z; cbn; lia. Qed.

(** X13. [generateRecommendations] gives, for every shell whose configuration
    was recorded, the alias recommendation when the shell has fewer than
    five aliases and the plugin recommendation when it has fewer than
    three plugins, and nothing else.  Only two plugin managers are known
    for [bash], so whenever the analysis recorded a [bash] configuration
    the plugin recommendation for [bash] is given, whatever is
    installed. *)
Theorem generateRecommendations_spec `{rt : GoRuntime} (data : ShellData) :
  (∀ text,
     text ∈ generateRecommendations data
     ↔ ∃ shell config,
         ShellConfigs data !! shell = Some config
         ∧ (text = aliasRecommendation shell ∧ (size (Aliases config) < 5)%nat
            ∨ text = pluginRecommendation shell
              ∧ (length (Plugins config) < 3)%nat))
  ∧ (length (generateRecommendations data) ≤ 2 * size (ShellConfigs data))%nat
  ∧ (∀ h, is_Some (ShellConfigs (analyzeShells h) !! "bash") →
          pluginRecommendation "bash" ∈ generateRecommendations (analyzeShells h)).
Proof.
  assert (∀ data text,
     text ∈ generateRecommendations data
     ↔ ∃ shell config,
         ShellConfigs data !! shell = Some config
         ∧ (text = aliasRecommendation shell ∧ (size (Aliases config) < 5)%nat
            ∨ text = pluginRecommendation shell
              ∧ (length (Plugins config) < 3)%nat)) as Hspec.
  { clear data. intros data text. rewrite generateRecommendations_bind, list_elem_of_bind.
    split.
    - intros ([shell config] & Htext & Hin%elem_of_mapRange).
      exists shell, config. split; [done|]. unfold recommendationsFor in Htext.
      apply elem_of_app in Htext as [Htext|Htext].
      + destruct (Z.ltb_spec (Z.of_nat (size (Aliases config))) 5); [|by inv Htext].
        apply list_elem_of_singleton in Htext. left. split; [done|lia].
      + destruct (Z.ltb_spec (Z.of_nat (length (Plugins config))) 3); [|by inv Htext].
        apply list_elem_of_singleton in Htext. right. split; [done|lia].
    - intros (shell & config & Hin & Htext). exists (shell, config).
      split; [|by apply elem_of_mapRange]. unfold recommendationsFor.
      apply elem_of_app. destruct Htext as [[-> Hsize]|[-> Hlen]]; [left|right].
      + rewrite (proj2 (Z.ltb_lt _ _)) by lia. by apply list_elem_of_singleton.
      + rewrite (proj2 (Z.ltb_lt _ _)) by lia. by apply list_elem_of_singleton. }
  split_and!; [apply Hspec| |].
  - rewrite generateRecommendations_bind.
    rewrite <- (length_map_to_list (ShellConfigs data)), <- (mapRange_perm (ShellConfigs data)).
    induction (mapRange (ShellConfigs data)) as [|[shell config] l IH]; [done|].
    rewrite bind_cons, length_app. cbn [length].
    pose proof (length_recommendationsFor shell config). lia.
  - intros h [config Hbash]. apply Hspec. exists "bash", config. split; [done|].
    right. split; [done|]. rewrite ShellConfigs_analyzeShells in Hbash.
    destruct (shellPaths !! "bash") as [path|]; [|done]. cbn in Hbash.
    unfold configAt in Hbash. destruct (historyAt h path); [|done].
    injection Hbash as <-. rewrite Plugins_bash.
    pose proof (length_omap_le (pluginAt h)
                  ["~/.bash_it"; "~/.local/share/bash-completion"]) as Hle.
    cbn [length] in Hle. lia.
Qed.

(** ** Command patterns and workflow tips *)

(** [strings.Join(elems, sep)] *)
Fixpoint joinStrings (elems : list string) (sep : string) : string :=
  match elems with
  | [] => EmptyString
  | [e] => e
  | e :: rest => e +:+ sep +:+ joinStrings rest sep
  end.

(** The body of [analyzeCommandPatterns]'s inner loop. *)
Definition countCommandPattern (patterns : gmap string Z) (entry : CommandEntry)
  : gmap string Z :=
  let parts := strings.Fields (Command entry) in
  if (1 <? Z.of_nat (length parts))%Z
  then let pattern := joinStrings (take 2 parts) " " in
       <[pattern := incr (getInt patterns pattern)]> patterns
  else patterns.

Definition analyzeCommandPatterns `{rt : GoRuntime} (data : ShellData)
  : gmap string Z :=
  foldl (λ patterns '(_, history), foldl countCommandPattern patterns history)
    ∅ (mapRange (Histories data)).

Definition workflowTip (pattern : string) : string :=
  "You frequently use '" +:+ pattern
  +:+ "'. Consider creating an alias for this pattern".

Definition generateWorkflowTips `{rt : GoRuntime} (data : ShellData) : list string :=
  let commonPatterns := analyzeCommandPatterns data in
  foldl
    (λ tips '(pattern, count),
       if (10 <? count)%Z then tips ++ [workflowTip pattern] else tips)
    [] (mapRange commonPatterns).

Lemma Fields_SpaceFree (tok : string) :
  SpaceFree tok → strings.Fields tok = strings.flush tok.
Proof.
  intros Htok. unfold strings.Fields.
  rewrite <- (append_nil_r tok) at 1.
  by rewrite fieldsLoop_SpaceFree.
Qed.

Lemma countCommandPattern_SpaceFree (patterns : gmap string Z) (entry : CommandEntry) :
  SpaceFree (Command entry) → countCommandPattern patterns entry = patterns.
Proof.
  intros Hfree. unfold countCommandPattern. rewrite Fields_SpaceFree by done.
  by destruct (Command entry).
Qed.

Lemma analyzeCommandPatterns_SpaceFree `{rt : GoRuntime} (data : ShellData) :
  map_Forall (λ _ history, Forall (λ e, SpaceFree (Command e)) history)
    (Histories data) →
  analyzeCommandPatterns data = ∅.
Proof.
  intros Hdata. unfold analyzeCommandPatterns.
  assert (Forall (λ '(_, history), Forall (λ e, SpaceFree (Command e)) history)
            (mapRange (Histories data))) as Hall.
  { apply Forall_forall. intros [shell history] Hin%elem_of_mapRange.
    by apply (Hdata shell). }
  induction Hall as [|[shell history] l Hhistory _ IH]; [done|].
  cbn [foldl]. rewrite <- IH at 2. f_equal.
  induction Hhistory as [|e history He _ IHh]; [done|].
  cbn [foldl]. by rewrite countCommandPattern_SpaceFree.
Qed.

Lemma Histories_analyzeShells_SpaceFree `{rt : GoRuntime} (h : Host) :
  map_Forall (λ _ history, Forall (λ e, SpaceFree (Command e)) history)
    (Histories (analyzeShells h)).
Proof.
  intros shell history. rewrite Histories_analyzeShells.
  destruct (shellPaths !! shell) as [path|]; [|done]. cbn.
  unfold historyAt, readHistory.
  destruct (Open h (expandPath h path)) as [content|]; [|done].
  destruct (bufio.Err content); [done|]. intros [= <-].
  eapply Forall_impl; [apply readLines_entries|]. by intros e (_ & Hfree & _).
Qed.

(** X14. [analyzeCommandPatterns] counts the first two words of the commands
    that have at least two words.  The commands [readHistory] stores
    have a single word each, so on the data [analyzeShells] gathers no
    pattern is ever counted and [generateWorkflowTips] gives no tip,
    whatever the histories hold. *)
Theorem no_workflow_tip_after_analyzeShells `{rt : GoRuntime} (h : Host) :
  analyzeCommandPatterns (analyzeShells h) = ∅
  ∧ generateWorkflowTips (analyzeShells h) = [].
Proof.
  assert (analyzeCommandPatterns (analyzeShells h) = ∅) as Hempty
    by apply analyzeCommandPatterns_SpaceFree, Histories_analyzeShells_SpaceFree.
  split; [done|]. unfold generateWorkflowTips. rewrite Hempty.
  by rewrite mapRange_empty.
Qed.

(** The first two words of a command that has at least two, joined by a
    space: the pattern [analyzeCommandPatterns] counts the command under. *)
Definition firstTwoWords (cmd : string) : option string :=
  let parts := strings.Fields cmd in
  if (1 <? Z.of_nat (length parts))%Z
  then Some (joinStrings (take 2 parts) " ") else None.

Definition startsWithWords (pattern cmd : string) : bool :=
  bool_decide (firstTwoWords cmd = Some pattern).

(** The entries of all the histories, in the order the loops visit them. *)
Definition allEntries `{rt : GoRuntime} (data : ShellData) : list CommandEntry :=
  mapRange (Histories data) ≫= snd.

Lemma countCommandPattern_lookup (patterns : gmap string Z) (cmd pattern : string)
    (entry : CommandEntry) :
  Command entry = cmd →
  countCommandPattern patterns entry !! pattern
  = if true && startsWithWords pattern cmd
    then Some (incr (getInt patterns pattern)) else patterns !! pattern.
Proof.
  intros <-. unfold countCommandPattern, startsWithWords, firstTwoWords. cbn [andb].
  destruct (1 <? Z.of_nat (length (strings.Fields (Command entry))))%Z.
  - case_bool_decide as Heq.
    + injection Heq as <-. by rewrite lookup_insert_eq.
    + rewrite lookup_insert_ne; [done|]. by intros <-.
  - by rewrite bool_decide_eq_false_2.
Qed.

Lemma analyzeCommandPatterns_allEntries `{rt : GoRuntime} (data : ShellData) :
  analyzeCommandPatterns data = foldl countCommandPattern ∅ (allEntries data).
Proof.
  unfold analyzeCommandPatterns, allEntries.
  generalize (∅ : gmap string Z).
  induction (mapRange (Histories data)) as [|[shell history] l IH]; intros acc; [done|].
  cbn [foldl]. rewrite bind_cons, foldl_app. apply IH.
Qed.

Lemma analyzeCommandPatterns_lookup `{rt : GoRuntime} (data : ShellData)
    (pattern : string) :
  Z.of_nat (length (allEntries data)) ≤ maxInt →
  analyzeCommandPatterns data !! pattern
  = if (0 <? occurrences (startsWithWords pattern) (allEntries data))%Z
    then Some (occurrences (startsWithWords pattern) (allEntries data)) else None.
Proof.
  intros Hlen. rewrite analyzeCommandPatterns_allEntries.
  exact (counter_loop
           (λ m cmd,
              countCommandPattern m
                {| Command := cmd;
                   Timestamp := {| time.unixSec := 0; time.zoneOffset := 0 |};
                   Count := 0; Categories := [] |})
           (λ _, true) startsWithWords
           (λ m cmd k,
              countCommandPattern_lookup m cmd k
                {| Command := cmd;
                   Timestamp := {| time.unixSec := 0; time.zoneOffset := 0 |};
                   Count := 0; Categories := [] |} eq_refl)
           (allEntries data) pattern Hlen).
Qed.

Lemma generateWorkflowTips_fmap `{rt : GoRuntime} (data : ShellData) :
  generateWorkflowTips data
  = workflowTip
    <$> foldl (λ acc '(pattern, count),
                 if (10 <? count)%Z then acc ++ [pattern] else acc)
          [] (mapRange (analyzeCommandPatterns data)).
Proof.
  unfold generateWorkflowTips. cbv zeta.
  assert (∀ (l : list (string * Z)) (acc : list string),
    foldl (λ tips '(pattern, count),
             if (10 <? count)%Z then tips ++ [workflowTip pattern] else tips)
      (workflowTip <$> acc) l
    = workflowTip
      <$> foldl (λ acc '(pattern, count),
                   if (10 <? count)%Z then acc ++ [pattern] else acc) acc l)
    as Hloop; [|apply (Hloop _ [])].
  induction l as [|[pattern count] l IH]; intros acc; [done|].
  cbn [foldl]. rewrite <- IH. f_equal.
  destruct (10 <? count)%Z; [|done]. by rewrite fmap_app.
Qed.

(** X15. In general, [generateWorkflowTips] gives a tip for a pattern exactly
    when more than ten commands of the histories start with the two
    words of the pattern. *)
Theorem generateWorkflowTips_spec `{rt : GoRuntime} (data : ShellData)
    (text : string) :
  Z.of_nat (length (allEntries data)) ≤ maxInt →
  text ∈ generateWorkflowTips data
  ↔ ∃ pattern,
      text = workflowTip pattern
      ∧ 10 < occurrences (startsWithWords pattern) (allEntries data).
Proof.
  intros Hlen. rewrite generateWorkflowTips_fmap, list_elem_of_fmap.
  assert (∀ pattern,
    pattern ∈ foldl (λ acc '(pattern, count),
                       if (10 <? count)%Z then acc ++ [pattern] else acc)
                [] (mapRange (analyzeCommandPatterns data))
    ↔ 10 < occurrences (startsWithWords pattern) (allEntries data)) as Hin.
  { intros pattern.
    rewrite (elem_of_foldl_append (λ _ count, (10 <? count)%Z)).
    split.
    - intros [Hnil|(count & Hcount%elem_of_mapRange & Hten)]; [by inv Hnil|].
      rewrite analyzeCommandPatterns_lookup in Hcount by done.
      destruct (0 <? _)%Z; [|done]. injection Hcount as ->. by apply Z.ltb_lt.
    - intros Hten. right. eexists. split; [|by apply Z.ltb_lt].
      apply elem_of_mapRange. rewrite analyzeCommandPatterns_lookup by done.
      by rewrite (proj2 (Z.ltb_lt 0 _)) by lia. }
  split.
  - intros (pattern & -> & Hpattern%Hin). by exists pattern.
  - intros (pattern & -> & Hten). exists pattern. split; [done|]. by apply Hin.
Qed.

(** Eleven times [git status] in a history: a tip for [git status]. *)
Definition elevenGitStatus : ShellData :=
  setHistory "bash"
    (replicate 11
       {| Command := "git status";
          Timestamp := {| time.unixSec := 0; time.zoneOffset := 0 |};
          Count := 0; Categories := ["development"] |})
    initShellData.

Example generateWorkflowTips_git_status :
  "You frequently use 'git status'. Consider creating an alias for this pattern"
  ∈ generateWorkflowTips (rt := insertionRuntime) elevenGitStatus.
Proof.
  apply (generateWorkflowTips_spec (rt := insertionRuntime) elevenGitStatus).
  - vm_compute. discriminate.
  - exists "git status". split; [reflexivity|]. vm_compute. reflexivity.
Defined.

(** ** The peak hours of a pass *)

Lemma dom_timeOfDay `{rt : GoRuntime} (h : Host) (langs : gmap string string)
    (entries : list CommandEntry) :
  dom (timeOfDay (countUsage h langs entries))
  = list_to_set ((λ e, time.Hour (Timestamp e)) <$> entries).
Proof.
  unfold countUsage. rewrite timeOfDay_foldl. cbn [timeOfDay].
  assert (∀ (l : list CommandEntry) (m : gmap Z Z),
    dom (foldl (λ m e, <[time.Hour (Timestamp e)
                         := incr (getInt m (time.Hour (Timestamp e)))]> m) m l)
    = dom m ∪ list_to_set ((λ e, time.Hour (Timestamp e)) <$> l)) as Hloop.
  { induction l as [|e l IH]; intros m; cbn [foldl fmap list_fmap list_to_set].
    - by rewrite union_empty_r_L.
    - rewrite IH, dom_insert_L. by rewrite (union_comm_L {[_]} (dom m)), union_assoc_L. }
  by rewrite Hloop, dom_empty_L, union_empty_l_L.
Qed.

Lemma Hour_range (t : time.Time) : 0 ≤ time.Hour t ≤ 23.
Proof.
  unfold time.Hour.
  pose proof (Z.mod_pos_bound ((time.unixSec t + time.zoneOffset t) `div` 3600) 24).
  lia.
Qed.

(** X16. The peak hours a pass records are hours of the day, between 0 and
    23, at which commands of the history were stamped: as many of them
    as the commands have distinct hours, up to three, and none only when
    the history holds no command. *)
Theorem peakHours_are_hours_of_commands `{rt : GoRuntime} (h : Host)
    (entries : list CommandEntry) (data : ShellData) :
  let peak := peakHoursOf (analyzeCommands h entries data) in
  let hours := (λ e, time.Hour (Timestamp e)) <$> entries in
  Forall (λ hour, 0 ≤ hour ≤ 23 ∧ hour ∈ hours) peak
  ∧ length peak = (3 `min` size (list_to_set hours : gset Z))%nat
  ∧ (peak = [] ↔ entries = []).
Proof.
  intros peak hours. subst peak hours. rewrite peakHoursOf_analyzeCommands.
  pose proof (dom_timeOfDay h (getInstalledLanguages h) entries) as Hdom.
  assert (length (getPeakHours (timeOfDay (countUsage h (getInstalledLanguages h) entries)))
          = (3 `min` size (list_to_set ((λ e, time.Hour (Timestamp e)) <$> entries)
                            : gset Z))%nat) as Hlen.
  { rewrite getPeakHours_length. by rewrite <- size_dom, Hdom. }
  split_and!; [|done|].
  - apply Forall_forall. intros hour Hhour%getPeakHours_counted.
    apply elem_of_dom in Hhour. rewrite Hdom, elem_of_list_to_set in Hhour.
    split; [|done]. apply list_elem_of_fmap in Hhour as (e & -> & _).
    apply Hour_range.
  - split.
    + intros Hnil. rewrite Hnil in Hlen. cbn [length] in Hlen.
      destruct entries as [|e entries]; [done|]. exfalso.
      assert (size (list_to_set ((λ e, time.Hour (Timestamp e)) <$> e :: entries)
                    : gset Z) ≠ 0%nat); [|lia].
      intros Hsize%size_empty_inv.
      apply (not_elem_of_empty (C := gset Z) (time.Hour (Timestamp e))).
      rewrite <- Hsize. apply elem_of_list_to_set. left.
    + intros ->. apply nil_length_inv. by rewrite Hlen.
Qed.

(** ** What the analysis never fills *)

(** The fields of the snapshot that no statement of the pipeline writes. *)
Definition unwritten (data : ShellData)
  : gmap string Z * gmap string Z * ToolUsage * list string * list string :=
  (CommonCmds data, TimePatterns data, Tools (Insights data),
   SecondarySkills (TechnicalProfile (Insights data)),
   CommonWorkflows (Patterns (Insights data))).

Lemma unwritten_analyzeCommands `{rt : GoRuntime} (h : Host)
    (entries : list CommandEntry) (data : ShellData) :
  unwritten (analyzeCommands h entries data) = unwritten data.
Proof.
  unfold unwritten, analyzeCommands. cbv zeta.
  destruct (getMostUsed _) as [primaryLang [|]];
    by destruct (0 <? Z.of_nat (length entries))%Z.
Qed.

Lemma unwritten_analyzeShell `{rt : GoRuntime} (h : Host) (data : ShellData)
    (entry : string * string) :
  unwritten (analyzeShell h data entry) = unwritten data.
Proof.
  destruct entry as [shell path]. unfold analyzeShell. cbv zeta.
  destruct (readHistory h (expandPath h path)) as [history [err|]]; [done|].
  change (unwritten (setShellConfig shell (analyzeShellConfigs h shell)
                       (analyzeCommands h history (setHistory shell history data))))
    with (unwritten (analyzeCommands h history (setHistory shell history data))).
  by rewrite unwritten_analyzeCommands.
Qed.

(** X17. The snapshot [analyzeShells] returns has its common commands, its
    time patterns, its three tool-usage tables, its secondary skills and
    its common workflows empty on every host: nothing writes them.  A
    shell has a history in it exactly when it has a configuration, and
    the shells are among [bash], [zsh] and [fish]. *)
Theorem analyzeShells_unwritten_fields `{rt : GoRuntime} (h : Host) :
  let snapshot := analyzeShells h in
  CommonCmds snapshot = ∅ ∧ TimePatterns snapshot = ∅
  ∧ Tools (Insights snapshot) = {| Editors := ∅; Languages := ∅; BuildTools := ∅ |}
  ∧ SecondarySkills (TechnicalProfile (Insights snapshot)) = []
  ∧ CommonWorkflows (Patterns (Insights snapshot)) = []
  ∧ dom (Histories snapshot) = dom (ShellConfigs snapshot)
  ∧ dom (Histories snapshot) ⊆ ({["bash"; "zsh"; "fish"]} : gset string).
Proof.
  intros snapshot. subst snapshot.
  assert (unwritten (analyzeShells h) = unwritten initShellData) as Hun.
  { unfold analyzeShells. generalize initShellData.
    induction (mapRange shellPaths) as [|entry l IH]; intros data; [done|].
    cbn [foldl]. by rewrite IH, unwritten_analyzeShell. }
  unfold unwritten in Hun. cbn in Hun. injection Hun as -> -> -> -> ->.
  split_and!; [done..| |].
  - apply set_eq. intros shell. rewrite !elem_of_dom.
    rewrite Histories_analyzeShells, ShellConfigs_analyzeShells.
    destruct (shellPaths !! shell) as [path|]; cbn; [|done]. unfold configAt.
    destruct (historyAt h path) as [history|].
    + split; intros _; by eexists.
    + split; by intros [? ?].
  - intros shell [history Hshell]%elem_of_dom.
    rewrite Histories_analyzeShells in Hshell.
    destruct (shellPaths !! shell) as [path|] eqn:Hpath; [|done].
    apply shellPaths_cases in Hpath.
    destruct Hpath as [Heq|[Heq|Heq]]; simplify_eq; set_solver.
Qed.

(** ** Proficiency scores lie between 0 and 1 *)

Definition unitScores (scores : gmap string Qc) : Prop :=
  map_Forall (λ _ score, (0 ≤ score)%Qc ∧ (score ≤ 1)%Qc) scores.

Lemma unitScores_analyzeCommands `{rt : GoRuntime} (h : Host)
    (entries : list CommandEntry) (data : ShellData) :
  Z.of_nat (length entries) ≤ maxInt →
  unitScores (proficiencyOf data) →
  unitScores (proficiencyOf (analyzeCommands h entries data)).
Proof.
  intros Hlen Hdata k score. rewrite proficiencyOf_analyzeCommands.
  destruct (Z.ltb_spec 0 (Z.of_nat (length entries))) as [Hpos|_]; [|apply Hdata].
  rewrite !recordProficiency_lookup.
  rewrite toolUsage_countUsage, langUsage_countUsage by done.
  pose proof (occurrences_bounds (usesTool h k) entries).
  pose proof (occurrences_bounds (usesLanguage k) entries).
  destruct (_ && _); [intros [= <-]; apply ratio_bounds; lia|].
  destruct (_ && _); [intros [= <-]; apply ratio_bounds; lia|].
  apply Hdata.
Qed.

Lemma length_rawLines (data : string) :
  (length (bufio.rawLines (bufio.splitLines data)) ≤ String.length data)%nat.
Proof.
  induction data as [|c rest IH]; [done|]. cbn [bufio.splitLines String.length].
  destruct (Ascii.eqb c bufio.newline).
  - destruct (bufio.splitLines rest) as [|l ls] eqn:Hrest.
    + cbn. lia.
    + cbn [bufio.rawLines length] in *. lia.
  - destruct (bufio.splitLines rest) as [|l ls] eqn:Hrest; [cbn; lia|].
    destruct ls as [|l' ls]; [cbn; lia|].
    cbn [bufio.rawLines length] in *. lia.
Qed.

Lemma length_Scan (data : string) :
  (length (bufio.Scan data) ≤ String.length data)%nat.
Proof.
  unfold bufio.Scan. etrans; [|apply length_rawLines].
  induction (bufio.rawLines (bufio.splitLines data)) as [|l ls IH]; [done|].
  cbn [bufio.tokens]. destruct (bufio.tooLong l); cbn [length]; lia.
Qed.

Lemma length_readHistory `{rt : GoRuntime} (h : Host) (path : string) :
  (∀ data, Open h path = Some data → Z.of_nat (String.length data) ≤ maxInt) →
  Z.of_nat (length (readHistory h path).1) ≤ maxInt.
Proof.
  intros Hfile. unfold readHistory.
  destruct (Open h path) as [data|]; cbn [fst length]; [|by vm_compute].
  specialize (Hfile data eq_refl).
  pose proof (length_readLines h path O (bufio.Scan data)).
  pose proof (length_Scan data). lia.
Qed.

(** X18. On a host whose files hold fewer than 2^63 bytes each, every
    proficiency score of the snapshot [analyzeShells] returns lies
    between 0 and 1. *)
Theorem analyzeShells_proficiency_in_unit_interval `{rt : GoRuntime} (h : Host) :
  (∀ path data, Open h path = Some data → Z.of_nat (String.length data) ≤ maxInt) →
  map_Forall (λ _ score, (0 ≤ score)%Qc ∧ (score ≤ 1)%Qc)
    (proficiencyOf (analyzeShells h)).
Proof.
  intros Hfiles. unfold analyzeShells.
  assert (unitScores (proficiencyOf initShellData)) as Hinit by done.
  revert Hinit. generalize initShellData.
  induction (mapRange shellPaths) as [|[shell path] l IH]; intros data Hdata; [done|].
  cbn [foldl]. apply IH.
  destruct (readHistory h (expandPath h path)) as [history err] eqn:Hread.
  destruct err as [err|].
  - rewrite analyzeShell_failed; [done|]. by rewrite Hread.
  - unfold proficiencyOf. rewrite (Insights_analyzeShell_ok h data shell path history Hread).
    apply unitScores_analyzeCommands; [|done].
    pose proof (length_readHistory h (expandPath h path) (Hfiles _)) as Hlen.
    by rewrite Hread in Hlen.
Qed.

(** On the host with a zsh and a bash history, [python] is the only
    score, and it is 1. *)
Example analyzeShells_proficiency_twoShellHost :
  map_Forall (λ _ score, (0 ≤ score)%Qc ∧ (score ≤ 1)%Qc)
    (proficiencyOf (analyzeShells (rt := insertionRuntime) twoShellHost))
  ∧ proficiencyOf (analyzeShells (rt := insertionRuntime) twoShellHost) !! "python"
    = Some (Q2Qc 1).
Proof.
  split.
  - apply (analyzeShells_proficiency_in_unit_interval (rt := insertionRuntime)
             twoShellHost).
    intros path data. cbn [Open twoShellHost].
    destruct (String.eqb path "~/.zsh_history");
      [intros [= <-]; by vm_compute|].
    destruct (String.eqb path "~/.bash_history");
      [intros [= <-]; by vm_compute|done].
  - vm_compute. reflexivity.
Defined.

(** ** Command complexity *)

(** The body of [analyzeCommandComplexity]'s inner loop, on the pair of
    its two counters.  The counters are [float64] in Go; they hold whole
    numbers and halves, which [float64] adds without rounding below
    2^53, and are rationals here. *)
Definition complexityStep (counters : Qc * Qc) (entry : CommandEntry) : Qc * Qc :=
  let '(totalCommands, complexCommands) := counters in
  let totalCommands := (totalCommands + 1)%Qc in
  let complexCommands :=
    if strings.Contains (Command entry) "|"
       || strings.Contains (Command entry) ">"
       || strings.Contains (Command entry) "<"
    then (complexCommands + 1)%Qc else complexCommands in
  let complexCommands :=
    if (2 <? Z.of_nat (length (strings.Fields (Command entry))))%Z
    then (complexCommands + Q2Qc (1 # 2))%Qc else complexCommands in
  (totalCommands, complexCommands).

(** The quotient is the exact one, as for [ratio]. *)
Definition analyzeCommandComplexity `{rt : GoRuntime} (data : ShellData) : Qc :=
  let '(totalCommands, complexCommands) :=
    foldl (λ counters '(_, history), foldl complexityStep counters history)
      (Q2Qc 0, Q2Qc 0) (mapRange (Histories data)) in
  if Qc_eq_dec totalCommands (Q2Qc 0) then Q2Qc 0
  else (complexCommands / totalCommands)%Qc.

(** What a command adds to [complexCommands]. *)
Definition complexityOf (cmd : string) : Qc :=
  ((if strings.Contains cmd "|" || strings.Contains cmd ">"
       || strings.Contains cmd "<"
    then 1 else Q2Qc 0)
   + (if (2 <? Z.of_nat (length (strings.Fields cmd)))%Z
      then Q2Qc (1 # 2) else Q2Qc 0))%Qc.

Lemma complexityStep_complexityOf (total complex : Qc) (entry : CommandEntry) :
  complexityStep (total, complex) entry
  = ((total + 1)%Qc, (complex + complexityOf (Command entry))%Qc).
Proof.
  unfold complexityStep, complexityOf. f_equal.
  destruct (_ || _), (_ <? _)%Z; ring.
Qed.

Lemma complexityOf_bounds (cmd : string) :
  (Q2Qc 0 ≤ complexityOf cmd)%Qc ∧ (complexityOf cmd ≤ Q2Qc (3 # 2))%Qc.
Proof. unfold complexityOf. by destruct (_ || _), (_ <? _)%Z. Qed.

Lemma complexityOf_SpaceFree (cmd : string) :
  SpaceFree cmd → (complexityOf cmd ≤ 1)%Qc.
Proof.
  intros Hfree. unfold complexityOf. rewrite Fields_SpaceFree by done.
  assert ((2 <? Z.of_nat (length (strings.flush cmd)))%Z = false) as ->
    by by destruct cmd.
  by destruct (_ || _).
Qed.

(** The counters after the loops, when every command adds at most [k]. *)
Lemma complexity_counters (k : Qc) (l : list (string * list CommandEntry))
    (total complex : Qc) :
  Forall (λ '(_, history), Forall (λ e, (complexityOf (Command e) ≤ k)%Qc) history) l →
  (Q2Qc 0 ≤ total)%Qc → (Q2Qc 0 ≤ complex)%Qc → (complex ≤ k * total)%Qc →
  let counters :=
    foldl (λ counters '(_, history), foldl complexityStep counters history)
      (total, complex) l in
  (Q2Qc 0 ≤ counters.1)%Qc ∧ (Q2Qc 0 ≤ counters.2)%Qc
  ∧ (counters.2 ≤ k * counters.1)%Qc.
Proof.
  intros Hl. revert total complex.
  induction Hl as [|[shell history] l Hhistory _ IH]; intros total complex Ht Hc Hk;
    [done|].
  cbn [foldl].
  assert (∀ total complex,
    (Q2Qc 0 ≤ total)%Qc → (Q2Qc 0 ≤ complex)%Qc → (complex ≤ k * total)%Qc →
    ∃ total' complex',
      foldl complexityStep (total, complex) history = (total', complex')
      ∧ (Q2Qc 0 ≤ total')%Qc ∧ (Q2Qc 0 ≤ complex')%Qc
      ∧ (complex' ≤ k * total')%Qc) as Hinner.
  { clear IH total complex Ht Hc Hk.
    induction Hhistory as [|e history He _ IHh]; intros total complex Ht Hc Hk.
    - by exists total, complex.
    - cbn [foldl]. rewrite complexityStep_complexityOf.
      destruct (complexityOf_bounds (Command e)) as [Hw _].
      apply IHh.
      + by apply Qcplus_nonneg_nonneg.
      + by apply Qcplus_nonneg_nonneg.
      + replace (k * (total + 1))%Qc with (k * total + k)%Qc by ring.
        by apply Qcplus_le_compat. }
  destruct (Hinner total complex Ht Hc Hk) as (total' & complex' & -> & ? & ? & ?).
  by apply IH.
Qed.

Lemma complexity_quotient (k total complex : Qc) :
  (Q2Qc 0 ≤ k)%Qc → (Q2Qc 0 ≤ total)%Qc → (Q2Qc 0 ≤ complex)%Qc →
  (complex ≤ k * total)%Qc →
  let result :=
    if Qc_eq_dec total (Q2Qc 0) then Q2Qc 0 else (complex / total)%Qc in
  (Q2Qc 0 ≤ result)%Qc ∧ (result ≤ k)%Qc.
Proof.
  intros Hk Ht Hc Hck result. subst result.
  destruct (Qc_eq_dec total (Q2Qc 0)) as [_|Hne]; [done|].
  assert (Q2Qc 0 < total)%Qc as Hpos.
  { destruct (Qcle_lt_or_eq _ _ Ht) as [?|Heq]; [done|]. by destruct Hne. }
  pose proof (Qcinv_pos total Hpos) as Hinv.
  split.
  - unfold Qcdiv. by apply Qcmult_nonneg_nonneg; [|apply Qclt_le_weak].
  - unfold Qcdiv.
    enough (complex * / total ≤ k * total * / total)%Qc as Hle.
    { by rewrite <- Qcmult_assoc, Qcmult_inv_r, Qcmult_1_r in Hle. }
    by apply Qcmult_le_compat_r; [|apply Qclt_le_weak].
Qed.

(** X19. [analyzeCommandComplexity] gives a score between 0 and 3/2: a command
    adds 1 when it holds a pipe or a redirection and 1/2 more when it has
    more than two words.  On the snapshot of [analyzeShells] the score is
    at most 1, the commands stored there having one word each. *)
Theorem analyzeCommandComplexity_bounds `{rt : GoRuntime} (data : ShellData) :
  (Q2Qc 0 ≤ analyzeCommandComplexity data)%Qc
  ∧ (analyzeCommandComplexity data ≤ Q2Qc (3 # 2))%Qc
  ∧ (Histories data = ∅ → analyzeCommandComplexity data = Q2Qc 0)
  ∧ (∀ h, (analyzeCommandComplexity (analyzeShells h) ≤ 1)%Qc).
Proof.
  assert (∀ (k : Qc) (data : ShellData),
    (Q2Qc 0 ≤ k)%Qc →
    map_Forall (λ _ history, Forall (λ e, (complexityOf (Command e) ≤ k)%Qc) history)
      (Histories data) →
    (Q2Qc 0 ≤ analyzeCommandComplexity data)%Qc
    ∧ (analyzeCommandComplexity data ≤ k)%Qc) as Hbound.
  { clear data. intros k data Hk Hdata. unfold analyzeCommandComplexity.
    assert (Forall (λ '(_, history),
                      Forall (λ e, (complexityOf (Command e) ≤ k)%Qc) history)
              (mapRange (Histories data))) as Hall.
    { apply Forall_forall. intros [shell history] Hin%elem_of_mapRange.
      by apply (Hdata shell). }
    pose proof (complexity_counters k _ (Q2Qc 0) (Q2Qc 0) Hall) as Hcounters.
    cbv zeta in Hcounters.
    destruct (foldl _ _ _) as [total complex]. cbn [fst snd] in Hcounters.
    destruct Hcounters as (Ht & Hc & Hck); [done|done|by rewrite Qcmult_0_r|].
    by apply complexity_quotient. }
  split_and!.
  - apply (Hbound (Q2Qc (3 # 2))); [done|]. intros shell history _.
    apply Forall_forall. intros e _. apply complexityOf_bounds.
  - apply (Hbound (Q2Qc (3 # 2))); [done|]. intros shell history _.
    apply Forall_forall. intros e _. apply complexityOf_bounds.
  - intros Hnone. unfold analyzeCommandComplexity. rewrite Hnone, mapRange_empty.
    cbn [foldl]. by destruct (Qc_eq_dec (Q2Qc 0) (Q2Qc 0)).
  - intros h. apply (Hbound 1%Qc); [done|]. intros shell history Hshell.
    eapply Forall_impl; [by apply (Histories_analyzeShells_SpaceFree h shell)|].
    intros e He. by apply complexityOf_SpaceFree.
Qed.
